(** * TomoX staged cache store and block validator

    A shallow embedding of [tomox.BatchDatabase] (the dry-run database that
    layers per-block overlays over LevelDB and a hot LRU cache) and of
    [core.BlockValidator] (body validation with matched-order replay, and the
    gas-limit recurrence), with the properties of the design document proved
    or refuted against the embedded code. *)

From Stdlib Require Import ZArith NArith Lia Ascii String.
From Stdlib.Strings Require Import Byte.
From stdpp Require Import base option list gmap strings.

Local Open Scope Z_scope.

(** ** Bytes, hashes and errors *)

(** [[]byte] contents. A Go slice can also be [nil]; wherever the code can tell
    the difference the slice is an [option (list byte)], [None] being [nil]. *)
Definition slice := option (list byte).

Definition slice_bytes (s : slice) : list byte := default [] s.

#[global] Instance byte_eq_decision : EqDecision byte := Byte.byte_eq_dec.

Definition byte_of_N (n : N) : byte := default Byte.x00 (Byte.of_N n).

#[global] Instance byte_countable : Countable byte.
Proof.
  refine (inj_countable' Byte.to_N byte_of_N _).
  intros b. unfold byte_of_N. by rewrite Byte.of_to_N.
Defined.

(** [common.Hash] is a 32-byte array; it is read as a number, and the zero
    value [common.Hash{}] is [0]. *)
Abbreviation Hash := N.
Definition zeroHash : Hash := 0%N.

(** The errors the two files build or pass on. *)
Inductive Error :=
| ErrNotFound                                   (* leveldb: not found *)
| ErrClosed                                     (* leveldb: closed (an I/O failure) *)
| ErrIO (msg : string)                          (* leveldb: an I/O error of a batch write *)
| ErrLruSize                                    (* lru.New: "Must provide a positive size" *)
| ErrHexLength                                  (* hex.ErrLength *)
| ErrHexInvalidByte (c : ascii)                 (* hex.InvalidByteError *)
| ErrRlp (msg : string)                         (* an error of the record codec *)
| ErrDryrunCacheNotFound (h : Hash)             (* "dryruncache not found %v" *)
| ErrCantInitDryrunCache (h : Hash) (e : Error) (* "can't initialize dryruncache ..." *)
| ErrCantInherit (h p : Hash) (e : Error)       (* "can't inherit from the nearest dryruncache ..." *)
| ErrParentCacheNotFound (h p : Hash)           (* "can't found parentCache ..." *)
| ErrCantGetItem.                               (* "can't get item from dryrun cache" *)

(** ** encoding/hex *)

Module hex.

Definition hextable : list ascii :=
  ["0"; "1"; "2"; "3"; "4"; "5"; "6"; "7"; "8"; "9"; "a"; "b"; "c"; "d"; "e"; "f"]%char.

Definition digit (n : N) : ascii := nth (N.to_nat n) hextable "0"%char.

Fixpoint EncodeToString (src : list byte) : string :=
  match src with
  | [] => EmptyString
  | b :: rest =>
      let n := Byte.to_N b in
      String (digit (n / 16)) (String (digit (n mod 16)) (EncodeToString rest))
  end.

(** [fromHexChar]: digits, and letters of either case. *)
Definition fromHexChar (c : ascii) : option N :=
  let n := N_of_ascii c in
  if ((48 <=? n) && (n <=? 57))%N then Some (n - 48)%N
  else if ((97 <=? n) && (n <=? 102))%N then Some (n - 97 + 10)%N
  else if ((65 <=? n) && (n <=? 70))%N then Some (n - 65 + 10)%N
  else None.

(** [DecodeString]: pairs of digits from the left; a bad digit is reported
    before an odd length is. *)
Fixpoint DecodeString (s : string) : list byte + Error :=
  match s with
  | EmptyString => inl []
  | String c EmptyString =>
      match fromHexChar c with
      | None => inr (ErrHexInvalidByte c)
      | Some _ => inr ErrHexLength
      end
  | String c (String d rest) =>
      match fromHexChar c with
      | None => inr (ErrHexInvalidByte c)
      | Some a =>
          match fromHexChar d with
          | None => inr (ErrHexInvalidByte d)
          | Some b =>
              match DecodeString rest with
              | inl bs => inl (byte_of_N (a * 16 + b) :: bs)
              | inr e => inr e
              end
          end
      end
  end.

End hex.

(** ** hashicorp/golang-lru

    The cache is the recency list, most recently used entry first, and its
    capacity. [lru.New] refuses a capacity that is not positive, so a cache
    that exists has a positive one. *)

Section LRU.
Context {V : Type}.

Record Cache := mkCache { size : positive; items : list (string * V) }.

Definition lru_New (n : Z) : Cache + Error :=
  match n with
  | Z.pos p => inl (mkCache p [])
  | _ => inr ErrLruSize
  end.

Fixpoint find (k : string) (l : list (string * V)) : option V :=
  match l with
  | [] => None
  | (k', v) :: rest => if decide (k' = k) then Some v else find k rest
  end.

Fixpoint remove (k : string) (l : list (string * V)) : list (string * V) :=
  match l with
  | [] => []
  | (k', v) :: rest => if decide (k' = k) then remove k rest else (k', v) :: remove k rest
  end.

(** [Peek]: look up without touching the recency list. *)
Definition Peek (c : Cache) (k : string) : option V := find k (items c).

Definition Contains (c : Cache) (k : string) : bool := bool_decide (is_Some (Peek c k)).

(** [Get] moves a found entry to the front. *)
Definition lru_Get (c : Cache) (k : string) : Cache * option V :=
  match find k (items c) with
  | Some v => (mkCache (size c) ((k, v) :: remove k (items c)), Some v)
  | None => (c, None)
  end.

(** [Add] updates and promotes an entry that exists; a new entry goes to the
    front and the oldest one is evicted when the list is over capacity. *)
Definition Add (c : Cache) (k : string) (v : V) : Cache :=
  match find k (items c) with
  | Some _ => mkCache (size c) ((k, v) :: remove k (items c))
  | None =>
      let l := (k, v) :: items c in
      if (Z.pos (size c) <? Z.of_nat (length l))
      then mkCache (size c) (removelast l)
      else mkCache (size c) l
  end.

Definition Remove (c : Cache) (k : string) : Cache := mkCache (size c) (remove k (items c)).

Definition Purge (c : Cache) : Cache := mkCache (size c) [].

Definition Len (c : Cache) : Z := Z.of_nat (length (items c)).

(** [Keys]: oldest first. *)
Definition Keys (c : Cache) : list string := rev (map fst (items c)).
End LRU.

Arguments Cache : clear implicits.

(** ** Values held by the caches

    The caches hold [interface{}] values. What the code distinguishes is the
    nil interface (the tombstone of a staged delete), a pointer, whose dynamic
    type the type switch of [InitDryRunMode] inspects, and any other value.
    A pointer is an address into a heap of structs, so that two cache entries
    holding the same pointer share the struct behind it. *)

Inductive PtrType :=
| TItem | TOrderItem | TOrderListItem | TOrderTreeItem | TOrderBookItem
| TOtherPtr.   (* a pointer to any other type *)

#[global] Instance PtrType_eq_decision : EqDecision PtrType.
Proof. solve_decision. Defined.

(** The record codec of package [tomox] ([EncodeBytesItem], [DecodeBytesItem])
    and the hash of the miner's overlay are declared in files of the package
    that are not part of this development; they are parameters here. *)
Class Tomox := {
  record : Type;                 (* the contents of a struct behind a pointer *)
  plain : Type;                  (* a value that is not a pointer *)
  zeroRecord : PtrType -> record;                               (* [&T{}] *)
  encodeRecord : PtrType -> option record -> list byte * option Error;
  encodePlain : plain -> list byte * option Error;
  encodeNil : list byte * option Error;
  decodeRecord : list byte -> PtrType -> record + Error;
  M1DryrunCacheHash : Hash;
}.

(** The heap of structs. A pointer of the program is the address of a struct
    of the heap; allocation appends a struct, so an address, once it is in the
    heap, stays. The nil pointer of a type is a value of its own ([VNilPtr]
    below), not an address; an address outside the heap is no pointer of the
    program (see [valid_in]). *)
Abbreviation heap := (list record).

(** A batch of the store is the list of its puts, in the order they were
    made; [Write] applies all of them or none. *)
Abbreviation Batch := (list (list byte * list byte)).

Section BatchDatabase.
Context `{Tomox}.

Inductive value :=
| VNil                              (* the nil interface *)
| VPtr (t : PtrType) (a : nat)      (* a pointer of dynamic type [*t] *)
| VPlain (d : plain)                (* any other value *)
| VNilPtr (t : PtrType).            (* the nil pointer of dynamic type [*t] *)

(** [reflect.ValueOf(val).Kind() == reflect.Ptr], with the type pointed to. *)
Definition ptr_type (val : value) : option PtrType :=
  match val with
  | VPtr t _ => Some t
  | VNilPtr t => Some t
  | _ => None
  end.

(** Modelled from the spec: [EncodeBytesItem] of package [tomox], the codec's
    [encode(V) -> bytes] (section 4.3). It reads the struct behind a pointer;
    for a nil pointer the codec is given no struct. *)
Definition EncodeBytesItem (val : value) (h : heap) : list byte * option Error :=
  match val with
  | VNil => encodeNil
  | VPtr t a => encodeRecord t (h !! a)
  | VPlain d => encodePlain d
  | VNilPtr t => encodeRecord t None
  end.

(** Modelled from the spec: [DecodeBytesItem] of package [tomox], the codec's
    variant-directed [decode(bytes, expected_variant) -> V] (section 4.3). The
    caller names the variant by passing a pointer to a struct of that type,
    and the decoded record is written behind that pointer. *)
Definition DecodeBytesItem (b : list byte) (val : value) (h : heap) : heap * option Error :=
  match val with
  | VPtr t a =>
      match h !! a with
      | Some _ =>
          match decodeRecord b t with
          | inl r => (<[a:=r]> h, None)
          | inr e => (h, Some e)
          end
      | None => (h, Some (ErrRlp "rlp: decode into nil pointer"))
      end
  | VNilPtr _ => (h, Some (ErrRlp "rlp: decode into nil pointer"))
  | _ => (h, Some (ErrRlp "rlp: decode into non-pointer"))
  end.

(** ** ethdb.LDBDatabase *)

(** Modelled from the spec: the persistent store (section 4.1), a byte-keyed
    map with [has], [get], [put], [delete] and an atomic batch write, failing
    with NotFound or an I/O error. Two I/O failures are modelled: the one
    LevelDB reports on every operation once the database is closed, and the
    failure of a batch write on an open store (sections 5 and 9), whose error
    the store carries in [ldb_batch_err]; single puts and deletes on an open
    store succeed. *)
Record LDBDatabase := mkStore {
  ldb_data : gmap (list byte) (list byte);
  ldb_closed : bool;
  ldb_batch_err : option Error;
}.

(** A store whose batch writes do not fail while it is open. *)
Definition mkLDB (data : gmap (list byte) (list byte)) (closed : bool) : LDBDatabase :=
  mkStore data closed None.

Definition ldb_Has (d : LDBDatabase) (key : list byte) : bool * option Error :=
  if ldb_closed d then (false, Some ErrClosed)
  else (bool_decide (is_Some (ldb_data d !! key)), None).

Definition ldb_Get (d : LDBDatabase) (key : list byte) : list byte + Error :=
  if ldb_closed d then inr ErrClosed
  else match ldb_data d !! key with
       | Some b => inl b
       | None => inr ErrNotFound
       end.

Definition ldb_Put (d : LDBDatabase) (key value : list byte) : LDBDatabase * option Error :=
  if ldb_closed d then (d, Some ErrClosed)
  else (mkStore (<[key:=value]> (ldb_data d)) false (ldb_batch_err d), None).

Definition ldb_Delete (d : LDBDatabase) (key : list byte) : LDBDatabase * option Error :=
  if ldb_closed d then (d, Some ErrClosed)
  else (mkStore (delete key (ldb_data d)) false (ldb_batch_err d), None).

Definition batch_Put (b : Batch) (key value : list byte) : Batch * option Error :=
  (b ++ [(key, value)], None).

Definition apply_batch (b : Batch) (m : gmap (list byte) (list byte)) :=
  foldl (fun m kv => <[kv.1:=kv.2]> m) m b.

Definition batch_Write (d : LDBDatabase) (b : Batch) : LDBDatabase * option Error :=
  if ldb_closed d then (d, Some ErrClosed)
  else match ldb_batch_err d with
       | Some err => (d, Some err)
       | None => (mkStore (apply_batch b (ldb_data d)) false None, None)
       end.

(** ** BatchDatabase *)

Definition defaultCacheLimit : Z := 1024000.
Definition dryrunCacheLimit : Z := 200.

Record BatchDatabase := mkBatchDatabase {
  db : LDBDatabase;
  emptyKey : list byte;
  cacheItems : Cache value;
  dryRunCaches : gmap Hash (Cache value);
  recentCaches : list Hash;
  cacheLimit : Z;
}.

Definition set_db (d : BatchDatabase) (l : LDBDatabase) : BatchDatabase :=
  mkBatchDatabase l (emptyKey d) (cacheItems d) (dryRunCaches d) (recentCaches d) (cacheLimit d).
Definition set_cacheItems (d : BatchDatabase) (c : Cache value) : BatchDatabase :=
  mkBatchDatabase (db d) (emptyKey d) c (dryRunCaches d) (recentCaches d) (cacheLimit d).
Definition set_dryRunCaches (d : BatchDatabase) (m : gmap Hash (Cache value)) : BatchDatabase :=
  mkBatchDatabase (db d) (emptyKey d) (cacheItems d) m (recentCaches d) (cacheLimit d).
Definition set_recentCaches (d : BatchDatabase) (r : list Hash) : BatchDatabase :=
  mkBatchDatabase (db d) (emptyKey d) (cacheItems d) (dryRunCaches d) r (cacheLimit d).

Definition IsEmptyKey (d : BatchDatabase) (key : slice) : bool :=
  bool_decide (key = None) || (Z.of_nat (length (slice_bytes key)) =? 0)
  || bool_decide (slice_bytes key = emptyKey d).

Definition getCacheKey (key : slice) : string := hex.EncodeToString (slice_bytes key).

Definition Has (d : BatchDatabase) (key : slice) (dryrun : bool) (blockHash : Hash)
  : BatchDatabase * (bool * option Error) :=
  if IsEmptyKey d key then (d, (false, None))
  else
    let cacheKey := getCacheKey key in
    let fallthrough d' := (d', ldb_Has (db d') (slice_bytes key)) in
    if dryrun then
      match dryRunCaches d !! blockHash with
      | Some dryrunCache =>
          if 0 <? Len dryrunCache then
            match lru_Get dryrunCache cacheKey with
            | (dryrunCache', Some val) =>
                let d' := set_dryRunCaches d (<[blockHash:=dryrunCache']> (dryRunCaches d)) in
                match val with
                | VNil => (d', (false, None))
                | _ => (d', (true, None))
                end
            | (_, None) => fallthrough d
            end
          else fallthrough d
      | None => fallthrough d
      end
    else if Contains (cacheItems d) cacheKey then (d, (true, None))
    else fallthrough d.

(** The part of [Get] below the look-up in the overlay. The hot cache is
    looked up before [dryrun] is tested. *)
Definition read_through (d : BatchDatabase) (h : heap) (key : slice) (val : value)
    (dryrun : bool) : (BatchDatabase * heap) * (value * option Error) :=
  let cacheKey := getCacheKey key in
  let '(cacheItems', cached) := lru_Get (cacheItems d) cacheKey in
  let d := set_cacheItems d cacheItems' in
  match cached, dryrun with
  | Some cached, false => ((d, h), (cached, None))
  | _, _ =>
      match ldb_Get (db d) (slice_bytes key) with
      | inr err => ((d, h), (VNil, Some err))
      | inl b =>
          match DecodeBytesItem b val h with
          | (h', Some err) => ((d, h'), (VNil, Some err))
          | (h', None) =>
              let d := if dryrun then d else set_cacheItems d (Add (cacheItems d) cacheKey val) in
              ((d, h'), (val, None))
          end
      end
  end.

Definition Get (d : BatchDatabase) (h : heap) (key : slice) (val : value) (dryrun : bool)
    (blockHash : Hash) : (BatchDatabase * heap) * (value * option Error) :=
  if IsEmptyKey d key then ((d, h), (VNil, None))
  else
    let cacheKey := getCacheKey key in
    if dryrun then
      match dryRunCaches d !! blockHash with
      | Some dryrunCache =>
          if 0 <? Len dryrunCache then
            match lru_Get dryrunCache cacheKey with
            | (dryrunCache', Some value) =>
                ((set_dryRunCaches d (<[blockHash:=dryrunCache']> (dryRunCaches d)), h),
                 (value, None))
            | (_, None) => read_through d h key val dryrun
            end
          else read_through d h key val dryrun
      | None => read_through d h key val dryrun
      end
    else read_through d h key val dryrun.

(** What [Get] reads from the store when neither an overlay nor the hot cache
    answers: the bytes at the key, decoded into the caller's container. *)
Definition read_store (d : BatchDatabase) (h : heap) (key : slice) (val : value)
  : heap * (value * option Error) :=
  match ldb_Get (db d) (slice_bytes key) with
  | inr err => (h, (VNil, Some err))
  | inl b =>
      match DecodeBytesItem b val h with
      | (h', Some err) => (h', (VNil, Some err))
      | (h', None) => (h', (val, None))
      end
  end.

Definition Put (d : BatchDatabase) (h : heap) (key : slice) (val : value) (dryrun : bool)
    (blockHash : Hash) : BatchDatabase * option Error :=
  let cacheKey := getCacheKey key in
  if dryrun then
    match dryRunCaches d !! blockHash with
    | None => (d, Some (ErrDryrunCacheNotFound blockHash))
    | Some dryrunCache =>
        (set_dryRunCaches d (<[blockHash:=Add dryrunCache cacheKey val]> (dryRunCaches d)), None)
    end
  else
    let d := set_cacheItems d (Add (cacheItems d) cacheKey val) in
    match EncodeBytesItem val h with
    | (_, Some err) => (d, Some err)
    | (value, None) =>
        let '(l, err) := ldb_Put (db d) (slice_bytes key) value in
        (set_db d l, err)
    end.

Definition Delete (d : BatchDatabase) (key : slice) (dryrun : bool) (blockHash : Hash)
  : BatchDatabase * option Error :=
  let cacheKey := getCacheKey key in
  if dryrun then
    match dryRunCaches d !! blockHash with
    | None => (d, Some (ErrDryrunCacheNotFound blockHash))
    | Some dryrunCache =>
        (set_dryRunCaches d (<[blockHash:=Add dryrunCache cacheKey VNil]> (dryRunCaches d)), None)
    end
  else
    let d := set_cacheItems d (Remove (cacheItems d) cacheKey) in
    let '(l, err) := ldb_Delete (db d) (slice_bytes key) in
    (set_db d l, err).

(** The cache is purged and then unreachable: the map entry is deleted. *)
Definition DropDryrunCache (d : BatchDatabase) (blockhash : Hash) : BatchDatabase :=
  set_dryRunCaches d (delete blockhash (dryRunCaches d)).

Definition HasDryrunCache (d : BatchDatabase) (blockhash : Hash) : bool :=
  match dryRunCaches d !! blockhash with
  | Some cache => 0 <? Len cache
  | None => false
  end.

(** The loop of [InitDryRunMode] over [parentCache.Keys()]: every value of
    the parent is read with [Get] and added to the new cache, a pointer to one
    of the five record types (nil or not) as a pointer to a fresh struct
    decoded from the encoding of the old one (the error of the encoding is
    dropped), any other pointer not at all, and any other value as it is. *)
Fixpoint inherit (blockHashNoValidator parentCacheHash : Hash) (keys : list string)
    (parentCache dryrunCache : Cache value) (h : heap)
  : (Cache value * Cache value * heap) * option Error :=
  match keys with
  | [] => ((parentCache, dryrunCache, h), None)
  | cacheKey :: keys =>
      let next := inherit blockHashNoValidator parentCacheHash keys in
      match lru_Get parentCache cacheKey with
      | (parentCache, Some val) =>
          match ptr_type val with
          | Some t =>
              let encoded := (EncodeBytesItem val h).1 in
              let clone :=
                let value := VPtr t (length h) in
                let h := h ++ [zeroRecord t] in
                match DecodeBytesItem encoded value h with
                | (h, Some err) =>
                    ((parentCache, dryrunCache, h),
                     Some (ErrCantInherit blockHashNoValidator parentCacheHash err))
                | (h, None) => next parentCache (Add dryrunCache cacheKey value) h
                end in
              match t with
              | TItem => clone
              | TOrderItem => clone
              | TOrderListItem => clone
              | TOrderTreeItem => clone
              | TOrderBookItem => clone
              | TOtherPtr => next parentCache dryrunCache h
              end
          | None => next parentCache (Add dryrunCache cacheKey val) h
          end
      | (parentCache, None) => next parentCache dryrunCache h
      end
  end.

(** The first step of [InitDryRunMode]: with [dryrunCacheLimit] hashes or more
    in [recentCaches], the overlay of the first is dropped and the list
    advances. *)
Definition evict_oldest (d : BatchDatabase) : BatchDatabase :=
  if dryrunCacheLimit <=? Z.of_nat (length (recentCaches d)) then
    match recentCaches d with
    | oldest :: later => set_recentCaches (DropDryrunCache d oldest) later
    | [] => d
    end
  else d.

(** The last step of [InitDryRunMode]: the new cache is assigned to
    [dryRunCaches] and its hash appended to [recentCaches], unless it is the
    miner's. *)
Definition register_cache (d : BatchDatabase) (blockHashNoValidator : Hash)
    (dryrunCache : Cache value) : BatchDatabase :=
  let d := set_dryRunCaches d (<[blockHashNoValidator:=dryrunCache]> (dryRunCaches d)) in
  if decide (blockHashNoValidator ≠ M1DryrunCacheHash)
  then set_recentCaches d (recentCaches d ++ [blockHashNoValidator])
  else d.

Definition InitDryRunMode (d : BatchDatabase) (h : heap)
    (blockHashNoValidator parentCacheHash : Hash) : (BatchDatabase * heap) * option Error :=
  let d := evict_oldest d in
  let d := DropDryrunCache d blockHashNoValidator in
  match lru_New (cacheLimit d) with
  | inr err => ((d, h), Some (ErrCantInitDryrunCache blockHashNoValidator err))
  | inl dryrunCache =>
      if decide (parentCacheHash ≠ zeroHash) then
        match dryRunCaches d !! parentCacheHash with
        | Some parentCache =>
            if 0 <? Len parentCache then
              match inherit blockHashNoValidator parentCacheHash (Keys parentCache)
                      parentCache dryrunCache h with
              | ((parentCache, _, h), Some err) =>
                  ((set_dryRunCaches d (<[parentCacheHash:=parentCache]> (dryRunCaches d)), h),
                   Some err)
              | ((parentCache, dryrunCache, h), None) =>
                  let d := set_dryRunCaches d (<[parentCacheHash:=parentCache]> (dryRunCaches d)) in
                  ((register_cache d blockHashNoValidator dryrunCache, h), None)
              end
            else ((d, h), Some (ErrParentCacheNotFound blockHashNoValidator parentCacheHash))
        | None => ((d, h), Some (ErrParentCacheNotFound blockHashNoValidator parentCacheHash))
        end
      else ((register_cache d blockHashNoValidator dryrunCache, h), None)
  end.

(** The loop of [SaveDryRunResult] over [dryrunCache.Keys()]: a tombstone is
    deleted from the store at once, any other value is encoded and put into
    the batch. The first error ends the loop and the call. *)
Fixpoint save_entries (keys : list string) (dryrunCache : Cache value) (l : LDBDatabase)
    (batch : Batch) (h : heap) : (Cache value * LDBDatabase * Batch) * option Error :=
  match keys with
  | [] => ((dryrunCache, l, batch), None)
  | cacheKey :: keys =>
      match hex.DecodeString cacheKey with
      | inr err => ((dryrunCache, l, batch), Some err)
      | inl key =>
          match lru_Get dryrunCache cacheKey with
          | (dryrunCache, None) => ((dryrunCache, l, batch), Some ErrCantGetItem)
          | (dryrunCache, Some VNil) =>
              match ldb_Delete l key with
              | (l, Some err) => ((dryrunCache, l, batch), Some err)
              | (l, None) => save_entries keys dryrunCache l batch h
              end
          | (dryrunCache, Some val) =>
              match EncodeBytesItem val h with
              | (_, Some err) => ((dryrunCache, l, batch), Some err)
              | (value, None) =>
                  match batch_Put batch key value with
                  | (batch, Some err) => ((dryrunCache, l, batch), Some err)
                  | (batch, None) => save_entries keys dryrunCache l batch h
                  end
              end
          end
      end
  end.

Definition SaveDryRunResult (d : BatchDatabase) (h : heap) (blockHash : Hash)
  : BatchDatabase * option Error :=
  match dryRunCaches d !! blockHash with
  | None => (d, None)
  | Some dryrunCache =>
      if Len dryrunCache =? 0 then (d, None)
      else
        let batch : Batch := [] in
        match save_entries (Keys dryrunCache) dryrunCache (db d) batch h with
        | ((dryrunCache, l, _), Some err) =>
            (set_db (set_dryRunCaches d (<[blockHash:=dryrunCache]> (dryRunCaches d))) l,
             Some err)
        | ((dryrunCache, l, batch), None) =>
            let d := set_db (set_dryRunCaches d (<[blockHash:=dryrunCache]> (dryRunCaches d))) l in
            (* purge reading cache, then write the batch *)
            let d := set_cacheItems d (Purge (cacheItems d)) in
            let '(l, err) := batch_Write (db d) batch in
            (set_db d l, err)
        end
  end.

Definition DeleteTxMatchByTxHash (d : BatchDatabase) (txhash : Hash) : option Error := None.

(** [NewBatchDatabaseWithEncode], given the store it opened and the key that
    [EmptyKey()] returned. The source drops the error of [lru.New]; the limit
    it passes is positive, so there is none. *)
Definition NewBatchDatabaseWithEncode (store : LDBDatabase) (empty : list byte)
    (cacheLimit : Z) : option BatchDatabase :=
  let itemCacheLimit := if 0 <? cacheLimit then cacheLimit else defaultCacheLimit in
  match lru_New itemCacheLimit with
  | inl cacheItems => Some (mkBatchDatabase store empty cacheItems ∅ [] itemCacheLimit)
  | inr _ => None
  end.

(** ** Predicates used to state the properties of the registry *)

(** A value of the program on heap [h]: its pointer, if it is one, is the
    address of a struct of [h]. *)
Definition valid_in (h : heap) (v : value) : Prop :=
  match v with
  | VPtr _ a => (a < length h)%nat
  | _ => True
  end.

(** What the new overlay holds for a key, in terms of the parent [pc] and of
    the heaps before ([h]) and after ([h']) the call: a pointer is to a struct
    allocated by the call, of one of the five record types, the parent holds
    a pointer of that type for the key, and the struct is the decoding of the
    encoding of the parent's value; a nil pointer it never holds; any other
    value is the parent's. *)
Definition inherited (pc : Cache value) (h h' : heap) (ck : string) (v : value) : Prop :=
  match v with
  | VPtr t a =>
      t ≠ TOtherPtr ∧ (length h ≤ a < length h')%nat
      ∧ ∃ v0, Peek pc ck = Some v0 ∧ ptr_type v0 = Some t
          ∧ (valid_in h v0 →
             ∃ rec, decodeRecord (EncodeBytesItem v0 h).1 t = inl rec ∧ h' !! a = Some rec)
  | VNilPtr _ => False
  | _ => Peek pc ck = Some v
  end.

(** The overlay of [x1] is gone, or [x1] is in the recent hashes and at most
    [n] more registrations push it out. *)
Definition due_within (x1 : Hash) (n : nat) (d : BatchDatabase) : Prop :=
  dryRunCaches d !! x1 = None
  ∨ ∃ pre post, recentCaches d = pre ++ x1 :: post
      ∧ (length (recentCaches d) ≤ 200)%nat
      ∧ (length pre + 1 + (200 - length (recentCaches d)) ≤ n)%nat.

End BatchDatabase.

(** ** core.BlockValidator *)

(** The errors of [block_validator.go]. An error of a collaborator is known
    by its message; the errors the file builds with [fmt.Errorf] keep what
    they are built from. *)
Inductive VError :=
| Collab (msg : string)                     (* an error returned by a collaborator *)
| ErrKnownBlock
| ErrUnknownAncestor
| ErrPrunedAncestor
| ErrUncleRootMismatch (have want : Hash)   (* "uncle root hash mismatch: have %x, want %x" *)
| ErrTxRootMismatch (have want : Hash)      (* "transaction root hash mismatch: ..." *)
| ErrTomoXServiceNotFound
| ErrFailedUnmarshal (e : VError)           (* "transaction match is corrupted. Failed unmarshal. Error: %s" *)
| ErrFailedDecodeOrder (e : VError)         (* "transaction match is corrupted. Failed decode order. Error: %s " *)
| ErrFailedStoreTrade (e : VError)          (* "failed to store tradeSDK %s" *)
| ErrFailedRollback (e : VError).           (* "validateMatchedOrder failed. Failed to rollback. %s" *)

(** [order.Side] is only compared with [tomox.Bid]; [Ask] is any other side. *)
Inductive Side := Bid | Ask.

(** The collaborators of the validator: the chain, the consensus engine, the
    transactions, the match payload and the matching service of package
    [tomox]. The state of the service (its order books, the processed hashes,
    the trade sink) is one value of type [TomoX] that the calls pass along;
    an order book is named by a handle into it. *)
Class Collaborators := {
  BlockChain : Type;
  StateDB : Type;
  Header : Type;
  Transaction : Type;
  TomoX : Type;
  TxDataMatch : Type;
  OrderItem : Type;
  OrderList : Type;
  OrderBook : Type;
  Trade : Type;                                  (* map[string]string *)
  TradeSDK : Type;                               (* sdktypes.Trade *)
  (* chain and engine *)
  HasBlockAndState : BlockChain -> Hash -> Z -> bool;
  HasBlock : BlockChain -> Hash -> Z -> bool;
  State : BlockChain -> StateDB + VError;
  CalcUncleHash : list Header -> Hash;
  DeriveSha : list Transaction -> Hash;
  (* transactions and payload *)
  IsMatchingTransaction : Transaction -> bool;
  tx_Data : Transaction -> list byte;
  tx_Hash : Transaction -> Hash;
  json_Unmarshal : list byte -> TxDataMatch + VError;
  DecodeOrder : TxDataMatch -> OrderItem + VError;
  GetTrades : TxDataMatch -> list Trade;
  VerifyOldTomoXState : TxDataMatch -> TomoX -> OrderBook -> option VError;
  VerifyNewTomoXState : TxDataMatch -> TomoX -> OrderBook -> option VError;
  (* orders *)
  VerifyMatchedOrder : OrderItem -> StateDB -> option VError;
  order_PairName : OrderItem -> string;
  order_Side : OrderItem -> Side;
  order_Hash : OrderItem -> Hash;
  EncodeOrderItem : OrderItem -> list byte * option VError;   (* tomox.EncodeBytesItem *)
  EncodeOrderList : OrderList -> list byte * option VError;
  (* matching service *)
  GetOrderBook : TomoX -> string -> OrderBook + VError;
  MinPriceList : TomoX -> OrderBook -> option OrderList;      (* ob.Asks.MinPriceList() *)
  MaxPriceList : TomoX -> OrderBook -> option OrderList;      (* ob.Bids.MaxPriceList() *)
  ProcessOrder : TomoX -> OrderBook -> OrderItem -> bool -> TomoX * option VError;
  MarkOrderAsProcessed : TomoX -> Hash -> TomoX * option VError;
  Rollback : TomoX -> list (list byte * slice) -> TomoX * option VError;
  IsSDKNode : TomoX -> bool;
  makeTrade : Hash -> OrderItem -> Trade -> TradeSDK;         (* the fields set in logTrades *)
  sink_Put : TomoX -> TradeSDK -> TomoX * option VError;      (* GetDB().Put(EmptyKey(), trade) *)
}.

Definition two64 : Z := 2 ^ 64.

(** Arithmetic on [uint64] wraps around. *)
Definition u64 (z : Z) : Z := z mod two64.

Section BlockValidator.
Context `{Collaborators}.

Record Block := mkBlock {
  block_Hash : Hash;
  block_ParentHash : Hash;
  NumberU64 : Z;
  header_UncleHash : Hash;
  header_TxHash : Hash;
  Uncles : list Header;
  Transactions : list Transaction;
  GasLimit : Z;
  GasUsed : Z;
}.

(** [engine] is read only through [VerifyUncles] and [GetTomoXService], the
    latter returning the service or nil. *)
Record BlockValidator := mkBlockValidator {
  bc : BlockChain;
  engine_VerifyUncles : BlockChain -> Block -> option VError;
  engine_GetTomoXService : option TomoX;
}.

Fixpoint logTrades (tomoXService : TomoX) (txHash : Hash) (order : OrderItem)
    (trades : list Trade) : TomoX * option VError :=
  match trades with
  | [] => (tomoXService, None)
  | trade :: trades =>
      let tradeSDK := makeTrade txHash order trade in
      if IsSDKNode tomoXService then
        match sink_Put tomoXService tradeSDK with
        | (tomoXService, Some err) => (tomoXService, Some (ErrFailedStoreTrade err))
        | (tomoXService, None) => logTrades tomoXService txHash order trades
        end
      else logTrades tomoXService txHash order trades
  end.

(** The order is returned with the error once the matching engine has
    processed it. *)
Definition validateMatchedOrder (tomoXService : TomoX) (currentState : StateDB)
    (tx : Transaction) : TomoX * (option OrderItem * option OrderList * option VError) :=
  match json_Unmarshal (tx_Data tx) with
  | inr err => (tomoXService, (None, None, Some (ErrFailedUnmarshal err)))
  | inl txMatch =>
  match DecodeOrder txMatch with
  | inr err => (tomoXService, (None, None, Some (ErrFailedDecodeOrder err)))
  | inl order =>
  match VerifyMatchedOrder order currentState with
  | Some err => (tomoXService, (None, None, Some err))
  | None =>
  match GetOrderBook tomoXService (order_PairName order) with
  | inr err => (tomoXService, (None, None, Some err))
  | inl ob =>
  match VerifyOldTomoXState txMatch tomoXService ob with
  | Some err => (tomoXService, (None, None, Some err))
  | None =>
  let ol :=
    if 0 <? Z.of_nat (length (GetTrades txMatch)) then
      match order_Side order with
      | Bid => MinPriceList tomoXService ob
      | Ask => MaxPriceList tomoXService ob
      end
    else None in
  match ProcessOrder tomoXService ob order true with
  | (tomoXService, Some err) => (tomoXService, (None, None, Some err))
  | (tomoXService, None) =>
  match MarkOrderAsProcessed tomoXService (order_Hash order) with
  | (tomoXService, Some err) => (tomoXService, (Some order, ol, Some err))
  | (tomoXService, None) =>
  match VerifyNewTomoXState txMatch tomoXService ob with
  | Some err => (tomoXService, (Some order, ol, Some err))
  | None =>
  match logTrades tomoXService (tx_Hash tx) order (GetTrades txMatch) with
  | (tomoXService, Some err) => (tomoXService, (Some order, ol, Some err))
  | (tomoXService, None) => (tomoXService, (Some order, ol, None))
  end end end end end end end end end.

(** The loop of [ValidateBody] over the transactions. The variable [err] that
    receives the error of [validateMatchedOrder] is assigned again by the
    encoding of the returned order; the loop ends ([break]) when [err] is
    not nil where the source tests it. *)
Fixpoint validate_txs (tomoXService : TomoX) (currentState : StateDB)
    (txs : list Transaction) (processedData : list (list byte * slice))
  : TomoX * list (list byte * slice) * option VError :=
  match txs with
  | [] => (tomoXService, processedData, None)
  | tx :: txs =>
      if IsMatchingTransaction tx then
        let '(tomoXService, (order, ol, err)) :=
          validateMatchedOrder tomoXService currentState tx in
        match order with
        | Some order =>
            let '(encodedOrderItem, err) := EncodeOrderItem order in
            match err with
            | Some _ => (tomoXService, processedData, err)
            | None =>
                let '(encodedOrderList, err) :=
                  match ol with
                  | Some ol => let '(b, err) := EncodeOrderList ol in (Some b, err)
                  | None => (None, err)
                  end in
                match err with
                | Some _ => (tomoXService, processedData, err)
                | None =>
                    let processedData := processedData ++ [(encodedOrderItem, encodedOrderList)] in
                    match err with
                    | Some _ => (tomoXService, processedData, err)
                    | None => validate_txs tomoXService currentState txs processedData
                    end
                end
            end
        | None =>
            match err with
            | Some _ => (tomoXService, processedData, err)
            | None => validate_txs tomoXService currentState txs processedData
            end
        end
      else validate_txs tomoXService currentState txs processedData
  end.

(** [ValidateBody]: the result is the error, with the state of the matching
    service when there is one. *)
Definition ValidateBody (v : BlockValidator) (block : Block) : option TomoX * option VError :=
  let service := engine_GetTomoXService v in
  if HasBlockAndState (bc v) (block_Hash block) (NumberU64 block) then (service, Some ErrKnownBlock)
  else if negb (HasBlockAndState (bc v) (block_ParentHash block) (u64 (NumberU64 block - 1))) then
    if negb (HasBlock (bc v) (block_ParentHash block) (u64 (NumberU64 block - 1)))
    then (service, Some ErrUnknownAncestor)
    else (service, Some ErrPrunedAncestor)
  else
  match engine_VerifyUncles v (bc v) block with
  | Some err => (service, Some err)
  | None =>
  if decide (CalcUncleHash (Uncles block) ≠ header_UncleHash block)
  then (service, Some (ErrUncleRootMismatch (CalcUncleHash (Uncles block)) (header_UncleHash block)))
  else if decide (DeriveSha (Transactions block) ≠ header_TxHash block)
  then (service, Some (ErrTxRootMismatch (DeriveSha (Transactions block)) (header_TxHash block)))
  else
  match service with
  | None => (None, Some ErrTomoXServiceNotFound)
  | Some tomoXService =>
  match State (bc v) with
  | inr err => (service, Some err)
  | inl currentState =>
      let '(tomoXService, processedData, err) :=
        validate_txs tomoXService currentState (Transactions block) [] in
      match err with
      | Some err =>
          match Rollback tomoXService processedData with
          | (tomoXService, Some err) => (Some tomoXService, Some (ErrFailedRollback err))
          | (tomoXService, None) => (Some tomoXService, Some err)
          end
      | None => (Some tomoXService, None)
      end
  end end end.

(** Modelled from the spec: [params.GasLimitBoundDivisor], a constant of a
    package that is not part of this development; its value is given among
    the tunables (section 6) and in the comments of [CalcGasLimit]. *)
Definition GasLimitBoundDivisor : Z := 1024.

(** [params.MinGasLimit] and [params.TargetGasLimit], the latter a variable
    the miner sets. *)
Record Params := mkParams { MinGasLimit : Z; TargetGasLimit : Z }.

Definition CalcGasLimit (params : Params) (parent : Block) : Z :=
  let contrib := u64 (GasUsed parent + GasUsed parent / 2) / GasLimitBoundDivisor in
  let decay := u64 (GasLimit parent / GasLimitBoundDivisor - 1) in
  let limit := u64 (u64 (GasLimit parent - decay) + contrib) in
  let limit := if limit <? MinGasLimit params then MinGasLimit params else limit in
  if limit <? TargetGasLimit params then
    let limit := u64 (GasLimit parent + decay) in
    if TargetGasLimit params <? limit then TargetGasLimit params else limit
  else limit.

End BlockValidator.

(** ** core.BlockValidator.ValidateState *)

(** The collaborators of [ValidateState]: the receipts with their bloom
    filter and trie root, the fork rule of the chain configuration and the
    state root. [IntermediateRoot] finalises the state it is called on, so it
    returns the state with the root. *)
Class StateCollaborators `{Collaborators} := {
  Receipts : Type;
  CreateBloom : Receipts -> list byte;                 (* types.CreateBloom *)
  DeriveShaReceipts : Receipts -> Hash;                (* types.DeriveSha(receipts) *)
  IsEIP158 : Z -> bool;                                (* v.config.IsEIP158 *)
  IntermediateRoot : StateDB -> bool -> StateDB * Hash;
}.

(** The errors of [ValidateState], each built from the value of the block
    (remote) and the value computed here (local). *)
Inductive StateError :=
| ErrInvalidGasUsed (remote local : Z)          (* "invalid gas used (remote: %d local: %d)" *)
| ErrInvalidBloom (remote local : list byte)    (* "invalid bloom (remote: %x  local: %x)" *)
| ErrInvalidReceiptRoot (remote local : Hash)   (* "invalid receipt root hash (remote: %x local: %x)" *)
| ErrInvalidMerkleRoot (remote local : Hash).   (* "invalid merkle root (remote: %x local: %x)" *)

Section ValidateState.
Context `{StateCollaborators}.

(** A block with the fields of its header that [ValidateState] reads. *)
Record StateBlock := mkStateBlock {
  sb_block : Block;
  header_Bloom : list byte;
  header_ReceiptHash : Hash;
  header_Root : Hash;
}.

(** [ValidateState]: the result is the error, with the state database, which
    the computation of the root changes. The parent block is not read. *)
Definition ValidateState (block parent : StateBlock) (statedb : StateDB)
    (receipts : Receipts) (usedGas : Z) : StateDB * option StateError :=
  if decide (GasUsed (sb_block block) ≠ usedGas)
  then (statedb, Some (ErrInvalidGasUsed (GasUsed (sb_block block)) usedGas))
  else
  let rbloom := CreateBloom receipts in
  if decide (rbloom ≠ header_Bloom block)
  then (statedb, Some (ErrInvalidBloom (header_Bloom block) rbloom))
  else
  let receiptSha := DeriveShaReceipts receipts in
  if decide (receiptSha ≠ header_ReceiptHash block)
  then (statedb, Some (ErrInvalidReceiptRoot (header_ReceiptHash block) receiptSha))
  else
  let '(statedb, root) := IntermediateRoot statedb (IsEIP158 (NumberU64 (sb_block block))) in
  if decide (header_Root block ≠ root)
  then (statedb, Some (ErrInvalidMerkleRoot (header_Root block) root))
  else (statedb, None).

End ValidateState.

(** ** A concrete codec and concrete collaborators

    Used to run the code on explicit inputs. A record is its bytes; the
    encoding of a record puts a tag for its type in front, and the decoder
    checks the tag and refuses a record that starts with byte [ff]. A nil
    pointer is encoded as the record without bytes. *)

Definition tag_of (t : PtrType) : byte :=
  match t with
  | TItem => Byte.x01
  | TOrderItem => Byte.x02
  | TOrderListItem => Byte.x03
  | TOrderTreeItem => Byte.x04
  | TOrderBookItem => Byte.x05
  | TOtherPtr => Byte.x06
  end.

Definition tagged_encode (t : PtrType) (r : option (list byte)) : list byte * option Error :=
  match r with
  | Some r => (tag_of t :: r, None)
  | None => ([tag_of t], None)
  end.

Definition tagged_decode (b : list byte) (t : PtrType) : list byte + Error :=
  match b with
  | tag :: r =>
      if decide (tag = tag_of t) then
        match r with
        | first :: _ =>
            if decide (first = Byte.xff) then inr (ErrRlp "non-canonical") else inl r
        | [] => inl r
        end
      else inr (ErrRlp "type mismatch")
  | [] => inr (ErrRlp "empty input")
  end.

#[global] Instance tagged_tomox : Tomox := {|
  record := list byte;
  plain := list byte;
  zeroRecord := fun _ => [];
  encodeRecord := tagged_encode;
  encodePlain := fun d => (Byte.x00 :: d, None);
  encodeNil := ([], Some (ErrRlp "nil value"));
  decodeRecord := tagged_decode;
  M1DryrunCacheHash := 1000000%N;
|}.

(** A database over an empty, open store with all-zero 32-byte empty key. *)
Definition zero32 : list byte := replicate 32 Byte.x00.

Definition fresh_db : BatchDatabase :=
  mkBatchDatabase (mkLDB ∅ false) zero32 (mkCache 1024000 []) ∅ [] 1024000.

(** Successive calls of [InitDryRunMode], one for each pair of a hash and its
    parent; [None] when one of the calls fails. *)
Fixpoint init_all `{Tomox} (calls : list (Hash * Hash)) (d : BatchDatabase) (h : heap)
  : option (BatchDatabase * heap) :=
  match calls with
  | [] => Some (d, h)
  | (x, parent) :: calls =>
      match InitDryRunMode d h x parent with
      | (s, None) => init_all calls s.1 s.2
      | (_, Some _) => None
      end
  end.

(** Concrete collaborators. The state of the matching service is the log of
    the calls that changed it. The payload of a matching transaction is its
    order; a payload that starts with byte [ff] declares a post-state digest
    the book does not have, and one that starts with [fe] cannot be decoded. *)
Inductive Event :=
| EvProcessOrder (order : list byte)
| EvMarkProcessed (h : Hash)
| EvRollback (records : list (list byte * slice)).

Definition log_Rollback (fails : bool) (s : list Event) (records : list (list byte * slice))
  : list Event * option VError :=
  (s ++ [EvRollback records], if fails then Some (Collab "rollback failed") else None).

Definition logging_collaborators (rollback_fails : bool) : Collaborators := {|
  BlockChain := list Hash;                       (* the hashes known with state *)
  StateDB := unit;
  Header := unit;
  Transaction := bool * list byte;
  TomoX := list Event;
  TxDataMatch := list byte;
  OrderItem := list byte;
  OrderList := list byte;
  OrderBook := string;
  Trade := unit;
  TradeSDK := unit;
  HasBlockAndState := fun chain h _ => bool_decide (h ∈ chain);
  HasBlock := fun chain h _ => bool_decide (h ∈ chain);
  State := fun _ => inl tt;
  CalcUncleHash := fun _ => 0%N;
  DeriveSha := fun _ => 0%N;
  IsMatchingTransaction := fst;
  tx_Data := snd;
  tx_Hash := fun _ => 0%N;
  json_Unmarshal := inl;
  DecodeOrder := fun m =>
    match m with
    | b :: _ => if decide (b = Byte.xfe) then inr (Collab "bad order") else inl m
    | [] => inl m
    end;
  GetTrades := fun _ => [];
  VerifyOldTomoXState := fun _ _ _ => None;
  VerifyNewTomoXState := fun m _ _ =>
    match m with
    | b :: _ => if decide (b = Byte.xff) then Some (Collab "new state mismatch") else None
    | [] => None
    end;
  VerifyMatchedOrder := fun _ _ => None;
  order_PairName := fun _ => "TOMO/BTC";
  order_Side := fun _ => Bid;
  order_Hash := fun _ => 7%N;
  EncodeOrderItem := fun o => (o, None);
  EncodeOrderList := fun l => (l, None);
  GetOrderBook := fun _ pair => inl pair;
  MinPriceList := fun _ _ => None;
  MaxPriceList := fun _ _ => None;
  ProcessOrder := fun s _ o _ => (s ++ [EvProcessOrder o], None);
  MarkOrderAsProcessed := fun s h => (s ++ [EvMarkProcessed h], None);
  Rollback := log_Rollback rollback_fails;
  IsSDKNode := fun _ => false;
  makeTrade := fun _ _ _ => tt;
  sink_Put := fun s _ => (s, None);
|}.

(** A validator over a chain that knows the parent (hash 1) with state. *)
Definition logging_validator (rollback_fails : bool)
  : @BlockValidator (logging_collaborators rollback_fails) :=
  @mkBlockValidator (logging_collaborators rollback_fails) [1%N] (fun _ _ => None) (Some []).

Definition block_of (rollback_fails : bool) (txs : list (bool * list byte))
  : @Block (logging_collaborators rollback_fails) :=
  @mkBlock (logging_collaborators rollback_fails) 2%N 1%N 5 0%N 0%N [] txs 8000000 6000000.

(** A parent block with the given gas limit and gas used. *)
Definition parent_block (gasLimit gasUsed : Z) : @Block (logging_collaborators false) :=
  @mkBlock (logging_collaborators false) 1%N 0%N 4 0%N 0%N [] [] gasLimit gasUsed.

(** The values of go-ethereum for the two gas parameters. *)
Definition default_params : Params := mkParams 5000 4712388.

(** [calc_gas_limit] as the design document words it, in exact integers. *)
Definition calc_gas_limit_spec (params : Params) (gas_limit gas_used : Z) : Z :=
  let D := gas_limit / 1024 - 1 in
  let C := (gas_used * 3 / 2) / 1024 in
  let L := gas_limit - D + C in
  let L := Z.max L (MinGasLimit params) in
  if L <? TargetGasLimit params then Z.min (gas_limit + D) (TargetGasLimit params) else L.

(** Databases to run the store on. [overlay_db] has an overlay for hash 5 and
    the record behind address 0 stored at key [61]; [sentinel_db] has the same
    record stored at the all-zero empty key; [promotion_db] holds a plain
    value at key [62] in the store and the hot cache, and a live entry for
    key [61] in the overlay of hash 5; [closed_promotion_db] is the latter
    once the store has been closed. *)
Definition key61 : slice := Some [Byte.x61].
Definition key62 : slice := Some [Byte.x62].
Definition one_record : list (list byte) := [[Byte.x2a]].

Definition overlay_db : BatchDatabase :=
  let d := (Put fresh_db one_record key61 (VPtr TItem 0) false 0%N).1 in
  (InitDryRunMode d one_record 5%N zeroHash).1.1.

Definition sentinel_db : BatchDatabase :=
  let d := (Put fresh_db one_record (Some zero32) (VPtr TItem 0) false 0%N).1 in
  (InitDryRunMode d one_record 5%N zeroHash).1.1.

Definition promotion_db : BatchDatabase :=
  let d := (Put fresh_db one_record key62 (VPlain [Byte.x09]) false 0%N).1 in
  let d := (InitDryRunMode d one_record 5%N zeroHash).1.1 in
  (Put d one_record key61 (VPtr TItem 0) true 5%N).1.

Definition closed_promotion_db : BatchDatabase :=
  set_db promotion_db (mkLDB (ldb_data (db promotion_db)) true).

(** The miner's overlay with one entry, as the common parent of the overlays
    initialised next; and 200 and 201 calls for the hashes 1, 2, ... *)
Definition miner_db : BatchDatabase :=
  let d := (InitDryRunMode fresh_db [] M1DryrunCacheHash zeroHash).1.1 in
  (Put d [] key61 (VPlain [Byte.x01]) true M1DryrunCacheHash).1.

Definition calls_from_miner (n : nat) : list (Hash * Hash) :=
  (fun i => (N.of_nat i, M1DryrunCacheHash)) <$> seq 1 n.

(** The registry after the first 200 of these calls: the recent hashes are
    1, ..., 200. *)
Definition full_db : BatchDatabase :=
  from_option fst miner_db (init_all (calls_from_miner 200) miner_db []).

(** The database and heap after all 201 calls. *)
Definition after_201 : BatchDatabase * list (list byte) :=
  from_option id (miner_db, []) (init_all (calls_from_miner 201) miner_db []).

(** The overlay of hash 5 holding, at key [61], a pointer to a record that
    the decoder refuses. *)
Definition bad_record : list (list byte) := [[Byte.xff]].

Definition bad_parent_db : BatchDatabase :=
  let d := (InitDryRunMode fresh_db bad_record 5%N zeroHash).1.1 in
  (Put d bad_record key61 (VPtr TItem 0) true 5%N).1.

(** The database and heap after the overlay of hash 6, and then also the
    overlay of hash 7, have been initialised from the overlay of hash 5 of
    [promotion_db]. *)
Definition first_child : BatchDatabase * list (list byte) :=
  (InitDryRunMode promotion_db one_record 6%N 5%N).1.

Definition siblings : BatchDatabase * list (list byte) :=
  (InitDryRunMode first_child.1 first_child.2 7%N 5%N).1.

(** A hot cache holding keys [61] and [62], and an empty overlay for hash 5. *)
Definition two_key_db : BatchDatabase :=
  let d := (Put fresh_db one_record key61 (VPtr TItem 0) false 0%N).1 in
  let d := (Put d one_record key62 (VPlain [Byte.x09]) false 0%N).1 in
  (InitDryRunMode d one_record 5%N zeroHash).1.1.

(** Further databases. [cold_db] is [overlay_db] with the hot cache emptied;
    [mixed_parent_db] has, in the overlay of hash 5, a pointer to a record at
    key [61], a tombstone at key [62], a plain value at key [63], a pointer
    of another type at key [64] and a nil pointer at key [65];
    [tiny_overlay_db] has a cache limit of one, a record stored at key [61]
    and the tombstone of that key in the overlay of hash 5;
    [failing_promotion_db] has, in the overlay of hash 5, the tombstone of the
    stored key [61] and then a plain value at key [62], on an open store whose
    batch write fails; [nearly_full_db] has the 199 recent hashes 5, ..., 203. *)
Definition key63 : slice := Some [Byte.x63].
Definition key64 : slice := Some [Byte.x64].
Definition key65 : slice := Some [Byte.x65].

Definition cold_db : BatchDatabase :=
  set_cacheItems overlay_db (Purge (cacheItems overlay_db)).

Definition mixed_parent_db : BatchDatabase :=
  let d := (Put overlay_db one_record key61 (VPtr TItem 0) true 5%N).1 in
  let d := (Delete d key62 true 5%N).1 in
  let d := (Put d one_record key63 (VPlain [Byte.x09]) true 5%N).1 in
  let d := (Put d one_record key64 (VPtr TOtherPtr 0) true 5%N).1 in
  (Put d one_record key65 (VNilPtr TOrderItem) true 5%N).1.

Definition mixed_parent : Cache value :=
  mkCache 1024000 [(getCacheKey key65, VNilPtr TOrderItem); (getCacheKey key64, VPtr TOtherPtr 0);
                   (getCacheKey key63, VPlain [Byte.x09]); (getCacheKey key62, VNil);
                   (getCacheKey key61, VPtr TItem 0)].

Definition tiny_db : BatchDatabase :=
  from_option id fresh_db (NewBatchDatabaseWithEncode (mkLDB ∅ false) zero32 1).

Definition tiny_overlay_db : BatchDatabase :=
  let d := (Put tiny_db one_record key61 (VPtr TItem 0) false 0%N).1 in
  let d := (InitDryRunMode d one_record 5%N zeroHash).1.1 in
  (Delete d key61 true 5%N).1.

Definition failing_promotion_db : BatchDatabase :=
  let d := (Delete overlay_db key61 true 5%N).1 in
  let d := (Put d one_record key62 (VPlain [Byte.x09]) true 5%N).1 in
  set_db d (mkStore (ldb_data (db d)) false (Some (ErrIO "disk full"))).

Definition nearly_full_db : BatchDatabase :=
  from_option fst fresh_db
    (init_all ((fun i => (N.of_nat i, zeroHash)) <$> seq 5 199) fresh_db []).

(** * Properties *)

(** Linear arithmetic with division and remainder by constants. *)
Ltac zlia := Z.div_mod_to_equations; lia.


(** ** encoding/hex: decoding undoes encoding *)

Lemma hex_byte (b : byte) :
  hex.fromHexChar (hex.digit (Byte.to_N b / 16)) = Some (Byte.to_N b / 16)%N
  ∧ hex.fromHexChar (hex.digit (Byte.to_N b mod 16)) = Some (Byte.to_N b mod 16)%N
  ∧ byte_of_N (Byte.to_N b / 16 * 16 + Byte.to_N b mod 16) = b.
Proof. destruct b; vm_compute; auto. Qed.

Lemma hex_roundtrip (bs : list byte) :
  hex.DecodeString (hex.EncodeToString bs) = inl bs.
Proof.
  induction bs as [|b bs IH]; [done|].
  destruct (hex_byte b) as (Hhi & Hlo & Hb).
  cbn [hex.EncodeToString hex.DecodeString].
  rewrite Hhi, Hlo, IH, Hb. done.
Qed.

Lemma hex_inj (b1 b2 : list byte) :
  hex.EncodeToString b1 = hex.EncodeToString b2 → b1 = b2.
Proof.
  intros Heq. assert (Hd : hex.DecodeString (hex.EncodeToString b1)
                           = hex.DecodeString (hex.EncodeToString b2)) by (by rewrite Heq).
  rewrite !hex_roundtrip in Hd. by injection Hd.
Qed.

Lemma getCacheKey_inj `{Tomox} (k1 k2 : slice) :
  getCacheKey k1 = getCacheKey k2 → slice_bytes k1 = slice_bytes k2.
Proof. apply hex_inj. Qed.

(** ** The LRU cache *)

Section LRUFacts.
Context {V : Type}.
Implicit Types (c : Cache V) (k : string) (v : V) (l : list (string * V)).

Lemma find_remove_eq k l : find k (remove k l) = None.
Proof.
  induction l as [|[k' v'] l IH]; [done|]. simpl.
  destruct (decide (k' = k)) as [->|Hne]; [done|].
  simpl. by rewrite decide_False.
Qed.

Lemma find_remove_ne k k' l : k ≠ k' → find k' (remove k l) = find k' l.
Proof.
  intros Hne. induction l as [|[k0 v0] l IH]; [done|]. simpl.
  destruct (decide (k0 = k)) as [->|Hk].
  - by rewrite decide_False.
  - simpl. by rewrite IH.
Qed.

Lemma find_promote k v l k' :
  find k l = Some v → find k' ((k, v) :: remove k l) = find k' l.
Proof.
  intros Hf. simpl. destruct (decide (k = k')) as [<-|Hne]; [done|].
  by apply find_remove_ne.
Qed.

(** A read leaves every binding as it was. *)
Lemma Peek_lru_Get c k k' : Peek (lru_Get c k).1 k' = Peek c k'.
Proof.
  unfold lru_Get, Peek. destruct (find k (items c)) as [v|] eqn:Hf; [|done].
  by apply find_promote.
Qed.

Lemma lru_Get_result c k : (lru_Get c k).2 = Peek c k.
Proof. unfold lru_Get, Peek. by destruct (find k (items c)). Qed.

Lemma lru_Get_miss c k : Peek c k = None → lru_Get c k = (c, None).
Proof. unfold lru_Get, Peek. by intros ->. Qed.

(** The entry just added is there: the capacity is positive, so the eviction
    of the oldest entry never removes it. *)
Lemma Peek_Add_eq c k v : Peek (Add c k v) k = Some v.
Proof.
  unfold Add, Peek. destruct (find k (items c)) eqn:Hf.
  - simpl. by rewrite decide_True.
  - destruct (Z.pos (size c) <? _) eqn:Hlt; simpl.
    + destruct (items c) as [|e l] eqn:Hi.
      * apply Z.ltb_lt in Hlt. simpl in Hlt. lia.
      * simpl. by rewrite decide_True.
    + by rewrite decide_True.
Qed.

Lemma Len_Add_pos c k v : 0 < Len (Add c k v).
Proof.
  unfold Add, Len. destruct (find k (items c)).
  - simpl. lia.
  - destruct (Z.pos (size c) <? _) eqn:Hlt; simpl; [|lia].
    destruct (items c) as [|e l]; simpl.
    + apply Z.ltb_lt in Hlt. simpl in Hlt. lia.
    + lia.
Qed.

Lemma Peek_Purge c k : Peek (Purge c) k = None.
Proof. done. Qed.

Lemma find_removelast k v l : find k (removelast l) = Some v → find k l = Some v.
Proof.
  induction l as [|[k0 v0] l IH]; [done|]. destruct l as [|e l]; [done|].
  change (removelast ((k0, v0) :: e :: l)) with ((k0, v0) :: removelast (e :: l)).
  change (find k ((k0, v0) :: removelast (e :: l)))
    with (if decide (k0 = k) then Some v0 else find k (removelast (e :: l))).
  change (find k ((k0, v0) :: e :: l))
    with (if decide (k0 = k) then Some v0 else find k (e :: l)).
  destruct (decide (k0 = k)); [done|]. apply IH.
Qed.

(** A binding of the cache after [Add] is the one added or was there before. *)
Lemma Peek_Add_inv c k v k' v' :
  Peek (Add c k v) k' = Some v' → (k' = k ∧ v' = v) ∨ (k' ≠ k ∧ Peek c k' = Some v').
Proof.
  unfold Add, Peek. destruct (decide (k = k')) as [<-|Hne].
  - intros Hp. left. split; [done|].
    pose proof (Peek_Add_eq c k v) as Hk. unfold Add, Peek in Hk. congruence.
  - intros Hp. right. split; [done|]. destruct (find k (items c)) eqn:Hf.
    + simpl in Hp. rewrite decide_False in Hp by done. by rewrite find_remove_ne in Hp.
    + destruct (Z.pos (size c) <? _).
      * apply find_removelast in Hp. simpl in Hp. by rewrite decide_False in Hp.
      * simpl in Hp. by rewrite decide_False in Hp.
Qed.

Lemma find_Some_Keys k v c : Peek c k = Some v → k ∈ Keys c.
Proof.
  unfold Peek, Keys. intros Hf. apply list_elem_of_In. apply -> in_rev.
  induction (items c) as [|[k0 v0] l IH]; [done|]. simpl in *.
  destruct (decide (k0 = k)) as [->|Hne]; [by left|]. right. by apply IH.
Qed.

Lemma Keys_Peek c k : k ∈ Keys c → is_Some (Peek c k).
Proof.
  unfold Peek, Keys. intros Hin. apply list_elem_of_In in Hin. apply in_rev in Hin.
  induction (items c) as [|[k0 v0] l IH]; [done|]. simpl in *.
  destruct (decide (k0 = k)) as [->|Hne]; [by eexists|].
  destruct Hin as [?|Hin]; [done|]. by apply IH.
Qed.

Lemma Peek_Some_Len c k v : Peek c k = Some v → 0 < Len c.
Proof. unfold Peek, Len. destruct (items c); [done|]. simpl. lia. Qed.

End LRUFacts.

(** ** Reads and writes of the staged cache store *)

Section StoreFacts.
Context `{Tomox}.
Implicit Types (d : BatchDatabase) (h : heap) (key : slice) (val : value) (bh : Hash).

Lemma IsEmptyKey_spec d key :
  IsEmptyKey d key = true ↔
  key = None ∨ length (slice_bytes key) = 0%nat ∨ slice_bytes key = emptyKey d.
Proof.
  unfold IsEmptyKey. rewrite !orb_true_iff, !bool_decide_eq_true, Z.eqb_eq.
  split; (intros [[?|?]|?]; [left|right;left|right;right]) || (intros [?|[?|?]]; auto);
    auto; try lia.
Qed.

(** A staged read that finds the key in the overlay. *)
Lemma Has_staged_hit d key bh c v :
  IsEmptyKey d key = false →
  dryRunCaches d !! bh = Some c → Peek c (getCacheKey key) = Some v →
  (Has d key true bh).2 = (match v with VNil => false | _ => true end, None).
Proof.
  intros He Hc Hp. unfold Has. rewrite He, Hc.
  assert (Hlen : (0 <? Len c) = true) by (apply Z.ltb_lt; by eapply Peek_Some_Len).
  rewrite Hlen. pose proof (lru_Get_result c (getCacheKey key)) as Hr.
  destruct (lru_Get c (getCacheKey key)) as [c' o]. simpl in Hr. subst o. rewrite Hp.
  by destruct v.
Qed.

Lemma Get_staged_hit d h key val bh c v :
  IsEmptyKey d key = false →
  dryRunCaches d !! bh = Some c → Peek c (getCacheKey key) = Some v →
  (Get d h key val true bh).2 = (v, None) ∧ (Get d h key val true bh).1.2 = h.
Proof.
  intros He Hc Hp. unfold Get. rewrite He, Hc.
  assert (Hlen : (0 <? Len c) = true) by (apply Z.ltb_lt; by eapply Peek_Some_Len).
  rewrite Hlen. pose proof (lru_Get_result c (getCacheKey key)) as Hr.
  destruct (lru_Get c (getCacheKey key)) as [c' o]. simpl in Hr. subst o. by rewrite Hp.
Qed.

Lemma read_through_staged d h key val :
  read_through d h key val true =
    ((set_cacheItems d (lru_Get (cacheItems d) (getCacheKey key)).1, (read_store d h key val).1),
     (read_store d h key val).2).
Proof.
  unfold read_through, read_store.
  destruct (lru_Get (cacheItems d) (getCacheKey key)) as [ci cached]. simpl.
  destruct (ldb_Get (db d) (slice_bytes key)) as [b|err]; simpl.
  - destruct (DecodeBytesItem b val h) as [h' [err|]]; by destruct cached.
  - by destruct cached.
Qed.

Lemma Get_staged_miss d h key val bh :
  IsEmptyKey d key = false →
  (∀ c, dryRunCaches d !! bh = Some c → Peek c (getCacheKey key) = None) →
  Get d h key val true bh =
    ((set_cacheItems d (lru_Get (cacheItems d) (getCacheKey key)).1, (read_store d h key val).1),
     (read_store d h key val).2).
Proof.
  intros He Hmiss. unfold Get. rewrite He, <- read_through_staged.
  destruct (dryRunCaches d !! bh) as [c|] eqn:Hc; [|done].
  rewrite (lru_Get_miss c _ (Hmiss c eq_refl)). by destruct (0 <? Len c).
Qed.

End StoreFacts.

Section StoreClaims.
Context `{Tomox}.
Implicit Types (d : BatchDatabase) (h : heap) (key : slice) (val : value) (bh : Hash).

(** C9. For a key that is nil, of length zero or equal to the preallocated
    empty key, [Has] returns (false, nil) and [Get] returns (nil, nil), in
    staged and in direct mode, whatever the overlays and the store hold, and
    nothing changes. [Put] and [Delete] make no such test: on such a key too a
    staged put or delete adds the value or the tombstone to the overlay under
    the cache key, and a direct put or delete on an open store writes the
    encoded value at the key or deletes the key (the hot cache following). *)
Theorem C9_empty_key d h key val dryrun bh :
  key = None ∨ length (slice_bytes key) = 0%nat ∨ slice_bytes key = emptyKey d →
  Has d key dryrun bh = (d, (false, None))
  ∧ Get d h key val dryrun bh = ((d, h), (VNil, None))
  ∧ (∀ c, dryRunCaches d !! bh = Some c →
       (Put d h key val true bh).2 = None
       ∧ (∃ c', dryRunCaches (Put d h key val true bh).1 !! bh = Some c'
                ∧ Peek c' (getCacheKey key) = Some val)
       ∧ (Delete d key true bh).2 = None
       ∧ (∃ c', dryRunCaches (Delete d key true bh).1 !! bh = Some c'
                ∧ Peek c' (getCacheKey key) = Some VNil))
  ∧ (∀ b, ldb_closed (db d) = false → EncodeBytesItem val h = (b, None) →
       (Put d h key val false bh).2 = None
       ∧ ldb_data (db (Put d h key val false bh).1) !! slice_bytes key = Some b
       ∧ Peek (cacheItems (Put d h key val false bh).1) (getCacheKey key) = Some val)
  ∧ (ldb_closed (db d) = false →
       (Delete d key false bh).2 = None
       ∧ ldb_data (db (Delete d key false bh).1) !! slice_bytes key = None
       ∧ Peek (cacheItems (Delete d key false bh).1) (getCacheKey key) = None).
Proof.
  intros Hempty. apply IsEmptyKey_spec in Hempty.
  split; [by unfold Has; rewrite Hempty|].
  split; [by unfold Get; rewrite Hempty|].
  split; [|split].
  - intros c Hc. unfold Put, Delete. rewrite Hc. simpl.
    repeat split; try (eexists; split; [apply lookup_insert_eq|apply Peek_Add_eq]).
  - intros b Hopen Henc. unfold Put. rewrite Henc. unfold ldb_Put. simpl.
    rewrite Hopen. simpl. repeat split.
    + apply lookup_insert_eq.
    + apply Peek_Add_eq.
  - intros Hopen. unfold Delete, ldb_Delete. simpl. rewrite Hopen. simpl. repeat split.
    + apply lookup_delete_eq.
    + apply find_remove_eq.
Qed.

(** C7. A staged put or delete for a hash that has no overlay fails with the
    "dryruncache not found" error and changes nothing. For a hash that has one,
    the put adds the value to that overlay and the delete adds the tombstone,
    whatever the key and the value are, and the store, the hot cache and the
    list of recent hashes stay as they were. *)
Theorem C7_staged_write d h key val bh :
  (dryRunCaches d !! bh = None →
     Put d h key val true bh = (d, Some (ErrDryrunCacheNotFound bh))
     ∧ Delete d key true bh = (d, Some (ErrDryrunCacheNotFound bh)))
  ∧ (∀ c, dryRunCaches d !! bh = Some c →
       let p := Put d h key val true bh in
       let r := Delete d key true bh in
       p.2 = None
       ∧ dryRunCaches p.1 !! bh = Some (Add c (getCacheKey key) val)
       ∧ Peek (Add c (getCacheKey key) val) (getCacheKey key) = Some val
       ∧ db p.1 = db d ∧ cacheItems p.1 = cacheItems d ∧ recentCaches p.1 = recentCaches d
       ∧ r.2 = None
       ∧ dryRunCaches r.1 !! bh = Some (Add c (getCacheKey key) VNil)
       ∧ Peek (Add c (getCacheKey key) VNil) (getCacheKey key) = Some VNil
       ∧ db r.1 = db d ∧ cacheItems r.1 = cacheItems d ∧ recentCaches r.1 = recentCaches d).
Proof.
  split.
  - intros Hc. unfold Put, Delete. by rewrite Hc.
  - intros c Hc. unfold Put, Delete. rewrite Hc. simpl.
    repeat split; try apply lookup_insert_eq; apply Peek_Add_eq.
Qed.

(** C2 (amended). For a key that is not empty and a hash with an overlay, the
    staged delete succeeds, and after it [Has] returns (false, nil) and [Get]
    returns the nil value with a nil error, not the store's not-found error,
    whatever the store holds for the key; the heap is not touched. *)
Theorem C2_tombstone_masks d h key val bh c :
  IsEmptyKey d key = false →
  dryRunCaches d !! bh = Some c →
  let d1 := (Delete d key true bh).1 in
  (Delete d key true bh).2 = None
  ∧ db d1 = db d
  ∧ (Has d1 key true bh).2 = (false, None)
  ∧ (Get d1 h key val true bh).2 = (VNil, None)
  ∧ (Get d1 h key val true bh).1.2 = h.
Proof.
  intros He Hc d1. subst d1. unfold Delete. rewrite Hc. simpl.
  set (d1 := set_dryRunCaches _ _).
  assert (He1 : IsEmptyKey d1 key = false) by done.
  assert (Hc1 : dryRunCaches d1 !! bh = Some (Add c (getCacheKey key) VNil))
    by apply lookup_insert_eq.
  split; [done|]. split; [done|]. split.
  - by rewrite (Has_staged_hit d1 key bh _ VNil He1 Hc1 (Peek_Add_eq _ _ _)).
  - by destruct (Get_staged_hit d1 h key val bh _ VNil He1 Hc1 (Peek_Add_eq _ _ _)).
Qed.

(** C1 (amended). For a key that is not empty and a hash whose overlay has no
    entry for it, the staged [Get] returns what the store and the codec give:
    the store's error (not found when the store is open and lacks the key),
    the codec's error, or the caller's container with the decoded record
    written behind it. The result is the same whatever the hot cache holds,
    and the call leaves every binding of the hot cache, the overlays and the
    store as they were. *)
Theorem C1_staged_read_falls_through d h key val bh c :
  IsEmptyKey d key = false →
  dryRunCaches d !! bh = Some c →
  Peek c (getCacheKey key) = None →
  let r := Get d h key val true bh in
  (ldb_closed (db d) = false → ldb_data (db d) !! slice_bytes key = None →
     r.2 = (VNil, Some ErrNotFound) ∧ r.1.2 = h)
  ∧ (∀ b t a rec, ldb_closed (db d) = false → ldb_data (db d) !! slice_bytes key = Some b →
       val = VPtr t a → is_Some (h !! a) → decodeRecord b t = inl rec →
       r.2 = (val, None) ∧ r.1.2 = <[a:=rec]> h ∧ r.1.2 !! a = Some rec)
  ∧ (∀ b err, ldb_closed (db d) = false → ldb_data (db d) !! slice_bytes key = Some b →
       (DecodeBytesItem b val h).2 = Some err → r.2 = (VNil, Some err))
  ∧ (ldb_closed (db d) = true → r.2 = (VNil, Some ErrClosed))
  ∧ (∀ hot, (Get (set_cacheItems d hot) h key val true bh).2 = r.2
            ∧ (Get (set_cacheItems d hot) h key val true bh).1.2 = r.1.2)
  ∧ (∀ k, Peek (cacheItems r.1.1) k = Peek (cacheItems d) k)
  ∧ dryRunCaches r.1.1 = dryRunCaches d
  ∧ db r.1.1 = db d.
Proof.
  intros He Hc Hp r.
  assert (Hmiss : ∀ c0, dryRunCaches d !! bh = Some c0 → Peek c0 (getCacheKey key) = None).
  { intros c0 Hc0. rewrite Hc in Hc0. by injection Hc0 as <-. }
  assert (Hr : r = ((set_cacheItems d (lru_Get (cacheItems d) (getCacheKey key)).1,
                     (read_store d h key val).1), (read_store d h key val).2))
    by (by apply Get_staged_miss).
  clearbody r. subst r. simpl.
  split; [|split; [|split; [|split; [|split; [|split]]]]].
  - intros Hopen Hnone. unfold read_store, ldb_Get. by rewrite Hopen, Hnone.
  - intros b t a rec Hopen Hsome -> [r0 Ha] Hdec.
    unfold read_store, ldb_Get. rewrite Hopen, Hsome. simpl. rewrite Ha, Hdec. simpl.
    repeat split. apply list_lookup_insert_eq. by eapply lookup_lt_Some.
  - intros b err Hopen Hsome Herr. unfold read_store, ldb_Get. rewrite Hopen, Hsome.
    destruct (DecodeBytesItem b val h) as [h' o]. simpl in Herr. by subst o.
  - intros Hclosed. unfold read_store, ldb_Get. by rewrite Hclosed.
  - intros hot. by rewrite (Get_staged_miss (set_cacheItems d hot) h key val bh He Hmiss).
  - intros k. apply Peek_lru_Get.
  - done.
Qed.

End StoreClaims.

(** ** The overlay registry *)

Section RegistryFacts.
Context `{Tomox}.
Implicit Types (d : BatchDatabase) (h : heap) (x p k : Hash).

Lemma evict_oldest_below d :
  (length (recentCaches d) < 200)%nat → evict_oldest d = d.
Proof.
  intros Hlt. unfold evict_oldest, dryrunCacheLimit.
  destruct (200 <=? _) eqn:Hle; [apply Z.leb_le in Hle; lia|done].
Qed.

Lemma evict_oldest_full d o later :
  recentCaches d = o :: later → (200 ≤ length (recentCaches d))%nat →
  evict_oldest d = set_recentCaches (DropDryrunCache d o) later.
Proof.
  intros Hr Hge. unfold evict_oldest, dryrunCacheLimit.
  destruct (200 <=? _) eqn:Hle; [|apply Z.leb_gt in Hle; lia].
  by rewrite Hr.
Qed.

(** Eviction only removes overlays. *)
Lemma evict_oldest_lookup d k :
  is_Some (dryRunCaches (evict_oldest d) !! k) → is_Some (dryRunCaches d !! k).
Proof.
  unfold evict_oldest. destruct (dryrunCacheLimit <=? _); [|done].
  destruct (recentCaches d) as [|o later]; [done|]. simpl.
  destruct (decide (o = k)) as [->|Hne].
  - rewrite lookup_delete_eq. by intros [? ?].
  - by rewrite lookup_delete_ne.
Qed.

(** A call that fails leaves no overlay at its hash, registers none, and
    appends nothing to the recent hashes. *)
Lemma InitDryRunMode_error d h x p s e :
  InitDryRunMode d h x p = (s, Some e) →
  dryRunCaches s.1 !! x = None
  ∧ recentCaches s.1 = recentCaches (evict_oldest d)
  ∧ ∀ k, is_Some (dryRunCaches s.1 !! k) → is_Some (dryRunCaches (evict_oldest d) !! k).
Proof.
  unfold InitDryRunMode. cbv zeta. generalize (evict_oldest d). intros d1.
  assert (Hdrop : dryRunCaches (DropDryrunCache d1 x) !! x = None) by apply lookup_delete_eq.
  assert (Hsub : ∀ k, is_Some (dryRunCaches (DropDryrunCache d1 x) !! k) →
                      is_Some (dryRunCaches d1 !! k)).
  { intros k. simpl. destruct (decide (x = k)) as [->|Hne].
    - rewrite lookup_delete_eq. by intros [? ?].
    - by rewrite lookup_delete_ne. }
  assert (Hrec : recentCaches (DropDryrunCache d1 x) = recentCaches d1) by done.
  revert Hdrop Hsub Hrec. generalize (DropDryrunCache d1 x). intros d2 Hdrop Hsub Hrec.
  destruct (lru_New (cacheLimit d2)) as [fresh|err]; [|by intros [= <- <-]].
  destruct (decide (p ≠ zeroHash)) as [Hp|Hp]; [|by intros [= _ ?]].
  destruct (dryRunCaches d2 !! p) as [pc|] eqn:Hpc; [|by intros [= <- <-]].
  destruct (0 <? Len pc); [|by intros [= <- <-]].
  destruct (inherit x p (Keys pc) pc fresh h) as [[[pc' ch] h'] [err|]]; [|by intros [= _ ?]].
  intros [= <- <-]. simpl.
  assert (Hne : p ≠ x) by (intros ->; rewrite Hdrop in Hpc; done).
  split; [by rewrite lookup_insert_ne|]. split; [done|].
  intros k. destruct (decide (p = k)) as [<-|Hk].
  - intros _. apply Hsub. by rewrite Hpc.
  - rewrite lookup_insert_ne by done. apply Hsub.
Qed.

(** A call that succeeds registers an overlay at its hash, appends the hash
    to the recent ones unless it is the miner's, and neither adds nor removes
    any other overlay past the eviction. *)
Lemma InitDryRunMode_ok d h x p s :
  InitDryRunMode d h x p = (s, None) →
  is_Some (dryRunCaches s.1 !! x)
  ∧ recentCaches s.1 =
      recentCaches (evict_oldest d) ++ (if decide (x ≠ M1DryrunCacheHash) then [x] else [])
  ∧ ∀ k, k ≠ x →
      (is_Some (dryRunCaches s.1 !! k) ↔ is_Some (dryRunCaches (evict_oldest d) !! k)).
Proof.
  unfold InitDryRunMode. cbv zeta. generalize (evict_oldest d). intros d1.
  assert (Hdrop : dryRunCaches (DropDryrunCache d1 x) !! x = None) by apply lookup_delete_eq.
  assert (Hsub : ∀ k, k ≠ x → dryRunCaches (DropDryrunCache d1 x) !! k = dryRunCaches d1 !! k).
  { intros k Hk. simpl. by rewrite lookup_delete_ne. }
  assert (Hrec : recentCaches (DropDryrunCache d1 x) = recentCaches d1) by done.
  revert Hdrop Hsub Hrec. generalize (DropDryrunCache d1 x). intros d2 Hdrop Hsub Hrec.
  assert (Hreg : ∀ d' c, recentCaches d' = recentCaches d1 →
    is_Some (dryRunCaches (register_cache d' x c) !! x)
    ∧ recentCaches (register_cache d' x c) =
        recentCaches d1 ++ (if decide (x ≠ M1DryrunCacheHash) then [x] else [])
    ∧ ∀ k, k ≠ x → dryRunCaches (register_cache d' x c) !! k = dryRunCaches d' !! k).
  { intros d' c Hd'. unfold register_cache.
    destruct (decide (x ≠ M1DryrunCacheHash)); simpl.
    - rewrite lookup_insert_eq, Hd'. repeat split; [by eexists|].
      intros k Hk. by rewrite lookup_insert_ne.
    - rewrite lookup_insert_eq, Hd', app_nil_r. repeat split; [by eexists|].
      intros k Hk. by rewrite lookup_insert_ne. }
  destruct (lru_New (cacheLimit d2)) as [fresh|err]; [|by intros [= _ ?]].
  destruct (decide (p ≠ zeroHash)) as [Hp|Hp].
  - destruct (dryRunCaches d2 !! p) as [pc|] eqn:Hpc; [|by intros [= _ ?]].
    destruct (0 <? Len pc); [|by intros [= _ ?]].
    destruct (inherit x p (Keys pc) pc fresh h) as [[[pc' ch] h'] [err|]]; [by intros [= _ ?]|].
    intros [= <-]. cbn [fst snd].
    destruct (Hreg (set_dryRunCaches d2 (<[p:=pc']> (dryRunCaches d2))) ch)
      as (Hx & Hr & Hk); [exact Hrec|].
    split; [done|]. split; [done|]. intros k Hkx. rewrite (Hk k Hkx). simpl.
    rewrite <- (Hsub k Hkx). destruct (decide (p = k)) as [<-|Hpk].
    + rewrite lookup_insert_eq, Hpc. split; by eexists.
    + by rewrite lookup_insert_ne.
  - intros [= <-]. cbn [fst snd]. destruct (Hreg d2 fresh Hrec) as (Hx & Hr & Hk).
    split; [done|]. split; [done|]. intros k Hkx. by rewrite (Hk k Hkx), (Hsub k Hkx).
Qed.

Lemma HasDryrunCache_absent d k : dryRunCaches d !! k = None → HasDryrunCache d k = false.
Proof. unfold HasDryrunCache. by intros ->. Qed.

Lemma HasDryrunCache_registered d k :
  HasDryrunCache d k = true → is_Some (dryRunCaches d !! k).
Proof. unfold HasDryrunCache. destruct (dryRunCaches d !! k); [by eexists|done]. Qed.

(** The overlay of the first of the recent hashes does not survive a call
    made when the list is full, unless the call is for that very hash. *)
Lemma InitDryRunMode_evicts d h x p o later :
  recentCaches d = o :: later → (200 ≤ length (recentCaches d))%nat → o ≠ x →
  dryRunCaches (InitDryRunMode d h x p).1.1 !! o = None
  ∧ ∃ suffix, recentCaches (InitDryRunMode d h x p).1.1 = later ++ suffix.
Proof.
  intros Hr Hfull Hox.
  assert (Hev : dryRunCaches (evict_oldest d) !! o = None
                ∧ recentCaches (evict_oldest d) = later).
  { rewrite (evict_oldest_full d o later Hr Hfull). simpl. by rewrite lookup_delete_eq. }
  destruct Hev as [Hgone Hlater].
  destruct (InitDryRunMode d h x p) as [s [e|]] eqn:Hinit.
  - destruct (InitDryRunMode_error _ _ _ _ _ _ Hinit) as (_ & Hrec & Hsub). simpl. split.
    + destruct (dryRunCaches s.1 !! o) eqn:Ho; [|done].
      destruct (Hsub o) as [? Habs]; [by eexists|]. by rewrite Hgone in Habs.
    + exists []. by rewrite app_nil_r, Hrec.
  - destruct (InitDryRunMode_ok _ _ _ _ _ Hinit) as (_ & Hrec & Hsub). simpl. split.
    + destruct (dryRunCaches s.1 !! o) eqn:Ho; [|done].
      destruct (proj1 (Hsub o Hox)) as [? Habs]; [by eexists|]. by rewrite Hgone in Habs.
    + eexists. by rewrite Hrec, Hlater.
Qed.

Lemma due_within_step x1 n d h x p s :
  due_within x1 (S n) d → x ≠ x1 → x ≠ M1DryrunCacheHash →
  InitDryRunMode d h x p = (s, None) → due_within x1 n s.1.
Proof.
  intros Hdue Hx Hm Hinit.
  destruct (InitDryRunMode_ok _ _ _ _ _ Hinit) as (_ & Hrec & Hsub).
  rewrite decide_True in Hrec by done.
  assert (Hgone : dryRunCaches (evict_oldest d) !! x1 = None → due_within x1 n s.1).
  { intros Hnone. left. destruct (dryRunCaches s.1 !! x1) eqn:Hs; [|done].
    destruct (proj1 (Hsub x1 (not_eq_sym Hx))) as [? Habs]; [by eexists|].
    by rewrite Hnone in Habs. }
  destruct Hdue as [Hnone|(pre & post & Hpre & Hlen & Hn)].
  - apply Hgone. destruct (dryRunCaches (evict_oldest d) !! x1) eqn:He; [|done].
    destruct (evict_oldest_lookup d x1) as [? Habs]; [by eexists|]. by rewrite Hnone in Habs.
  - destruct (decide (length (recentCaches d) < 200)%nat) as [Hlt|Hge].
    + rewrite (evict_oldest_below d Hlt) in Hrec. right.
      exists pre, (post ++ [x]). rewrite Hrec, Hpre, <- app_assoc. simpl.
      split; [done|]. rewrite Hpre in *. rewrite !length_app in *. simpl in *.
      rewrite !length_app. simpl. lia.
    + destruct pre as [|o pre]; simpl in Hpre.
      * apply Hgone. rewrite (evict_oldest_full d x1 post Hpre) by lia. simpl.
        by rewrite lookup_delete_eq.
      * rewrite (evict_oldest_full d o (pre ++ x1 :: post) Hpre) in Hrec by lia.
        simpl in Hrec. right. exists pre, (post ++ [x]).
        rewrite Hrec, <- app_assoc. simpl. split; [done|].
        rewrite Hpre in *. simpl in *. rewrite !length_app in *. simpl in *.
        rewrite !length_app. simpl. lia.
Qed.

Lemma due_within_run x1 calls : ∀ d h s,
  due_within x1 (length calls) d →
  Forall (fun c => c.1 ≠ x1 ∧ c.1 ≠ M1DryrunCacheHash) calls →
  init_all calls d h = Some s → dryRunCaches s.1 !! x1 = None.
Proof.
  induction calls as [|[x p] calls IH]; intros d h s Hdue Hall Hrun.
  - injection Hrun as <-. destruct Hdue as [Hnone|(pre & post & _ & _ & Hn)]; [done|].
    simpl in Hn. lia.
  - simpl in Hrun. destruct (InitDryRunMode d h x p) as [s1 [e|]] eqn:Hinit; [done|].
    apply Forall_cons in Hall as [[Hx Hm] Hall]. simpl in Hx, Hm.
    eapply IH; [|done|done]. by eapply due_within_step.
Qed.

Lemma due_within_first x1 d h p s :
  (length (recentCaches d) ≤ 200)%nat → x1 ≠ M1DryrunCacheHash →
  InitDryRunMode d h x1 p = (s, None) → due_within x1 200 s.1.
Proof.
  intros Hlen Hm Hinit.
  destruct (InitDryRunMode_ok _ _ _ _ _ Hinit) as (_ & Hrec & _).
  rewrite decide_True in Hrec by done.
  right. exists (recentCaches (evict_oldest d)), []. split; [done|].
  assert (Hev : (length (recentCaches (evict_oldest d)) ≤ 199)%nat).
  { destruct (decide (length (recentCaches d) < 200)%nat) as [Hlt|Hge].
    - rewrite (evict_oldest_below d Hlt). lia.
    - destruct (recentCaches d) as [|o later] eqn:Hr; [simpl in Hge; lia|].
      rewrite (evict_oldest_full d o later Hr) by (rewrite Hr; simpl in *; lia).
      simpl in *. lia. }
  rewrite Hrec, length_app. simpl. lia.
Qed.

End RegistryFacts.

Section RegistryClaims.
Context `{Tomox}.
Implicit Types (d : BatchDatabase) (h : heap) (x p k : Hash).

(** C10. When [InitDryRunMode] returns an error, whichever it is (the cache
    cannot be allocated, the parent overlay is missing or empty, an inherited
    entry cannot be decoded), the registry holds no overlay at the hash of the
    call and [HasDryrunCache] is false for it: an overlay registered there
    before has been dropped and none has been registered. A parent that is
    named but missing or empty does make the call fail. *)
Theorem C10_failed_init_leaves_no_overlay d h x p :
  (∀ s e, InitDryRunMode d h x p = (s, Some e) →
     dryRunCaches s.1 !! x = None ∧ HasDryrunCache s.1 x = false)
  ∧ (p ≠ zeroHash → 0 < cacheLimit d →
     (∀ c, dryRunCaches d !! p = Some c → Len c = 0) →
     (InitDryRunMode d h x p).2 = Some (ErrParentCacheNotFound x p)).
Proof.
  split.
  - intros s e Hinit. destruct (InitDryRunMode_error _ _ _ _ _ _ Hinit) as (Hnone & _).
    split; [done|]. by apply HasDryrunCache_absent.
  - intros Hp Hlimit Hparent. unfold InitDryRunMode. cbv zeta.
    assert (Hsub : ∀ c, dryRunCaches (DropDryrunCache (evict_oldest d) x) !! p = Some c →
                        Len c = 0).
    { intros c Hc. destruct (dryRunCaches d !! p) as [c0|] eqn:Hd.
      - assert (is_Some (dryRunCaches (evict_oldest d) !! p)) as [c1 Hc1].
        { simpl in Hc. destruct (decide (x = p)) as [->|Hne].
          - by rewrite lookup_delete_eq in Hc.
          - rewrite lookup_delete_ne in Hc by done. by eexists. }
        revert Hc Hc1. unfold evict_oldest. destruct (dryrunCacheLimit <=? _).
        + destruct (recentCaches d) as [|o later]; simpl.
          * intros Hc _. apply Hparent. destruct (decide (x = p)) as [->|Hne].
            -- by rewrite lookup_delete_eq in Hc.
            -- rewrite lookup_delete_ne in Hc by done. congruence.
          * intros Hc Hc1. apply Hparent. destruct (decide (x = p)) as [->|Hne].
            -- by rewrite lookup_delete_eq in Hc.
            -- rewrite lookup_delete_ne in Hc by done.
               destruct (decide (o = p)) as [->|Hop].
               ++ by rewrite lookup_delete_eq in Hc.
               ++ rewrite lookup_delete_ne in Hc by done. congruence.
        + simpl. intros Hc _. apply Hparent. destruct (decide (x = p)) as [->|Hne].
          * by rewrite lookup_delete_eq in Hc.
          * rewrite lookup_delete_ne in Hc by done. congruence.
      - destruct (evict_oldest_lookup d p) as [? Habs]; [|congruence].
        simpl in Hc. destruct (decide (x = p)) as [->|Hne].
        + by rewrite lookup_delete_eq in Hc.
        + rewrite lookup_delete_ne in Hc by done. by eexists. }
    assert (Hl : cacheLimit (DropDryrunCache (evict_oldest d) x) = cacheLimit d).
    { unfold evict_oldest. destruct (dryrunCacheLimit <=? _); [|done].
      by destruct (recentCaches d). }
    revert Hsub Hl. generalize (DropDryrunCache (evict_oldest d) x). intros d2 Hsub Hl.
    rewrite Hl. destruct (cacheLimit d) as [|n|n] eqn:Hcl; try lia. simpl.
    rewrite decide_True by done.
    destruct (dryRunCaches d2 !! p) as [c|] eqn:Hc; [|done].
    rewrite (Hsub c eq_refl). done.
Qed.

(** C6 (amended). Whenever the recent hashes are [dryrunCacheLimit] (200) or
    more, a call of [InitDryRunMode] first drops the overlay of the first of
    them and advances the list. So, from a registry with at most 200 recent
    hashes, after 201 successive calls that succeed, for distinct hashes none
    of which is the miner's, the hash of the first call has no overlay in the
    registry and [HasDryrunCache] is false for it. *)
Theorem C6_fifo_eviction :
  (∀ d h x p o later,
     recentCaches d = o :: later → (200 ≤ length (recentCaches d))%nat → o ≠ x →
     dryRunCaches (InitDryRunMode d h x p).1.1 !! o = None
     ∧ HasDryrunCache (InitDryRunMode d h x p).1.1 o = false
     ∧ ∃ suffix, recentCaches (InitDryRunMode d h x p).1.1 = later ++ suffix)
  ∧ (∀ d h calls s,
       (length (recentCaches d) ≤ 200)%nat →
       length calls = 201%nat →
       NoDup calls.*1 →
       Forall (fun x => x ≠ M1DryrunCacheHash) calls.*1 →
       init_all calls d h = Some s →
       ∀ x1, head calls.*1 = Some x1 →
       dryRunCaches s.1 !! x1 = None ∧ HasDryrunCache s.1 x1 = false).
Proof.
  split.
  - intros d h x p o later Hr Hfull Hox.
    destruct (InitDryRunMode_evicts d h x p o later Hr Hfull Hox) as [Hnone Hrec].
    split; [done|]. split; [by apply HasDryrunCache_absent|done].
  - intros d h calls s Hlen Hcalls Hnodup Hminer Hrun x1 Hhead.
    destruct calls as [|[x p] calls]; [done|]. simpl in *. injection Hhead as ->.
    apply NoDup_cons in Hnodup as [Hnotin Hnodup].
    apply Forall_cons in Hminer as [Hm Hminer].
    destruct (InitDryRunMode d h x1 p) as [s1 [e|]] eqn:Hinit; [done|].
    assert (Hnone : dryRunCaches s.1 !! x1 = None).
    { apply (due_within_run x1 calls s1.1 s1.2 s); [| |done].
      - replace (length calls) with 200%nat by lia. by eapply due_within_first.
      - apply Forall_forall. intros [y q] Hin. simpl. split.
        + intros ->. apply Hnotin. apply list_elem_of_fmap. by exists (x1, q).
        + rewrite Forall_forall in Hminer. apply Hminer.
          apply list_elem_of_fmap. by exists (y, q). }
    split; [done|]. by apply HasDryrunCache_absent.
Qed.

End RegistryClaims.

(** ** Inheritance from the parent overlay *)

Section InheritFacts.
Context `{Tomox}.
Implicit Types (d : BatchDatabase) (h : heap) (x p : Hash) (k ck : string) (pc ch : Cache value).

Lemma DecodeBytesItem_fresh b t h :
  DecodeBytesItem b (VPtr t (length h)) (h ++ [zeroRecord t]) =
    match decodeRecord b t with
    | inl r => (h ++ [r], None)
    | inr e => (h ++ [zeroRecord t], Some e)
    end.
Proof.
  unfold DecodeBytesItem. rewrite lookup_app_r by lia. rewrite Nat.sub_diag. simpl.
  destruct (decodeRecord b t); [|done].
  rewrite insert_app_r_alt by lia. by rewrite Nat.sub_diag.
Qed.

Lemma inherit_cons x p (k : string) keys pc ch h :
  inherit x p (k :: keys) pc ch h =
  match lru_Get pc k with
  | (pc1, Some val) =>
      match ptr_type val with
      | Some t =>
          if decide (t = TOtherPtr) then inherit x p keys pc1 ch h
          else match decodeRecord (EncodeBytesItem val h).1 t with
               | inl r => inherit x p keys pc1 (Add ch k (VPtr t (length h))) (h ++ [r])
               | inr e => ((pc1, ch, h ++ [zeroRecord t]), Some (ErrCantInherit x p e))
               end
      | None => inherit x p keys pc1 (Add ch k val) h
      end
  | (pc1, None) => inherit x p keys pc1 ch h
  end.
Proof.
  cbn [inherit]. destruct (lru_Get pc k) as [pc1 [val|]]; [|done].
  destruct (ptr_type val) as [t|]; [|done].
  rewrite DecodeBytesItem_fresh.
  destruct t; try done; by destruct (decodeRecord _ _).
Qed.

(** The encoding of a value of the program reads only the heap that was
    there. *)
Lemma EncodeBytesItem_prefix (v : value) h h1 :
  valid_in h v → (∀ a, (a < length h)%nat → h1 !! a = h !! a) →
  EncodeBytesItem v h1 = EncodeBytesItem v h.
Proof.
  intros Hv Hpre. destruct v as [|t a|pl|t]; try done. simpl in *. by rewrite Hpre.
Qed.

Lemma valid_in_mono (v : value) h h1 :
  (length h ≤ length h1)%nat → valid_in h v → valid_in h1 v.
Proof. intros Hlen. destruct v; simpl; try done. lia. Qed.

Lemma inherited_weaken pc pc1 h h1 h' ck v :
  (∀ k, Peek pc1 k = Peek pc k) →
  (length h ≤ length h1)%nat → (∀ a, (a < length h)%nat → h1 !! a = h !! a) →
  inherited pc1 h1 h' ck v → inherited pc h h' ck v.
Proof.
  intros Hpc Hlen Hpre. destruct v as [|t a|pl|t]; simpl; rewrite ?Hpc; try done.
  intros (Ht & Ha & v0 & Hp & Hpt & Hrec). split; [done|]. split; [lia|].
  exists v0. split; [done|]. split; [done|]. intros Hv0.
  rewrite <- (EncodeBytesItem_prefix v0 h h1) by done.
  apply Hrec. by apply (valid_in_mono v0 h h1).
Qed.

(** The loop, when it ends without error: the parent keeps its bindings, the
    heap only grows, and every binding of the new cache was there at the
    start or is inherited. *)
Lemma inherit_ok x p keys : ∀ pc ch h pc' ch' h',
  inherit x p keys pc ch h = ((pc', ch', h'), None) →
  (∀ k, Peek pc' k = Peek pc k)
  ∧ (length h ≤ length h')%nat
  ∧ (∀ a, (a < length h)%nat → h' !! a = h !! a)
  ∧ (∀ ck v, Peek ch' ck = Some v → Peek ch ck = Some v ∨ inherited pc h h' ck v).
Proof.
  induction keys as [|k keys IH]; intros pc ch h pc' ch' h' Hrun.
  - injection Hrun as <- <- <-. repeat split; auto.
  - rewrite inherit_cons in Hrun.
    pose proof (Peek_lru_Get pc k) as Hpk. pose proof (lru_Get_result pc k) as Hres.
    destruct (lru_Get pc k) as [pc1 o]. simpl in Hpk, Hres. subst o.
    assert (Hskip : inherit x p keys pc1 ch h = (pc', ch', h', None) →
      (∀ k0, Peek pc' k0 = Peek pc k0) ∧ (length h ≤ length h')%nat
      ∧ (∀ a, (a < length h)%nat → h' !! a = h !! a)
      ∧ (∀ ck v, Peek ch' ck = Some v → Peek ch ck = Some v ∨ inherited pc h h' ck v)).
    { intros Hrun'. destruct (IH _ _ _ _ _ _ Hrun') as (Hp1 & Hl1 & Hh1 & Hc1).
      split; [intros k0; by rewrite Hp1|]. split; [done|]. split; [done|].
      intros ck v Hv. destruct (Hc1 ck v Hv) as [?|Hi]; [by left|right].
      by apply (inherited_weaken pc pc1 h h h'). }
    destruct (Peek pc k) as [val|] eqn:Hk; [|by apply Hskip].
    destruct (ptr_type val) as [t|] eqn:Hpt.
    + destruct (decide (t = TOtherPtr)) as [Ht|Ht]; [by apply Hskip|].
      destruct (decodeRecord (EncodeBytesItem val h).1 t) as [r|e] eqn:Hdec; [|done].
      destruct (IH _ _ _ _ _ _ Hrun) as (Hp1 & Hl1 & Hh1 & Hc1).
      rewrite length_app in Hl1. simpl in Hl1.
      assert (Hh : ∀ a, (a < length h)%nat → h' !! a = h !! a).
      { intros a Ha. rewrite Hh1 by (rewrite length_app; simpl; lia).
        by rewrite lookup_app_l. }
      split; [intros k0; by rewrite Hp1|]. split; [lia|]. split; [done|].
      intros ck v Hv. destruct (Hc1 ck v Hv) as [Hadd|Hi].
      * apply Peek_Add_inv in Hadd as [[-> ->]|[_ ?]]; [right|by left].
        simpl. split; [done|]. split; [lia|]. exists val. split; [done|]. split; [done|].
        intros _. exists r. split; [done|].
        rewrite Hh1 by (rewrite length_app; simpl; lia).
        rewrite lookup_app_r by lia. by rewrite Nat.sub_diag.
      * right. apply (inherited_weaken pc pc1 h (h ++ [r]) h'); try done.
        -- rewrite length_app. lia.
        -- intros a Ha. by rewrite lookup_app_l.
    + destruct (IH _ _ _ _ _ _ Hrun) as (Hp1 & Hl1 & Hh1 & Hc1).
      split; [intros k0; by rewrite Hp1|]. split; [done|]. split; [done|].
      intros ck v Hv. destruct (Hc1 ck v Hv) as [Hadd|Hi].
      * apply Peek_Add_inv in Hadd as [[-> ->]|[_ ?]]; [right|by left].
        by destruct val.
      * right. by apply (inherited_weaken pc pc1 h h h').
Qed.

(** The loop fails when the encoding of a pointer of the parent cannot be
    decoded. *)
Lemma inherit_fails x p keys : ∀ pc ch h0 h (ck : string) (v0 : value) t e,
  (length h0 ≤ length h)%nat → (∀ a, (a < length h0)%nat → h !! a = h0 !! a) →
  ck ∈ keys → Peek pc ck = Some v0 → ptr_type v0 = Some t → t ≠ TOtherPtr →
  valid_in h0 v0 → decodeRecord (EncodeBytesItem v0 h0).1 t = inr e →
  ∃ e', (inherit x p keys pc ch h).2 = Some (ErrCantInherit x p e').
Proof.
  induction keys as [|k keys IH];
    intros pc ch h0 h ck v0 t e Hlen Hpre Hin Hck Hpt Ht Hv0 Hdec.
  - by apply elem_of_nil in Hin.
  - rewrite inherit_cons.
    pose proof (Peek_lru_Get pc k) as Hpk. pose proof (lru_Get_result pc k) as Hres.
    destruct (lru_Get pc k) as [pc1 o]. simpl in Hpk, Hres. subst o.
    assert (Hh0 : EncodeBytesItem v0 h = EncodeBytesItem v0 h0)
      by (by apply EncodeBytesItem_prefix).
    destruct (decide (ck = k)) as [->|Hne].
    + rewrite Hck, Hpt, decide_False by done. rewrite Hh0, Hdec. by eexists.
    + assert (Hin' : ck ∈ keys).
      { apply elem_of_cons in Hin as [?|?]; [done|done]. }
      assert (Hck' : Peek pc1 ck = Some v0) by (by rewrite Hpk).
      destruct (Peek pc k) as [val|]; [|by eapply IH].
      destruct (ptr_type val) as [t1|]; [|by eapply IH].
      destruct (decide (t1 = TOtherPtr)); [by eapply IH|].
      destruct (decodeRecord (EncodeBytesItem val h).1 t1) as [r|e1].
      * eapply (IH _ _ h0); try done.
        -- rewrite length_app. lia.
        -- intros a Ha. rewrite lookup_app_l by lia. by apply Hpre.
      * by eexists.
Qed.

(** Adding to a cache that is not full evicts nothing. *)
Lemma Peek_Add_room (c : Cache value) k v k' :
  Z.of_nat (length (items c)) < Z.pos (size c) → k' ≠ k →
  Peek (Add c k v) k' = Peek c k'.
Proof.
  intros Hroom Hne. unfold Add, Peek. destruct (find k (items c)) eqn:Hf.
  - simpl. rewrite decide_False by done. by apply find_remove_ne.
  - destruct (Z.pos (size c) <? _) eqn:Hlt.
    + apply Z.ltb_lt in Hlt. simpl in Hlt. lia.
    + simpl. by rewrite decide_False.
Qed.

Lemma length_remove (k : string) (l : list (string * value)) :
  (length (remove k l) ≤ length l)%nat.
Proof.
  induction l as [|[k0 v0] l IH]; [done|]. simpl.
  destruct (decide (k0 = k)); simpl; lia.
Qed.

Lemma length_Add (c : Cache value) k v :
  (length (items (Add c k v)) ≤ S (length (items c)))%nat ∧ size (Add c k v) = size c.
Proof.
  unfold Add. destruct (find k (items c)).
  - simpl. pose proof (length_remove k (items c)). split; [lia|done].
  - destruct (Z.pos (size c) <? _); cbn [items size]; [|simpl; split; [lia|done]].
    split; [|done]. rewrite removelast_firstn_len, length_take. simpl. lia.
Qed.

(** The loop, when the new cache has room for every key of the list and the
    loop ends without error: a key outside the list keeps its binding in the
    new cache; a key of the list gets the parent's value when that is not a
    pointer, a pointer of the same type when it is a pointer (nil or not) to
    one of the five record types, and keeps what it had when it is any other
    pointer. *)
Lemma inherit_complete x p keys : ∀ pc ch h pc' ch' h',
  Z.of_nat (length (items ch)) + Z.of_nat (length keys) ≤ Z.pos (size ch) →
  inherit x p keys pc ch h = ((pc', ch', h'), None) →
  (∀ ck, ck ∉ keys → Peek ch' ck = Peek ch ck)
  ∧ (∀ ck v, ck ∈ keys → Peek pc ck = Some v →
       match ptr_type v with
       | Some t =>
           if decide (t = TOtherPtr) then Peek ch' ck = Peek ch ck
           else ∃ a, Peek ch' ck = Some (VPtr t a)
       | None => Peek ch' ck = Some v
       end).
Proof.
  induction keys as [|k keys IH]; intros pc ch h pc' ch' h' Hroom Hrun.
  - injection Hrun as <- <- <-. split; [done|]. intros ck v Hin. by apply elem_of_nil in Hin.
  - rewrite inherit_cons in Hrun. simpl in Hroom.
    pose proof (Peek_lru_Get pc k) as Hpk. pose proof (lru_Get_result pc k) as Hres.
    destruct (lru_Get pc k) as [pc1 o]. simpl in Hpk, Hres. subst o.
    assert (Hgen : ∀ ch1 h1,
      (Z.of_nat (length (items ch1)) ≤ Z.of_nat (length (items ch)) + 1) →
      size ch1 = size ch →
      (∀ ck, ck ≠ k → Peek ch1 ck = Peek ch ck) →
      match Peek pc k with
      | Some v =>
          match ptr_type v with
          | Some t =>
              if decide (t = TOtherPtr) then Peek ch1 k = Peek ch k
              else ∃ a, Peek ch1 k = Some (VPtr t a)
          | None => Peek ch1 k = Some v
          end
      | None => True
      end →
      inherit x p keys pc1 ch1 h1 = (pc', ch', h', None) →
      (∀ ck, ck ∉ k :: keys → Peek ch' ck = Peek ch ck)
      ∧ (∀ ck v, ck ∈ k :: keys → Peek pc ck = Some v →
           match ptr_type v with
           | Some t =>
               if decide (t = TOtherPtr) then Peek ch' ck = Peek ch ck
               else ∃ a, Peek ch' ck = Some (VPtr t a)
           | None => Peek ch' ck = Some v
           end)).
    { intros ch1 h1 Hlen Hsize Hother Hk Hrun1.
      destruct (IH pc1 ch1 h1 pc' ch' h') as [HA HB]; [rewrite Hsize; lia|done|].
      split.
      - intros ck Hnot. apply not_elem_of_cons in Hnot as [Hne Hnot].
        rewrite (HA ck Hnot). by apply Hother.
      - intros ck v Hin Hv. destruct (decide (ck ∈ keys)) as [Hk'|Hk'].
        + specialize (HB ck v Hk'). rewrite Hpk in HB. specialize (HB Hv).
          destruct (ptr_type v) as [t|] eqn:Hpt; [|done].
          destruct (decide (t = TOtherPtr)) as [Ht|Ht]; [|done].
          rewrite HB. destruct (decide (ck = k)) as [->|Hne]; [|by apply Hother].
          rewrite Hv, Hpt in Hk. by rewrite decide_True in Hk.
        + apply elem_of_cons in Hin as [->|?]; [|done].
          rewrite (HA k Hk'). by rewrite Hv in Hk. }
    destruct (Peek pc k) as [val|] eqn:Hk; [|apply (Hgen ch h); try done; lia].
    destruct (ptr_type val) as [t|] eqn:Hpt.
    + destruct (decide (t = TOtherPtr)) as [Ht|Ht]; [apply (Hgen ch h); try done; lia|].
      destruct (decodeRecord (EncodeBytesItem val h).1 t) as [r|e]; [|done].
      apply (Hgen (Add ch k (VPtr t (length h))) (h ++ [r])); try done.
      * destruct (length_Add ch k (VPtr t (length h))). lia.
      * apply length_Add.
      * intros ck Hne. apply Peek_Add_room; [lia|done].
      * eexists. apply Peek_Add_eq.
    + apply (Hgen (Add ch k val) h); try done.
      * destruct (length_Add ch k val). lia.
      * apply length_Add.
      * intros ck Hne. apply Peek_Add_room; [lia|done].
      * apply Peek_Add_eq.
Qed.

(** The loop gives every key a struct of its own: when the pointers of the new
    cache are to structs of the heap and no two of its keys share one, the
    same holds when the loop has ended. *)
Lemma inherit_distinct x p keys : ∀ pc ch h pc' ch' h',
  (∀ ck t a, Peek ch ck = Some (VPtr t a) → (a < length h)%nat) →
  (∀ ck1 ck2 t1 t2 a,
     Peek ch ck1 = Some (VPtr t1 a) → Peek ch ck2 = Some (VPtr t2 a) → ck1 = ck2) →
  inherit x p keys pc ch h = ((pc', ch', h'), None) →
  ∀ ck1 ck2 t1 t2 a,
    Peek ch' ck1 = Some (VPtr t1 a) → Peek ch' ck2 = Some (VPtr t2 a) → ck1 = ck2.
Proof.
  induction keys as [|k keys IH]; intros pc ch h pc' ch' h' Hin Hinj Hrun.
  - by injection Hrun as <- <- <-.
  - rewrite inherit_cons in Hrun. destruct (lru_Get pc k) as [pc1 [val|]];
      [|by eapply IH].
    destruct (ptr_type val) as [t|] eqn:Hpt.
    + destruct (decide (t = TOtherPtr)); [by eapply IH|].
      destruct (decodeRecord (EncodeBytesItem val h).1 t) as [r|e]; [|done].
      apply (IH pc1 (Add ch k (VPtr t (length h))) (h ++ [r]) pc' ch' h'); [| |exact Hrun].
      * intros ck t0 a Hp. rewrite length_app. simpl.
        apply Peek_Add_inv in Hp as [[_ [= _ <-]]|[_ Hp]]; [lia|].
        specialize (Hin _ _ _ Hp). lia.
      * intros ck1 ck2 t1 t2 a H1 H2.
        apply Peek_Add_inv in H1 as [[-> H1]|[_ H1]];
          apply Peek_Add_inv in H2 as [[-> H2]|[_ H2]]; try done.
        -- injection H1 as _ ->. specialize (Hin _ _ _ H2). lia.
        -- injection H2 as _ ->. specialize (Hin _ _ _ H1). lia.
        -- by eapply Hinj.
    + apply (IH pc1 (Add ch k val) h pc' ch' h'); [| |exact Hrun].
      * intros ck t0 a Hp.
        apply Peek_Add_inv in Hp as [[_ Heq]|[_ Hp]]; [by subst val|by eapply Hin].
      * intros ck1 ck2 t1 t2 a H1 H2.
        apply Peek_Add_inv in H1 as [[-> H1]|[_ H1]];
          apply Peek_Add_inv in H2 as [[-> H2]|[_ H2]]; try done.
        -- by subst val.
        -- by subst val.
        -- by eapply Hinj.
Qed.

Lemma evict_oldest_lookup_Some d (k : Hash) c :
  dryRunCaches (evict_oldest d) !! k = Some c → dryRunCaches d !! k = Some c.
Proof.
  unfold evict_oldest. destruct (dryrunCacheLimit <=? _); [|done].
  destruct (recentCaches d) as [|o later]; [done|]. simpl.
  destruct (decide (o = k)) as [->|Hne].
  - by rewrite lookup_delete_eq.
  - by rewrite lookup_delete_ne.
Qed.

(** A call leaves the overlays other than its own and its parent's as the
    eviction left them. *)
Lemma InitDryRunMode_frame d h x p (k : Hash) :
  k ≠ x → k ≠ p →
  dryRunCaches (InitDryRunMode d h x p).1.1 !! k = dryRunCaches (evict_oldest d) !! k.
Proof.
  intros Hx Hp. unfold InitDryRunMode. cbv zeta. generalize (evict_oldest d). intros d1.
  assert (Hsub : dryRunCaches (DropDryrunCache d1 x) !! k = dryRunCaches d1 !! k).
  { simpl. by rewrite lookup_delete_ne. }
  revert Hsub. generalize (DropDryrunCache d1 x). intros d2 Hsub.
  assert (Hreg : ∀ d' c, dryRunCaches (register_cache d' x c) !! k = dryRunCaches d' !! k).
  { intros d' c. unfold register_cache.
    destruct (decide (x ≠ M1DryrunCacheHash)); simpl; by rewrite lookup_insert_ne. }
  destruct (lru_New (cacheLimit d2)) as [fresh|err]; [|done].
  destruct (decide (p ≠ zeroHash)) as [Hp0|Hp0]; [|cbn [fst snd]; by rewrite Hreg].
  destruct (dryRunCaches d2 !! p) as [pc|] eqn:Hpc; [|done].
  destruct (0 <? Len pc); [|done].
  destruct (inherit x p (Keys pc) pc fresh h) as [[[pc' ch] h'] [err|]]; cbn [fst snd].
  - simpl. by rewrite lookup_insert_ne.
  - rewrite Hreg. simpl. by rewrite lookup_insert_ne.
Qed.

(** A call with a parent that succeeds ran the loop over the parent as the
    registry held it, starting from an empty cache. *)
Lemma InitDryRunMode_inherits d h x p s :
  p ≠ zeroHash → InitDryRunMode d h x p = (s, None) →
  p ≠ x ∧ ∃ parent fresh pc' child,
    dryRunCaches d !! p = Some parent
    ∧ items fresh = []
    ∧ inherit x p (Keys parent) parent fresh h = ((pc', child, s.2), None)
    ∧ dryRunCaches s.1 !! x = Some child.
Proof.
  intros Hp0. unfold InitDryRunMode. cbv zeta.
  assert (Hsub : ∀ c, dryRunCaches (DropDryrunCache (evict_oldest d) x) !! p = Some c →
                      p ≠ x ∧ dryRunCaches d !! p = Some c).
  { intros c. simpl. destruct (decide (x = p)) as [->|Hne].
    - by rewrite lookup_delete_eq.
    - rewrite lookup_delete_ne by done. intros Hc. split; [done|].
      by apply evict_oldest_lookup_Some. }
  revert Hsub. generalize (DropDryrunCache (evict_oldest d) x). intros d2 Hsub.
  assert (Hreg : ∀ d' c, dryRunCaches (register_cache d' x c) !! x = Some c).
  { intros d' c. unfold register_cache.
    destruct (decide (x ≠ M1DryrunCacheHash)); simpl; by rewrite lookup_insert_eq. }
  destruct (lru_New (cacheLimit d2)) as [fresh|err] eqn:Hnew; [|done].
  assert (Hfresh : items fresh = []).
  { unfold lru_New in Hnew. destruct (cacheLimit d2); try done. by injection Hnew as <-. }
  rewrite decide_True by done.
  destruct (dryRunCaches d2 !! p) as [pc|] eqn:Hpc; [|done].
  destruct (Hsub pc eq_refl) as [Hpx Hd].
  destruct (0 <? Len pc); [|done].
  destruct (inherit x p (Keys pc) pc fresh h) as [[[pc' ch] h'] [err|]] eqn:Hrun; [done|].
  intros [= <-]. cbn [fst snd]. split; [done|].
  exists pc, fresh, pc', ch. by rewrite Hreg.
Qed.

(** A staged read looks at the overlay of its hash, at the store and at the
    empty key, and at nothing else of the database. *)
Lemma Has_staged_ext d d' (key : slice) x :
  emptyKey d' = emptyKey d → db d' = db d → dryRunCaches d' !! x = dryRunCaches d !! x →
  (Has d' key true x).2 = (Has d key true x).2.
Proof.
  intros He Hdb Hc. unfold Has, IsEmptyKey. rewrite He, Hc, Hdb.
  destruct (_ || _); [done|].
  destruct (dryRunCaches d !! x) as [c|]; [|done].
  destruct (0 <? Len c); [|done].
  destruct (lru_Get c (getCacheKey key)) as [c' [v|]]; [|done]. by destruct v.
Qed.

Lemma Get_staged_ext d d' h (key : slice) (val : value) x :
  emptyKey d' = emptyKey d → db d' = db d → dryRunCaches d' !! x = dryRunCaches d !! x →
  (Get d' h key val true x).2 = (Get d h key val true x).2
  ∧ (Get d' h key val true x).1.2 = (Get d h key val true x).1.2.
Proof.
  intros He Hdb Hc. unfold Get, IsEmptyKey. rewrite He, Hc.
  destruct (_ || _); [done|].
  assert (Hrest : (read_through d' h key val true).2 = (read_through d h key val true).2
                  ∧ (read_through d' h key val true).1.2 = (read_through d h key val true).1.2).
  { rewrite !read_through_staged. unfold read_store. by rewrite Hdb. }
  destruct (dryRunCaches d !! x) as [c|]; [|exact Hrest].
  destruct (0 <? Len c); [|exact Hrest].
  destruct (lru_Get c (getCacheKey key)) as [c' [v|]]; [done|exact Hrest].
Qed.

End InheritFacts.

Section IsolationClaims.
Context `{Tomox}.
Implicit Types (d : BatchDatabase) (h : heap) (x p : Hash) (k ck : string).

Lemma staged_write_frame d d' (K : slice) (v : value) h x2 :
  emptyKey d' = emptyKey d → db d' = db d → dryRunCaches d' !! x2 = dryRunCaches d !! x2 →
  dryRunCaches d' !! x2 = dryRunCaches d !! x2
  ∧ (Has d' K true x2).2 = (Has d K true x2).2
  ∧ (Get d' h K v true x2).2 = (Get d h K v true x2).2
  ∧ (Get d' h K v true x2).1.2 = (Get d h K v true x2).1.2.
Proof.
  intros He Hdb Hc. split; [done|]. split; [by apply Has_staged_ext|].
  by apply Get_staged_ext.
Qed.

(** A call with a parent that succeeds started the loop from an empty cache
    of [cacheLimit] entries. *)
Lemma InitDryRunMode_inherits_room d h x p s :
  p ≠ zeroHash → InitDryRunMode d h x p = (s, None) →
  ∃ parent fresh pc' child,
    dryRunCaches d !! p = Some parent
    ∧ items fresh = [] ∧ Z.pos (size fresh) = cacheLimit d
    ∧ inherit x p (Keys parent) parent fresh h = ((pc', child, s.2), None)
    ∧ dryRunCaches s.1 !! x = Some child.
Proof.
  intros Hp0. unfold InitDryRunMode. cbv zeta.
  assert (Hsub : ∀ c, dryRunCaches (DropDryrunCache (evict_oldest d) x) !! p = Some c →
                      dryRunCaches d !! p = Some c).
  { intros c. simpl. destruct (decide (x = p)) as [->|Hne].
    - by rewrite lookup_delete_eq.
    - rewrite lookup_delete_ne by done. apply evict_oldest_lookup_Some. }
  assert (Hl : cacheLimit (DropDryrunCache (evict_oldest d) x) = cacheLimit d).
  { unfold evict_oldest. destruct (dryrunCacheLimit <=? _); [|done].
    by destruct (recentCaches d). }
  revert Hsub Hl. generalize (DropDryrunCache (evict_oldest d) x). intros d2 Hsub Hl.
  assert (Hreg : ∀ d' c, dryRunCaches (register_cache d' x c) !! x = Some c).
  { intros d' c. unfold register_cache.
    destruct (decide (x ≠ M1DryrunCacheHash)); simpl; by rewrite lookup_insert_eq. }
  rewrite Hl. destruct (cacheLimit d) as [|n|n]; try done. simpl.
  rewrite decide_True by done.
  destruct (dryRunCaches d2 !! p) as [pc|] eqn:Hpc; [|done].
  pose proof (Hsub pc eq_refl) as Hd.
  destruct (0 <? Len pc); [|done].
  destruct (inherit x p (Keys pc) pc (mkCache n []) h) as [[[pc' ch] h'] [err|]] eqn:Hrun;
    [done|].
  intros [= <-]. cbn [fst snd]. exists pc, (mkCache n []), pc', ch. by rewrite Hreg.
Qed.

(** A write to a struct leaves the encoding of a value that is not a pointer
    to it as it was. *)
Lemma EncodeBytesItem_insert_ne (v : value) h a (r : record) :
  (∀ t, v ≠ VPtr t a) → EncodeBytesItem v (<[a:=r]> h) = EncodeBytesItem v h.
Proof.
  intros Hne. destruct v as [|t a0|pl|t]; try done. simpl.
  rewrite list_lookup_insert_ne; [done|]. intros ->. by apply (Hne t).
Qed.

(** C4. An overlay initialised from a parent holds what the parent holds and
    nothing else. For every pointer (nil or not) to one of the five record
    types in the parent it holds, under the same key, a pointer to a struct of
    its own: allocated by the call, decoded from the encoding of the parent's
    value, and shared with no other key; every value of the parent that is not
    a pointer it holds as it is (given that the parent has no more entries
    than the cache limit, so that nothing is evicted; a pointer of another
    type is not inherited). The structs that existed are not written, and a
    later write to a struct of the new overlay leaves the encoding of every
    value of the parent as it was. When the encoding of a pointer of the
    parent cannot be decoded the call fails with the "can't inherit" error
    and registers nothing. Two overlays initialised one after the other from
    the same parent share no struct, so a write to a struct of one leaves the
    encoding of every value of the other as it was. And a staged put or delete
    on one overlay leaves the overlay of any other hash, and what [Has] and
    [Get] return for it and write to the heap, as they were. *)
Theorem C4_overlay_isolation :
  (∀ d h x p s, p ≠ zeroHash → InitDryRunMode d h x p = (s, None) →
     ∃ parent child,
       dryRunCaches d !! p = Some parent ∧ dryRunCaches s.1 !! x = Some child
       ∧ (length h ≤ length s.2)%nat
       ∧ (∀ a, (a < length h)%nat → s.2 !! a = h !! a)
       ∧ (∀ ck v, Peek child ck = Some v → inherited parent h s.2 ck v)
       ∧ (∀ ck1 ck2 t1 t2 a,
            Peek child ck1 = Some (VPtr t1 a) → Peek child ck2 = Some (VPtr t2 a) → ck1 = ck2)
       ∧ (Z.of_nat (length (items parent)) ≤ cacheLimit d →
          ∀ ck v, Peek parent ck = Some v →
            match ptr_type v with
            | Some t =>
                if decide (t = TOtherPtr) then Peek child ck = None
                else ∃ a, Peek child ck = Some (VPtr t a)
            | None => Peek child ck = Some v
            end)
       ∧ (∀ ck t a (r : record) ck0 v0,
            Peek child ck = Some (VPtr t a) → Peek parent ck0 = Some v0 → valid_in h v0 →
            EncodeBytesItem v0 (<[a:=r]> s.2) = EncodeBytesItem v0 h))
  ∧ (∀ d h x p parent ck (v0 : value) t e,
       p ≠ zeroHash → p ≠ x → 0 < cacheLimit d →
       dryRunCaches (evict_oldest d) !! p = Some parent →
       Peek parent ck = Some v0 → ptr_type v0 = Some t → t ≠ TOtherPtr → valid_in h v0 →
       decodeRecord (EncodeBytesItem v0 h).1 t = inr e →
       (∃ e', (InitDryRunMode d h x p).2 = Some (ErrCantInherit x p e'))
       ∧ dryRunCaches (InitDryRunMode d h x p).1.1 !! x = None)
  ∧ (∀ d h x1 x2 p s1 s2, p ≠ zeroHash → x1 ≠ x2 →
       InitDryRunMode d h x1 p = (s1, None) →
       InitDryRunMode s1.1 s1.2 x2 p = (s2, None) →
       ∀ c1 c2,
         dryRunCaches s2.1 !! x1 = Some c1 → dryRunCaches s2.1 !! x2 = Some c2 →
         (∀ ck1 ck2 t1 t2 a1 a2,
            Peek c1 ck1 = Some (VPtr t1 a1) → Peek c2 ck2 = Some (VPtr t2 a2) → a1 ≠ a2)
         ∧ (∀ ck1 t1 a1 (r : record) ck2 v2,
              Peek c1 ck1 = Some (VPtr t1 a1) → Peek c2 ck2 = Some v2 →
              EncodeBytesItem v2 (<[a1:=r]> s2.2) = EncodeBytesItem v2 s2.2)
         ∧ (∀ ck2 t2 a2 (r : record) ck1 v1,
              Peek c2 ck2 = Some (VPtr t2 a2) → Peek c1 ck1 = Some v1 →
              EncodeBytesItem v1 (<[a2:=r]> s2.2) = EncodeBytesItem v1 s2.2))
  ∧ (∀ d h x1 x2 (key K : slice) (val v : value), x1 ≠ x2 →
       let dp := (Put d h key val true x1).1 in
       let dd := (Delete d key true x1).1 in
       (dryRunCaches dp !! x2 = dryRunCaches d !! x2
        ∧ (Has dp K true x2).2 = (Has d K true x2).2
        ∧ (Get dp h K v true x2).2 = (Get d h K v true x2).2
        ∧ (Get dp h K v true x2).1.2 = (Get d h K v true x2).1.2)
       ∧ (dryRunCaches dd !! x2 = dryRunCaches d !! x2
          ∧ (Has dd K true x2).2 = (Has d K true x2).2
          ∧ (Get dd h K v true x2).2 = (Get d h K v true x2).2
          ∧ (Get dd h K v true x2).1.2 = (Get d h K v true x2).1.2)).
Proof.
  assert (Hclone : ∀ d h x p s, p ≠ zeroHash → InitDryRunMode d h x p = (s, None) →
     ∃ parent child,
       dryRunCaches d !! p = Some parent ∧ dryRunCaches s.1 !! x = Some child
       ∧ (length h ≤ length s.2)%nat
       ∧ (∀ a, (a < length h)%nat → s.2 !! a = h !! a)
       ∧ ∀ ck v, Peek child ck = Some v → inherited parent h s.2 ck v).
  { intros d h x p s Hp Hinit.
    destruct (InitDryRunMode_inherits d h x p s Hp Hinit)
      as (_ & parent & fresh & pc' & child & Hpar & Hfresh & Hrun & Hchild).
    destruct (inherit_ok _ _ _ _ _ _ _ _ _ Hrun) as (_ & Hlen & Hpre & Hch).
    exists parent, child. repeat split; try done.
    intros ck v Hv. destruct (Hch ck v Hv) as [Habs|?]; [|done].
    unfold Peek in Habs. by rewrite Hfresh in Habs. }
  assert (Hapart : ∀ d h x1 x2 p s1 s2, p ≠ zeroHash → x1 ≠ x2 →
       InitDryRunMode d h x1 p = (s1, None) →
       InitDryRunMode s1.1 s1.2 x2 p = (s2, None) →
       ∀ c1 c2 ck1 ck2 t1 t2 a1 a2,
         dryRunCaches s2.1 !! x1 = Some c1 → dryRunCaches s2.1 !! x2 = Some c2 →
         Peek c1 ck1 = Some (VPtr t1 a1) → Peek c2 ck2 = Some (VPtr t2 a2) → a1 ≠ a2).
  { intros d h x1 x2 p s1 s2 Hp Hx Hinit1 Hinit2 c1 c2 ck1 ck2 t1 t2 a1 a2 Hc1 Hc2 Hp1 Hp2.
    destruct (InitDryRunMode_inherits d h x1 p s1 Hp Hinit1) as (Hpx1 & _).
    destruct (Hclone _ _ _ _ _ Hp Hinit1) as (par1 & ch1 & _ & Hch1 & _ & _ & Hin1).
    destruct (Hclone _ _ _ _ _ Hp Hinit2) as (par2 & ch2 & _ & Hch2 & _ & _ & Hin2).
    assert (Hc1' : dryRunCaches s1.1 !! x1 = Some c1).
    { apply evict_oldest_lookup_Some.
      rewrite <- (InitDryRunMode_frame s1.1 s1.2 x2 p x1) by done. by rewrite Hinit2. }
    assert (c1 = ch1) as -> by congruence. assert (c2 = ch2) as -> by congruence.
    destruct (Hin1 _ _ Hp1) as (_ & Ha1 & _). destruct (Hin2 _ _ Hp2) as (_ & Ha2 & _). lia. }
  split; [|split; [|split]].
  - intros d h x p s Hp Hinit.
    destruct (InitDryRunMode_inherits_room d h x p s Hp Hinit)
      as (parent & fresh & pc' & child & Hpar & Hfresh & Hsize & Hrun & Hchild).
    destruct (Hclone d h x p s Hp Hinit)
      as (parent' & child' & Hpar' & Hchild' & Hlen & Hpre & Hback).
    assert (parent' = parent) as -> by congruence.
    assert (child' = child) as -> by congruence.
    exists parent, child. do 5 (split; [done|]). split; [|split].
    + apply (inherit_distinct x p (Keys parent) parent fresh h pc' child s.2);
        [| |done]; intros *; unfold Peek; by rewrite Hfresh.
    + intros Hroom ck v Hv.
      destruct (inherit_complete x p (Keys parent) parent fresh h pc' child s.2)
        as [_ HB]; [|done|].
      { rewrite Hfresh, Hsize. simpl. unfold Keys. rewrite length_rev, length_map. lia. }
      specialize (HB ck v (find_Some_Keys _ _ _ Hv) Hv).
      unfold Peek in HB at 2. by rewrite Hfresh in HB.
    + intros ck t a r ck0 v0 Hck Hv0 Hvalid.
      destruct (Hback _ _ Hck) as (_ & Ha & _).
      rewrite EncodeBytesItem_insert_ne.
      * by apply EncodeBytesItem_prefix.
      * intros t0 ->. simpl in Hvalid. lia.
  - intros d h x p parent ck v0 t e Hp Hpx Hlimit Hpar Hck Hpt Ht Hvalid Hdec.
    assert (Herr : ∃ e', (InitDryRunMode d h x p).2 = Some (ErrCantInherit x p e')).
    { unfold InitDryRunMode. cbv zeta.
      assert (Hl : cacheLimit (DropDryrunCache (evict_oldest d) x) = cacheLimit d).
      { unfold evict_oldest. destruct (dryrunCacheLimit <=? _); [|done].
        by destruct (recentCaches d). }
      assert (Hd2 : dryRunCaches (DropDryrunCache (evict_oldest d) x) !! p = Some parent).
      { simpl. by rewrite lookup_delete_ne. }
      revert Hl Hd2. generalize (DropDryrunCache (evict_oldest d) x). intros d2 Hl Hd2.
      rewrite Hl. destruct (cacheLimit d) as [|n|n]; try lia. simpl.
      rewrite decide_True by done. rewrite Hd2.
      assert (Hpos : (0 <? Len parent) = true)
        by (apply Z.ltb_lt; by eapply Peek_Some_Len).
      rewrite Hpos.
      destruct (inherit_fails x p (Keys parent) parent (mkCache n []) h h ck v0 t e)
        as [e' He']; try done.
      { by eapply find_Some_Keys. }
      destruct (inherit x p (Keys parent) parent (mkCache n []) h) as [[[pc' ch] h'] o].
      simpl in He'. subst o. by exists e'. }
    split; [done|]. destruct Herr as [e' He'].
    destruct (InitDryRunMode d h x p) as [s o] eqn:Hinit. simpl in He'. subst o.
    by destruct (InitDryRunMode_error _ _ _ _ _ _ Hinit) as (? & _).
  - intros d h x1 x2 p s1 s2 Hp Hx Hinit1 Hinit2 c1 c2 Hc1 Hc2.
    pose proof (Hapart d h x1 x2 p s1 s2 Hp Hx Hinit1 Hinit2 c1 c2) as Hne.
    split; [intros; by eapply Hne|]. split.
    + intros ck1 t1 a1 r ck2 v2 Hp1 Hp2. apply EncodeBytesItem_insert_ne.
      intros t2 ->. by apply (Hne ck1 ck2 t1 t2 a1 a1).
    + intros ck2 t2 a2 r ck1 v1 Hp2 Hp1. apply EncodeBytesItem_insert_ne.
      intros t1 ->. by apply (Hne ck1 ck2 t1 t2 a2 a2).
  - intros d h x1 x2 key K val v Hx dp dd. subst dp dd. unfold Put, Delete.
    destruct (dryRunCaches d !! x1) as [c|]; cbn [fst snd].
    + split; apply staged_write_frame; try done; simpl; by rewrite lookup_insert_ne.
    + split; by apply staged_write_frame.
Qed.

End IsolationClaims.

(** ** Promotion *)

Section PromotionFacts.
Context `{Tomox}.
Implicit Types (d : BatchDatabase) (h : heap) (x : Hash).

(** Promotion never touches the registry's set of overlays. *)
Lemma SaveDryRunResult_keeps_overlays d h x (k : Hash) :
  is_Some (dryRunCaches (SaveDryRunResult d h x).1 !! k) ↔ is_Some (dryRunCaches d !! k).
Proof.
  unfold SaveDryRunResult. destruct (dryRunCaches d !! x) as [c|] eqn:Hc; [|done].
  destruct (Len c =? 0); [done|].
  destruct (save_entries (Keys c) c (db d) [] h) as [[[c' l] b] [e|]]; cbn [fst snd].
  - simpl. destruct (decide (x = k)) as [<-|Hne].
    + rewrite lookup_insert_eq, Hc. split; by eexists.
    + by rewrite lookup_insert_ne.
  - destruct (batch_Write _ b) as [l' e']. simpl. destruct (decide (x = k)) as [<-|Hne].
    + rewrite lookup_insert_eq, Hc. split; by eexists.
    + by rewrite lookup_insert_ne.
Qed.

(** Once the loop over the entries has ended without error the hot cache is
    purged, whatever the write of the batch then returns. *)
Lemma SaveDryRunResult_purges d h x c :
  dryRunCaches d !! x = Some c → Len c ≠ 0 →
  (save_entries (Keys c) c (db d) [] h).2 = None →
  items (cacheItems (SaveDryRunResult d h x).1) = [].
Proof.
  intros Hc Hlen Hloop. unfold SaveDryRunResult. rewrite Hc.
  destruct (Len c =? 0) eqn:Hz; [apply Z.eqb_eq in Hz; done|].
  destruct (save_entries (Keys c) c (db d) [] h) as [[[c' l] b] o]. simpl in Hloop. subst o.
  by destruct (batch_Write _ b).
Qed.

Lemma apply_batch_snoc (b : Batch) (kv : list byte * list byte)
    (m : gmap (list byte) (list byte)) :
  apply_batch (b ++ [kv]) m = <[kv.1:=kv.2]> (apply_batch b m).
Proof. unfold apply_batch. by rewrite foldl_app. Qed.

Lemma apply_batch_lookup_other (b : Batch) (m : gmap (list byte) (list byte)) kb :
  (∀ y, (kb, y) ∉ b) → apply_batch b m !! kb = m !! kb.
Proof.
  induction b as [|[k v] b IH] using rev_ind; intros Hnot; [done|].
  rewrite apply_batch_snoc. simpl. destruct (decide (k = kb)) as [->|Hne].
  - destruct (Hnot v). apply elem_of_app. right. by left.
  - rewrite lookup_insert_ne by done. apply IH. intros y Hy.
    apply (Hnot y), elem_of_app. by left.
Qed.

Lemma apply_batch_lookup (b : Batch) (m : gmap (list byte) (list byte)) kb y :
  (kb, y) ∈ b → (∀ y', (kb, y') ∈ b → y' = y) → apply_batch b m !! kb = Some y.
Proof.
  induction b as [|[k v] b IH] using rev_ind; intros Hin Hall; [by apply elem_of_nil in Hin|].
  rewrite apply_batch_snoc. simpl. destruct (decide (k = kb)) as [->|Hne].
  - rewrite lookup_insert_eq. f_equal. apply Hall, elem_of_app. right. by left.
  - rewrite lookup_insert_ne by done. apply IH.
    + apply elem_of_app in Hin as [?|Hin]; [done|].
      apply list_elem_of_singleton in Hin. congruence.
    + intros y' Hy'. apply Hall, elem_of_app. by left.
Qed.

(** The loop on an open store, over keys that are hex strings of the overlay
    and values that can be encoded: it ends without error, the keys of the
    tombstones are deleted from the store at once and no other key of the
    store changes, and the batch receives one put for every live entry. *)
Lemma save_entries_ok h keys : ∀ (c : Cache value) (l : LDBDatabase) (batch : Batch),
  ldb_closed l = false →
  (∀ ck, ck ∈ keys → is_Some (Peek c ck) ∧ ∃ kb, ck = hex.EncodeToString kb) →
  (∀ ck v, Peek c ck = Some v → v ≠ VNil → (EncodeBytesItem v h).2 = None) →
  ∃ c' data' extra,
    save_entries keys c l batch h
      = ((c', mkStore data' false (ldb_batch_err l), batch ++ extra), None)
    ∧ (∀ k, Peek c' k = Peek c k)
    ∧ (∀ kb, hex.EncodeToString kb ∈ keys → Peek c (hex.EncodeToString kb) = Some VNil →
         data' !! kb = None)
    ∧ (∀ kb, ¬ (hex.EncodeToString kb ∈ keys ∧ Peek c (hex.EncodeToString kb) = Some VNil) →
         data' !! kb = ldb_data l !! kb)
    ∧ (∀ kb b, (kb, b) ∈ extra →
         ∃ v, Peek c (hex.EncodeToString kb) = Some v ∧ v ≠ VNil
              ∧ b = (EncodeBytesItem v h).1)
    ∧ (∀ kb v, hex.EncodeToString kb ∈ keys → Peek c (hex.EncodeToString kb) = Some v →
         v ≠ VNil → (kb, (EncodeBytesItem v h).1) ∈ extra).
Proof.
  induction keys as [|ck keys IH]; intros c l batch Hopen Hkeys Henc.
  - exists c, (ldb_data l), []. destruct l as [data closed fault]. simpl in Hopen. subst closed.
    rewrite app_nil_r. simpl. repeat split; try done.
    + intros kb Hin. by apply elem_of_nil in Hin.
    + intros kb b Hin. by apply elem_of_nil in Hin.
    + intros kb v Hin. by apply elem_of_nil in Hin.
  - destruct (Hkeys ck) as [[v Hv] [kb0 ->]]; [by left|].
    cbn [save_entries]. rewrite hex_roundtrip.
    pose proof (Peek_lru_Get c (hex.EncodeToString kb0)) as Hpk.
    pose proof (lru_Get_result c (hex.EncodeToString kb0)) as Hres.
    destruct (lru_Get c (hex.EncodeToString kb0)) as [c1 o]. simpl in Hpk, Hres. subst o.
    rewrite Hv.
    assert (Hkeys1 : ∀ ck, ck ∈ keys → is_Some (Peek c1 ck) ∧ ∃ kb, ck = hex.EncodeToString kb).
    { intros ck Hin. rewrite Hpk. apply Hkeys. by right. }
    assert (Henc1 : ∀ ck v, Peek c1 ck = Some v → v ≠ VNil → (EncodeBytesItem v h).2 = None).
    { intros ck v0. rewrite Hpk. apply Henc. }
    assert (Hcase : v = VNil ∨ v ≠ VNil) by (destruct v; [by left|by right..]).
    destruct Hcase as [->|Hlive].
    + unfold ldb_Delete. rewrite Hopen.
      destruct (IH c1 (mkStore (delete kb0 (ldb_data l)) false (ldb_batch_err l)) batch
                  eq_refl Hkeys1 Henc1)
        as (c' & data' & extra & Hrun & Hp & Htomb & Hother & Hex1 & Hex2).
      exists c', data', extra. split; [exact Hrun|].
      split; [intros k; by rewrite Hp|]. split; [|split; [|split]].
      * intros kb Hin Hnil. destruct (decide (hex.EncodeToString kb ∈ keys)) as [Hk|Hk].
        -- apply Htomb; [done|]. by rewrite Hpk.
        -- apply elem_of_cons in Hin as [Heq|?]; [|done]. apply hex_inj in Heq as ->.
           rewrite Hother by (intros [? _]; done). simpl. apply lookup_delete_eq.
      * intros kb Hnot. rewrite Hother.
        -- simpl. apply lookup_delete_ne. intros ->. apply Hnot. split; [by left|done].
        -- intros [Hin Hnil]. apply Hnot. split; [by right|]. by rewrite <- Hpk.
      * intros kb b Hin. destruct (Hex1 kb b Hin) as (v & Hpv & Hv' & Hb).
        exists v. by rewrite <- Hpk.
      * intros kb v Hin Hpv Hv'. apply elem_of_cons in Hin as [Heq|Hin].
        -- apply hex_inj in Heq as ->. congruence.
        -- apply Hex2; [done| |done]. by rewrite Hpk.
    + assert (Hb : (EncodeBytesItem v h).2 = None) by (by eapply Henc).
      destruct (EncodeBytesItem v h) as [b o] eqn:Hev. simpl in Hb. subst o.
      destruct (IH c1 l (batch ++ [(kb0, b)]) Hopen Hkeys1 Henc1)
        as (c' & data' & extra & Hrun & Hp & Htomb & Hother & Hex1 & Hex2).
      exists c', data', ((kb0, b) :: extra).
      split.
      { destruct v; try done; unfold batch_Put; rewrite Hrun;
          by rewrite <- app_assoc. }
      split; [intros k; by rewrite Hp|]. split; [|split; [|split]].
      * intros kb Hin Hnil. apply Htomb; [|by rewrite Hpk].
        apply elem_of_cons in Hin as [Heq|?]; [|done]. apply hex_inj in Heq as ->. congruence.
      * intros kb Hnot. apply Hother. intros [Hin Hnil]. apply Hnot.
        split; [by right|]. by rewrite <- Hpk.
      * intros kb b' Hin. apply elem_of_cons in Hin as [[= -> ->]|Hin].
        -- exists v. by rewrite Hev.
        -- destruct (Hex1 kb b' Hin) as (v' & Hpv & Hv' & Hb'). exists v'. by rewrite <- Hpk.
      * intros kb v' Hin Hpv Hv'. apply elem_of_cons in Hin as [Heq|Hin].
        -- apply hex_inj in Heq as ->. rewrite Hv in Hpv. injection Hpv as <-.
           rewrite Hev. by left.
        -- right. apply Hex2; [done| |done]. by rewrite Hpk.
Qed.

(** Promotion on an open store whose batch write does not fail, of an overlay
    whose keys are hex strings and whose live values can be encoded: no error;
    every key with a tombstone is
    absent from the store, every key with a live value holds its encoding,
    and every other key of the store is as before; the hot cache is empty;
    the overlay is registered with the bindings it had. *)
Lemma SaveDryRunResult_promotes d h x (c : Cache value) :
  ldb_closed (db d) = false → ldb_batch_err (db d) = None →
  dryRunCaches d !! x = Some c → Len c ≠ 0 →
  (∀ ck, ck ∈ Keys c → ∃ kb, ck = hex.EncodeToString kb) →
  (∀ ck v, Peek c ck = Some v → v ≠ VNil → (EncodeBytesItem v h).2 = None) →
  (SaveDryRunResult d h x).2 = None
  ∧ (∀ kb, Peek c (hex.EncodeToString kb) = Some VNil →
       ldb_data (db (SaveDryRunResult d h x).1) !! kb = None)
  ∧ (∀ kb v, Peek c (hex.EncodeToString kb) = Some v → v ≠ VNil →
       ldb_data (db (SaveDryRunResult d h x).1) !! kb = Some (EncodeBytesItem v h).1)
  ∧ (∀ kb, Peek c (hex.EncodeToString kb) = None →
       ldb_data (db (SaveDryRunResult d h x).1) !! kb = ldb_data (db d) !! kb)
  ∧ items (cacheItems (SaveDryRunResult d h x).1) = []
  ∧ ∃ c', dryRunCaches (SaveDryRunResult d h x).1 !! x = Some c'
          ∧ ∀ k, Peek c' k = Peek c k.
Proof.
  intros Hopen Hwrite Hc Hlen Hcanon Henc. unfold SaveDryRunResult. rewrite Hc.
  destruct (Len c =? 0) eqn:Hz; [apply Z.eqb_eq in Hz; done|].
  destruct (save_entries_ok h (Keys c) c (db d) [] Hopen)
    as (c' & data' & extra & Hrun & Hp & Htomb & Hother & Hex1 & Hex2); [|done|].
  { intros ck Hin. split; [by apply Keys_Peek|by apply Hcanon]. }
  rewrite Hrun, Hwrite. cbn [app]. unfold batch_Write. cbn.
  split; [done|]. split; [|split; [|split; [|split]]].
  - intros kb Hnil. rewrite apply_batch_lookup_other.
    + apply Htomb; [|done]. by eapply find_Some_Keys.
    + intros y Hy. destruct (Hex1 kb y Hy) as (v & Hv & Hlive & _). congruence.
  - intros kb v Hv Hlive. apply apply_batch_lookup.
    + apply Hex2; [|done|done]. by eapply find_Some_Keys.
    + intros y' Hy'. destruct (Hex1 kb y' Hy') as (v' & Hv' & _ & ->). congruence.
  - intros kb Hnone. rewrite apply_batch_lookup_other.
    + apply Hother. intros [_ ?]. congruence.
    + intros y Hy. destruct (Hex1 kb y Hy) as (v & Hv & _). congruence.
  - done.
  - exists c'. split; [apply lookup_insert_eq|done].
Qed.

End PromotionFacts.

(** C3. [SaveDryRunResult] purges the hot cache before it writes the batch:
    on a store whose write fails, here a closed one, the call returns the
    error of the write, the live entry of the overlay (key [61]) has not
    reached the store, and the hot cache, which held key [62], is empty. The
    overlay is still registered. *)
Theorem C3_purge_precedes_write :
  Peek (cacheItems closed_promotion_db) "62" = Some (VPlain [Byte.x09])
  ∧ (SaveDryRunResult closed_promotion_db one_record 5%N).2 = Some ErrClosed
  ∧ ldb_data (db (SaveDryRunResult closed_promotion_db one_record 5%N).1) !! [Byte.x61] = None
  ∧ items (cacheItems (SaveDryRunResult closed_promotion_db one_record 5%N).1) = []
  ∧ HasDryrunCache (SaveDryRunResult closed_promotion_db one_record 5%N).1 5%N = true.
Proof. vm_compute. repeat split. Qed.

(** ** The block validator *)

Section ValidatorFacts.
Context `{Collaborators}.

(** An error that [validateMatchedOrder] returns together with the order is
    lost when the order can be encoded: the loop records the order and goes
    on to the next transaction. *)
Lemma validate_txs_drops_late_error tomoXService currentState tx txs processedData
    s1 order e encodedOrderItem :
  IsMatchingTransaction tx = true →
  validateMatchedOrder tomoXService currentState tx = (s1, (Some order, None, Some e)) →
  EncodeOrderItem order = (encodedOrderItem, None) →
  validate_txs tomoXService currentState (tx :: txs) processedData =
  validate_txs s1 currentState txs (processedData ++ [(encodedOrderItem, None)]).
Proof. intros Hm Hv He. simpl. by rewrite Hm, Hv, He. Qed.

(** A transaction for which [validateMatchedOrder] returns the order adds one
    record to the list, the encoded order and the encoded price level (nil
    when there is none), and the loop goes on, whether an error came with the
    order or not. *)
Lemma validate_txs_records tomoXService currentState tx txs processedData
    s1 order ol err encodedOrderItem (encodedOrderList : slice) :
  IsMatchingTransaction tx = true →
  validateMatchedOrder tomoXService currentState tx = (s1, (Some order, ol, err)) →
  EncodeOrderItem order = (encodedOrderItem, None) →
  match ol with
  | Some ol => ∃ b, EncodeOrderList ol = (b, None) ∧ encodedOrderList = Some b
  | None => encodedOrderList = None
  end →
  validate_txs tomoXService currentState (tx :: txs) processedData =
  validate_txs s1 currentState txs (processedData ++ [(encodedOrderItem, encodedOrderList)]).
Proof.
  intros Hm Hv He Hol. simpl. rewrite Hm, Hv, He.
  destruct ol as [l|]; [destruct Hol as (b & -> & ->)|subst]; done.
Qed.

(** An error that comes without an order ends the loop with the records
    gathered so far. *)
Lemma validate_txs_early_error tomoXService currentState tx txs processedData s1 e :
  IsMatchingTransaction tx = true →
  validateMatchedOrder tomoXService currentState tx = (s1, (None, None, Some e)) →
  validate_txs tomoXService currentState (tx :: txs) processedData =
  (s1, processedData, Some e).
Proof. intros Hm Hv. simpl. by rewrite Hm, Hv. Qed.

(** When the loop ends with an error, the records gathered are handed to
    [Rollback]; the error returned is that of the loop when the rollback
    succeeds, and is built from the error of the rollback when it fails. *)
Lemma ValidateBody_rollback (v : BlockValidator) (block : Block) tomoXService currentState
    s1 processedData e :
  HasBlockAndState (bc v) (block_Hash block) (NumberU64 block) = false →
  HasBlockAndState (bc v) (block_ParentHash block) (u64 (NumberU64 block - 1)) = true →
  engine_VerifyUncles v (bc v) block = None →
  CalcUncleHash (Uncles block) = header_UncleHash block →
  DeriveSha (Transactions block) = header_TxHash block →
  engine_GetTomoXService v = Some tomoXService →
  State (bc v) = inl currentState →
  validate_txs tomoXService currentState (Transactions block) [] = (s1, processedData, Some e) →
  ValidateBody v block =
    (Some (Rollback s1 processedData).1,
     Some (match (Rollback s1 processedData).2 with
           | Some e' => ErrFailedRollback e'
           | None => e
           end)).
Proof.
  intros Hknown Hparent Huncles Huh Hth Hsvc Hstate Hloop. unfold ValidateBody.
  rewrite Hknown, Hparent, Huncles, Hsvc, Hstate, Hloop. simpl.
  rewrite decide_False by (intros Hne; by apply Hne).
  rewrite decide_False by (intros Hne; by apply Hne).
  by destruct (Rollback s1 processedData) as [s2 [e'|]].
Qed.

End ValidatorFacts.

(** C5. A block whose only transaction is a matching transaction with a
    wrong post-state digest: [validateMatchedOrder] returns the order with
    the "new state mismatch" error, and [ValidateBody] returns no error and
    never calls the rollback hook. When the failure is one that reaches the
    hook and the hook fails, the error returned is built from the error of the
    hook alone. *)
Theorem C5_late_failure_is_swallowed :
  (@validateMatchedOrder (logging_collaborators false) [] tt (true, [Byte.xff; Byte.x01])).2
    = (Some [Byte.xff; Byte.x01], None, Some (Collab "new state mismatch"))
  ∧ ValidateBody (logging_validator false) (block_of false [(true, [Byte.xff; Byte.x01])])
    = (Some [EvProcessOrder [Byte.xff; Byte.x01]; EvMarkProcessed 7%N], None)
  ∧ ValidateBody (logging_validator true)
      (block_of true [(true, [Byte.x01]); (true, [Byte.xfe; Byte.x01])])
    = (Some [EvProcessOrder [Byte.x01]; EvMarkProcessed 7%N; EvRollback [([Byte.x01], None)]],
       Some (ErrFailedRollback (Collab "rollback failed"))).
Proof. vm_compute. repeat split. Qed.

(** C8 (amended). For a parent whose gas limit is at least 1 and for which no
    64-bit intermediate value wraps around, [CalcGasLimit] returns the value
    of the recurrence computed in exact integers. For a gas limit of
    8,000,000 and 6,000,000 gas used, D = 7811, C = 8789 and the value before
    clamping is 8,000,978, which is the result when neither the minimum nor
    the target exceeds it. *)
Theorem C8_calc_gas_limit `{Collaborators} (params : Params) (parent : Block) :
  let gl := GasLimit parent in
  let gu := GasUsed parent in
  let D := gl / 1024 - 1 in
  let C := (gu * 3 / 2) / 1024 in
  1 ≤ gl < two64 → 0 ≤ gu < two64 →
  gu + gu / 2 < two64 → gl - D + C < two64 → gl + D < two64 →
  CalcGasLimit params parent = calc_gas_limit_spec params gl gu
  ∧ (gl = 8000000 → gu = 6000000 →
       D = 7811 ∧ C = 8789 ∧ gl - D + C = 8000978
       ∧ (MinGasLimit params ≤ 8000978 → TargetGasLimit params ≤ 8000978 →
            CalcGasLimit params parent = 8000978)).
Proof.
  intros gl gu D C Hgl Hgu Hc Hl Hd.
  assert (Hmain : CalcGasLimit params parent = calc_gas_limit_spec params gl gu).
  { unfold CalcGasLimit, calc_gas_limit_spec, GasLimitBoundDivisor, u64.
    fold gl gu. subst D C. clearbody gl gu. change two64 with 18446744073709551616 in *.
    assert (Hmul : gu * 3 / 2 = gu + gu / 2) by zlia.
    rewrite Hmul in *. rewrite (Z.mod_small (gu + gu / 2)) by zlia.
    set (decay := (gl / 1024 - 1) mod 18446744073709551616).
    assert (Hlimit : ((gl - decay) mod 18446744073709551616 + (gu + gu / 2) / 1024)
                       mod 18446744073709551616 = gl - (gl / 1024 - 1) + (gu + gu / 2) / 1024)
      by (subst decay; zlia).
    assert (Hgrow : (gl + decay) mod 18446744073709551616 = gl + (gl / 1024 - 1))
      by (subst decay; zlia).
    rewrite Hlimit, Hgrow.
    set (L := gl - (gl / 1024 - 1) + (gu + gu / 2) / 1024).
    assert (Hmax : (if L <? MinGasLimit params then MinGasLimit params else L)
                   = Z.max L (MinGasLimit params)).
    { destruct (L <? MinGasLimit params) eqn:Hlt;
        [apply Z.ltb_lt in Hlt|apply Z.ltb_ge in Hlt]; lia. }
    rewrite Hmax. destruct (Z.max L (MinGasLimit params) <? TargetGasLimit params); [|done].
    destruct (TargetGasLimit params <? gl + (gl / 1024 - 1)) eqn:Hlt;
      [apply Z.ltb_lt in Hlt|apply Z.ltb_ge in Hlt]; lia. }
  split; [done|]. intros Hgl8 Hgu6. subst D C. rewrite Hgl8, Hgu6.
  split; [done|]. split; [done|]. split; [done|].
  intros Hmin Htarget. rewrite Hmain. unfold calc_gas_limit_spec. rewrite Hgl8, Hgu6.
  change (8000000 - (8000000 / 1024 - 1) + 6000000 * 3 / 2 / 1024) with 8000978.
  rewrite Z.max_l by lia.
  destruct (8000978 <? TargetGasLimit params) eqn:Hlt; [apply Z.ltb_lt in Hlt; lia|done].
Qed.

(** * The claims on explicit inputs *)

(** The database the explicit inputs start from is the one the constructor
    returns for an empty store. *)
Example fresh_db_is_new :
  NewBatchDatabaseWithEncode (mkLDB ∅ false) zero32 0 = Some fresh_db.
Proof. reflexivity. Qed.

Lemma from_option_is_Some {A : Type} (o : option A) (dflt : A) :
  is_Some o → o = Some (from_option id dflt o).
Proof. by intros [x ->]. Qed.

(** C1, as stated, fails on the empty key: the store holds a record at the
    all-zero key and the overlay of hash 5 has no entry for it, yet the staged
    [Get] returns the nil value and no error, not the record and not the
    store's not-found error. And the staged [Get] of key [61] does reach the
    hot cache: its entry for the key moves to the front. *)
Lemma C1_counterexample :
  (∃ c, dryRunCaches sentinel_db !! 5%N = Some c ∧ Peek c (getCacheKey (Some zero32)) = None)
  ∧ ldb_Get (db sentinel_db) zero32 = inl [Byte.x01; Byte.x2a]
  ∧ decodeRecord [Byte.x01; Byte.x2a] TItem = inl [Byte.x2a]
  ∧ (Get sentinel_db one_record (Some zero32) (VPtr TItem 0) true 5%N).2 = (VNil, None)
  ∧ (Get sentinel_db one_record (Some zero32) (VPtr TItem 0) true 5%N).2
      ≠ (VPtr TItem 0, None)
  ∧ (Get sentinel_db one_record (Some zero32) (VPtr TItem 0) true 5%N).2
      ≠ (VNil, Some ErrNotFound)
  ∧ Keys (cacheItems two_key_db) = ["61"; "62"]
  ∧ Keys (cacheItems (Get two_key_db one_record key61 (VPtr TItem 0) true 5%N).1.1)
      = ["62"; "61"].
Proof.
  assert (Hget : (Get sentinel_db one_record (Some zero32) (VPtr TItem 0) true 5%N).2
                 = (VNil, None)) by (vm_compute; reflexivity).
  split; [eexists; split; vm_compute; reflexivity|].
  split; [vm_compute; reflexivity|]. split; [vm_compute; reflexivity|].
  split; [exact Hget|]. rewrite Hget.
  split; [discriminate|]. split; [discriminate|].
  split; vm_compute; reflexivity.
Qed.

Lemma C1_staged_read_falls_through_witness :
  (Get overlay_db one_record key62 (VPtr TItem 0) true 5%N).2 = (VNil, Some ErrNotFound)
  ∧ (Get overlay_db [[]] key61 (VPtr TItem 0) true 5%N).2 = (VPtr TItem 0, None)
  ∧ (Get overlay_db [[]] key61 (VPtr TItem 0) true 5%N).1.2 !! 0%nat = Some [Byte.x2a]
  ∧ (∀ k, Peek (cacheItems (Get overlay_db [[]] key61 (VPtr TItem 0) true 5%N).1.1) k
          = Peek (cacheItems overlay_db) k).
Proof.
  destruct (C1_staged_read_falls_through overlay_db one_record key62 (VPtr TItem 0) 5%N
              (mkCache 1024000 [])) as (Hnf & _);
    [vm_compute; reflexivity|vm_compute; reflexivity|vm_compute; reflexivity|].
  destruct (C1_staged_read_falls_through overlay_db [[]] key61 (VPtr TItem 0) 5%N
              (mkCache 1024000 [])) as (_ & Hok & _ & _ & _ & Hhot & _);
    [vm_compute; reflexivity|vm_compute; reflexivity|vm_compute; reflexivity|].
  split; [apply Hnf; vm_compute; reflexivity|].
  destruct (Hok [Byte.x01; Byte.x2a] TItem 0%nat [Byte.x2a]) as (Hv & _ & Hh);
    try (vm_compute; reflexivity); [by eexists|].
  split; [exact Hv|]. split; [exact Hh|exact Hhot].
Defined.

(** C2, as stated, fails: after the staged delete of key [61], which the
    store holds, [Get] returns the nil value with no error at all. *)
Lemma C2_counterexample :
  ldb_Get (db overlay_db) [Byte.x61] = inl [Byte.x01; Byte.x2a]
  ∧ (Delete overlay_db key61 true 5%N).2 = None
  ∧ (Get (Delete overlay_db key61 true 5%N).1 one_record key61 (VPtr TItem 0) true 5%N).2
      = (VNil, None)
  ∧ (Get (Delete overlay_db key61 true 5%N).1 one_record key61 (VPtr TItem 0) true 5%N).2.2
      ≠ Some ErrNotFound.
Proof.
  assert (Hget : (Get (Delete overlay_db key61 true 5%N).1 one_record key61 (VPtr TItem 0)
                    true 5%N).2 = (VNil, None)) by (vm_compute; reflexivity).
  split; [vm_compute; reflexivity|]. split; [vm_compute; reflexivity|].
  split; [exact Hget|]. rewrite Hget. discriminate.
Qed.

Lemma C2_tombstone_masks_witness :
  (Has (Delete overlay_db key61 true 5%N).1 key61 true 5%N).2 = (false, None)
  ∧ (Get (Delete overlay_db key61 true 5%N).1 one_record key61 (VPtr TItem 0) true 5%N).2
      = (VNil, None).
Proof.
  destruct (C2_tombstone_masks overlay_db one_record key61 (VPtr TItem 0) 5%N
              (mkCache 1024000 [])) as (_ & _ & Hhas & Hget & _);
    [vm_compute; reflexivity|vm_compute; reflexivity|].
  split; [exact Hhas|exact Hget].
Defined.

Lemma C7_staged_write_witness :
  Put overlay_db one_record key61 (VPtr TItem 0) true 9%N
    = (overlay_db, Some (ErrDryrunCacheNotFound 9%N))
  ∧ Delete overlay_db key61 true 9%N = (overlay_db, Some (ErrDryrunCacheNotFound 9%N))
  ∧ (Put overlay_db one_record key61 (VPtr TItem 0) true 5%N).2 = None
  ∧ db (Put overlay_db one_record key61 (VPtr TItem 0) true 5%N).1 = db overlay_db
  ∧ (Delete overlay_db key61 true 5%N).2 = None.
Proof.
  destruct (C7_staged_write overlay_db one_record key61 (VPtr TItem 0) 9%N) as [Hmiss _].
  destruct (C7_staged_write overlay_db one_record key61 (VPtr TItem 0) 5%N) as [_ Hhit].
  destruct Hmiss as [Hp Hd]; [vm_compute; reflexivity|].
  destruct (Hhit (mkCache 1024000 [])) as (H1 & _ & _ & H2 & _ & _ & H3 & _);
    [vm_compute; reflexivity|].
  split; [exact Hp|]. split; [exact Hd|]. split; [exact H1|]. split; [exact H2|exact H3].
Defined.

Lemma C9_empty_key_witness :
  Has promotion_db (Some zero32) true 5%N = (promotion_db, (false, None))
  ∧ Get promotion_db one_record None (VPtr TItem 0) false 5%N
      = ((promotion_db, one_record), (VNil, None))
  ∧ (∃ c', dryRunCaches (Put promotion_db one_record (Some []) (VPtr TItem 0) true 5%N).1
             !! 5%N = Some c' ∧ Peek c' (getCacheKey (Some [])) = Some (VPtr TItem 0))
  ∧ ldb_data (db (Put promotion_db one_record (Some zero32) (VPtr TItem 0) false 5%N).1)
      !! zero32 = Some [Byte.x01; Byte.x2a]
  ∧ ldb_data (db (Delete promotion_db None false 5%N).1) !! [] = None.
Proof.
  destruct (C9_empty_key promotion_db one_record (Some zero32) (VPtr TItem 0) true 5%N)
    as (Hhas & _ & _ & Hput & _); [right; right; vm_compute; reflexivity|].
  destruct (C9_empty_key promotion_db one_record None (VPtr TItem 0) false 5%N)
    as (_ & Hget & _ & _ & Hdel); [by left|].
  destruct (C9_empty_key promotion_db one_record (Some []) (VPtr TItem 0) true 5%N)
    as (_ & _ & Hstaged & _); [right; by left|].
  split; [exact Hhas|]. split; [exact Hget|].
  destruct (Hstaged (mkCache 1024000 [("61"%string, VPtr TItem 0)])) as (_ & Hc & _);
    [vm_compute; reflexivity|].
  split; [exact Hc|].
  destruct (Hput [Byte.x01; Byte.x2a]) as (_ & Hstore & _); try (vm_compute; reflexivity).
  split; [exact Hstore|].
  destruct Hdel as (_ & Hgone & _); [vm_compute; reflexivity|exact Hgone].
Defined.

(** A call that names a missing parent, for a hash that had an overlay with
    an entry. *)
Lemma C10_failed_init_leaves_no_overlay_witness :
  HasDryrunCache promotion_db 5%N = true
  ∧ (InitDryRunMode promotion_db one_record 5%N 77%N).2 = Some (ErrParentCacheNotFound 5%N 77%N)
  ∧ dryRunCaches (InitDryRunMode promotion_db one_record 5%N 77%N).1.1 !! 5%N = None
  ∧ HasDryrunCache (InitDryRunMode promotion_db one_record 5%N 77%N).1.1 5%N = false.
Proof.
  destruct (C10_failed_init_leaves_no_overlay promotion_db one_record 5%N 77%N)
    as [Hfail Hparent].
  split; [vm_compute; reflexivity|]. split.
  - apply Hparent; [done|vm_compute; reflexivity|]. intros c Hc. vm_compute in Hc. discriminate.
  - apply (Hfail (InitDryRunMode promotion_db one_record 5%N 77%N).1
                 (ErrParentCacheNotFound 5%N 77%N)).
    vm_compute. reflexivity.
Defined.

(** C6, as stated, fails: after 200 calls for the hashes 1, ..., 200, none of
    them the miner's, each inheriting one entry from the miner's overlay, the
    overlay of hash 1 is still registered and [HasDryrunCache] is true for it. *)
Lemma C6_counterexample :
  length (calls_from_miner 200) = 200%nat
  ∧ NoDup (calls_from_miner 200).*1
  ∧ Forall (fun x => x ≠ M1DryrunCacheHash) (calls_from_miner 200).*1
  ∧ ∃ s, init_all (calls_from_miner 200) miner_db [] = Some s
         ∧ is_Some (dryRunCaches s.1 !! 1%N)
         ∧ HasDryrunCache s.1 1%N = true.
Proof.
  split; [vm_compute; reflexivity|].
  split; [apply (bool_decide_unpack _); vm_compute; reflexivity|].
  split; [apply (bool_decide_unpack _); vm_compute; reflexivity|].
  assert (Hrun : from_option (fun s => HasDryrunCache s.1 1%N) false
                   (init_all (calls_from_miner 200) miner_db []) = true)
    by (vm_compute; reflexivity).
  destruct (init_all (calls_from_miner 200) miner_db []) as [s|]; [|done].
  exists s. cbn [from_option] in Hrun. split; [done|]. split; [|done].
  by apply HasDryrunCache_registered.
Qed.

Lemma C6_fifo_eviction_witness :
  HasDryrunCache full_db 1%N = true
  ∧ HasDryrunCache (InitDryRunMode full_db [] 500%N zeroHash).1.1 1%N = false
  ∧ init_all (calls_from_miner 201) miner_db [] = Some after_201
  ∧ HasDryrunCache after_201.1 1%N = false.
Proof.
  destruct C6_fifo_eviction as [Hstep Hrun].
  assert (Hs : init_all (calls_from_miner 201) miner_db [] = Some after_201).
  { apply from_option_is_Some. apply (bool_decide_unpack _). vm_compute. exact I. }
  split; [vm_compute; reflexivity|]. split; [|split; [exact Hs|]].
  - destruct (Hstep full_db [] 500%N zeroHash 1%N (tail (recentCaches full_db)))
      as (_ & Hgone & _).
    + vm_compute. reflexivity.
    + vm_compute. lia.
    + intros Heq. discriminate Heq.
    + exact Hgone.
  - destruct (Hrun miner_db [] (calls_from_miner 201) after_201) with (x1 := 1%N)
      as [_ Hgone].
    + vm_compute. lia.
    + vm_compute. reflexivity.
    + apply (bool_decide_unpack _). vm_compute. reflexivity.
    + apply (bool_decide_unpack _). vm_compute. reflexivity.
    + exact Hs.
    + vm_compute. reflexivity.
    + exact Hgone.
Defined.

(** Overlays 6 and 7 initialised one after the other from the overlay of hash
    5, which holds a pointer to the record at address 0: each gets a record of
    its own, at addresses 1 and 2, decoded from the encoding of that record;
    writing to the record of the one, or deleting its key in the one, changes
    nothing of what the other holds. A parent whose record does not decode
    makes the call fail. *)
Lemma C4_overlay_isolation_witness :
  (∃ child, dryRunCaches first_child.1 !! 6%N = Some child
            ∧ Peek child (getCacheKey key61) = Some (VPtr TItem 1)
            ∧ first_child.2 !! 0%nat = Some [Byte.x2a]
            ∧ first_child.2 !! 1%nat = Some [Byte.x2a])
  ∧ (∃ e', (InitDryRunMode bad_parent_db bad_record 6%N 5%N).2
           = Some (ErrCantInherit 6%N 5%N e'))
  ∧ dryRunCaches (InitDryRunMode bad_parent_db bad_record 6%N 5%N).1.1 !! 6%N = None
  ∧ EncodeBytesItem (VPtr TItem 2) (<[1%nat:=[Byte.x00]]> siblings.2)
    = ([Byte.x01; Byte.x2a], None)
  ∧ (Get (Delete siblings.1 key61 true 6%N).1 siblings.2 key61 VNil true 7%N).2
    = (VPtr TItem 2, None).
Proof.
  destruct C4_overlay_isolation as (Hclone & Hfail & Hshare & Hframe).
  assert (Hinit1 : InitDryRunMode promotion_db one_record 6%N 5%N = (first_child, None)).
  { apply injective_projections; [done|]. vm_compute. reflexivity. }
  assert (Hinit2 : InitDryRunMode first_child.1 first_child.2 7%N 5%N = (siblings, None)).
  { apply injective_projections; [done|]. vm_compute. reflexivity. }
  assert (Hp : dryRunCaches promotion_db !! 5%N
               = Some (mkCache 1024000 [(getCacheKey key61, VPtr TItem 0)]))
    by (vm_compute; reflexivity).
  assert (Hc1 : dryRunCaches siblings.1 !! 6%N
                = Some (mkCache 1024000 [(getCacheKey key61, VPtr TItem 1)]))
    by (vm_compute; reflexivity).
  assert (Hc2 : dryRunCaches siblings.1 !! 7%N
                = Some (mkCache 1024000 [(getCacheKey key61, VPtr TItem 2)]))
    by (vm_compute; reflexivity).
  split; [|split; [|split; [|split]]].
  - destruct (Hclone promotion_db one_record 6%N 5%N first_child ltac:(done) Hinit1)
      as (parent & child & Hparent & Hchild & _ & Hold & Hback & _ & Hforward & _).
    rewrite Hp in Hparent. injection Hparent as <-.
    exists child. split; [exact Hchild|].
    destruct (Hforward ltac:(vm_compute; discriminate) (getCacheKey key61) (VPtr TItem 0)
                eq_refl) as [a Ha].
    destruct (Hback _ _ Ha) as (_ & Hrange & v0 & Hv0 & _ & Hrec).
    injection Hv0 as <-.
    destruct (Hrec ltac:(vm_compute; lia)) as (rec & Hdec & Hcell).
    assert (a = 1%nat) as -> by (vm_compute in Hrange; lia).
    split; [exact Ha|]. split; [rewrite Hold by (vm_compute; lia); reflexivity|].
    vm_compute in Hdec. injection Hdec as <-. exact Hcell.
  - destruct (Hfail bad_parent_db bad_record 6%N 5%N
                (mkCache 1024000 [(getCacheKey key61, VPtr TItem 0)]) (getCacheKey key61)
                (VPtr TItem 0) TItem (ErrRlp "non-canonical")) as [Herr _];
      try (vm_compute; reflexivity); try done.
  - destruct (Hfail bad_parent_db bad_record 6%N 5%N
                (mkCache 1024000 [(getCacheKey key61, VPtr TItem 0)]) (getCacheKey key61)
                (VPtr TItem 0) TItem (ErrRlp "non-canonical")) as [_ Hnone];
      try (vm_compute; reflexivity); try done.
  - destruct (Hshare promotion_db one_record 6%N 7%N 5%N first_child siblings
                ltac:(done) ltac:(done) Hinit1 Hinit2 _ _ Hc1 Hc2) as (_ & Hwrite & _).
    etransitivity;
      [exact (Hwrite (getCacheKey key61) TItem 1%nat [Byte.x00] (getCacheKey key61)
                (VPtr TItem 2) eq_refl eq_refl)|].
    vm_compute. reflexivity.
  - destruct (Hframe siblings.1 siblings.2 6%N 7%N key61 key61 VNil VNil ltac:(done))
      as [_ (_ & _ & Hget & _)].
    etransitivity; [exact Hget|]. vm_compute. reflexivity.
Defined.

(** C8, as stated, fails for a parent with gas limit 0: the decay wraps
    around to 2^64 - 1, and the code returns the target where the recurrence
    in exact integers gives -1. *)
Lemma C8_counterexample :
  CalcGasLimit default_params (parent_block 0 0) = 4712388
  ∧ calc_gas_limit_spec default_params 0 0 = -1
  ∧ CalcGasLimit default_params (parent_block 0 0)
      ≠ calc_gas_limit_spec default_params
          (GasLimit (parent_block 0 0)) (GasUsed (parent_block 0 0)).
Proof. split; [|split]; [vm_compute; reflexivity..|vm_compute; discriminate]. Qed.

Lemma C8_calc_gas_limit_witness :
  CalcGasLimit default_params (parent_block 8000000 6000000)
    = calc_gas_limit_spec default_params 8000000 6000000
  ∧ CalcGasLimit default_params (parent_block 8000000 6000000) = 8000978.
Proof.
  destruct (C8_calc_gas_limit default_params (parent_block 8000000 6000000))
    as [Hspec Hexample]; try (vm_compute; split; [discriminate|reflexivity]);
    try (vm_compute; reflexivity).
  split; [exact Hspec|].
  destruct Hexample as (_ & _ & _ & Hres); [reflexivity|reflexivity|].
  apply Hres; vm_compute; discriminate.
Defined.

(** * Further properties of the staged cache store *)

Section DirectMode.
Context `{Tomox}.
Implicit Types (d : BatchDatabase) (h : heap) (key : slice) (val : value) (bh : Hash).

Lemma IsEmptyKey_frame d d' key : emptyKey d' = emptyKey d → IsEmptyKey d' key = IsEmptyKey d key.
Proof. unfold IsEmptyKey. by intros ->. Qed.

(** A direct read that finds the key in the hot cache returns the cached
    value and reads neither the store nor the heap. *)
Lemma Get_direct_hit d h key val bh v :
  IsEmptyKey d key = false → Peek (cacheItems d) (getCacheKey key) = Some v →
  (Get d h key val false bh).2 = (v, None) ∧ (Get d h key val false bh).1.2 = h
  ∧ db (Get d h key val false bh).1.1 = db d.
Proof.
  intros He Hp. unfold Get, read_through. rewrite He.
  pose proof (lru_Get_result (cacheItems d) (getCacheKey key)) as Hr.
  destruct (lru_Get (cacheItems d) (getCacheKey key)) as [c' o]. simpl in Hr. subst o.
  by rewrite Hp.
Qed.

Lemma Has_direct_hit d key bh v :
  IsEmptyKey d key = false → Peek (cacheItems d) (getCacheKey key) = Some v →
  Has d key false bh = (d, (true, None)).
Proof.
  intros He Hp. unfold Has. rewrite He. unfold Contains. rewrite Hp.
  by rewrite bool_decide_eq_true_2 by (by eexists).
Qed.

Lemma Has_direct_miss d key bh :
  IsEmptyKey d key = false → Peek (cacheItems d) (getCacheKey key) = None →
  Has d key false bh = (d, ldb_Has (db d) (slice_bytes key)).
Proof.
  intros He Hp. unfold Has. rewrite He. unfold Contains. rewrite Hp.
  by rewrite bool_decide_eq_false_2 by (by intros [? ?]).
Qed.

(** X1. Direct mode, read your writes: after a direct [Put] of a non-empty
    key on an open store, with a value that encodes, the store holds the
    encoding at the key, and a direct [Has] returns true and a direct [Get]
    returns the very value that was put (not the caller's container), with no
    error and without touching the heap. *)
Theorem X1_direct_put_then_read d h key val container bh bh' b :
  IsEmptyKey d key = false → ldb_closed (db d) = false →
  EncodeBytesItem val h = (b, None) →
  let d1 := (Put d h key val false bh).1 in
  (Put d h key val false bh).2 = None
  ∧ ldb_data (db d1) !! slice_bytes key = Some b
  ∧ dryRunCaches d1 = dryRunCaches d
  ∧ Has d1 key false bh' = (d1, (true, None))
  ∧ (Get d1 h key container false bh').2 = (val, None)
  ∧ (Get d1 h key container false bh').1.2 = h.
Proof.
  intros He Hopen Henc d1. subst d1. unfold Put. rewrite Henc. unfold ldb_Put. simpl.
  rewrite Hopen. simpl. set (d1 := set_db _ _).
  assert (He1 : IsEmptyKey d1 key = false) by done.
  assert (Hp : Peek (cacheItems d1) (getCacheKey key) = Some val) by apply Peek_Add_eq.
  split; [done|]. split; [apply lookup_insert_eq|]. split; [done|].
  split; [by eapply Has_direct_hit|].
  destruct (Get_direct_hit d1 h key container bh' val He1 Hp) as (Hv & Hh & _). done.
Qed.

(** X2. After a direct [Delete] of a non-empty key on an open store, a direct
    [Has] returns false and a direct [Get] returns the store's not-found
    error, whatever the hot cache and the store held for the key; the
    overlays are not touched. *)
Theorem X2_direct_delete_then_read d h key container bh bh' :
  IsEmptyKey d key = false → ldb_closed (db d) = false →
  let d1 := (Delete d key false bh).1 in
  (Delete d key false bh).2 = None
  ∧ dryRunCaches d1 = dryRunCaches d
  ∧ (Has d1 key false bh').2 = (false, None)
  ∧ (Get d1 h key container false bh').2 = (VNil, Some ErrNotFound)
  ∧ (Get d1 h key container false bh').1.2 = h.
Proof.
  intros He Hopen d1. subst d1. unfold Delete, ldb_Delete. simpl. rewrite Hopen. simpl.
  set (d1 := set_db _ _).
  assert (He1 : IsEmptyKey d1 key = false) by done.
  assert (Hp : Peek (cacheItems d1) (getCacheKey key) = None) by apply find_remove_eq.
  split; [done|]. split; [done|]. split.
  - rewrite (Has_direct_miss d1 key bh' He1 Hp). simpl. unfold ldb_Has. simpl.
    rewrite lookup_delete_eq. by rewrite bool_decide_eq_false_2 by (by intros [? ?]).
  - unfold Get, read_through. rewrite He1, (lru_Get_miss _ _ Hp). simpl.
    unfold ldb_Get. simpl. by rewrite lookup_delete_eq.
Qed.

(** X3. A direct [Get] that misses the hot cache decodes the stored bytes into
    the caller's container and adds that container to the hot cache. From then
    on a direct [Get] of the key is answered by the hot cache alone: it returns
    the first caller's container, whatever container it is given and whatever
    the store then holds or returns. *)
Theorem X3_direct_get_populates_cache d h key bh b t a rec :
  IsEmptyKey d key = false →
  Peek (cacheItems d) (getCacheKey key) = None →
  ldb_closed (db d) = false → ldb_data (db d) !! slice_bytes key = Some b →
  is_Some (h !! a) → decodeRecord b t = inl rec →
  let r := Get d h key (VPtr t a) false bh in
  r.2 = (VPtr t a, None)
  ∧ r.1.2 = <[a:=rec]> h
  ∧ Peek (cacheItems r.1.1) (getCacheKey key) = Some (VPtr t a)
  ∧ ∀ store container bh',
      (Get (set_db r.1.1 store) r.1.2 key container false bh').2 = (VPtr t a, None)
      ∧ (Get (set_db r.1.1 store) r.1.2 key container false bh').1.2 = r.1.2.
Proof.
  intros He Hp Hopen Hb [r0 Ha] Hdec r.
  assert (Hr : r = ((set_cacheItems d (Add (cacheItems d) (getCacheKey key) (VPtr t a)),
                     <[a:=rec]> h), (VPtr t a, None))).
  { subst r. unfold Get, read_through. rewrite He, (lru_Get_miss _ _ Hp). simpl.
    unfold ldb_Get. rewrite Hopen, Hb. simpl. rewrite Ha, Hdec. simpl.
    by destruct d as [? ? [? ?] ? ? ?]. }
  clearbody r. subst r. simpl.
  split; [done|]. split; [done|]. split; [apply Peek_Add_eq|].
  intros store container bh'.
  destruct (Get_direct_hit
              (set_db (set_cacheItems d (Add (cacheItems d) (getCacheKey key) (VPtr t a))) store)
              (<[a:=rec]> h) key container bh' (VPtr t a)) as (Hv & Hh & _);
    [done|apply Peek_Add_eq|done].
Qed.

(** X4. A direct [Put] adds the value to the hot cache before it encodes and
    writes it. When the encoding or the write fails, the call returns the
    error and the store is as before, yet the hot cache holds the value: a
    direct [Has] returns true and a direct [Get] returns the value. *)
Theorem X4_failed_direct_put_stays_cached d h key val container bh bh' e :
  IsEmptyKey d key = false →
  (Put d h key val false bh).2 = Some e →
  let d1 := (Put d h key val false bh).1 in
  db d1 = db d
  ∧ dryRunCaches d1 = dryRunCaches d
  ∧ Has d1 key false bh' = (d1, (true, None))
  ∧ (Get d1 h key container false bh').2 = (val, None).
Proof.
  intros He Herr d1.
  assert (Hd1 : d1 = set_cacheItems d (Add (cacheItems d) (getCacheKey key) val)).
  { subst d1. revert Herr. unfold Put. destruct (EncodeBytesItem val h) as [b [err|]]; [done|].
    unfold ldb_Put. simpl. destruct (ldb_closed (db d)); [|done]. simpl. intros _.
    by destruct d as [[? ?] ? ? ? ? ?]. }
  clearbody d1. subst d1.
  set (d1 := set_cacheItems _ _).
  assert (He1 : IsEmptyKey d1 key = false) by done.
  assert (Hp : Peek (cacheItems d1) (getCacheKey key) = Some val) by apply Peek_Add_eq.
  split; [done|]. split; [done|]. split; [by eapply Has_direct_hit|].
  by destruct (Get_direct_hit d1 h key container bh' val He1 Hp) as (Hv & _).
Qed.

(** X5. Staged mode, read your writes: after a staged [Put] on a registered
    overlay, a staged [Get] of the key on that overlay returns the value put
    and a staged [Has] returns whether that value is not nil, whatever the
    store and the hot cache hold; the heap is not touched. *)
Theorem X5_staged_put_then_read d h key val container bh c :
  IsEmptyKey d key = false → dryRunCaches d !! bh = Some c →
  let d1 := (Put d h key val true bh).1 in
  ∀ store hot,
    (Has (set_cacheItems (set_db d1 store) hot) key true bh).2
      = (match val with VNil => false | _ => true end, None)
    ∧ (Get (set_cacheItems (set_db d1 store) hot) h key container true bh).2 = (val, None)
    ∧ (Get (set_cacheItems (set_db d1 store) hot) h key container true bh).1.2 = h.
Proof.
  intros He Hc d1 store hot. subst d1. unfold Put. rewrite Hc. simpl.
  set (d1 := set_cacheItems _ _).
  assert (He1 : IsEmptyKey d1 key = false) by done.
  assert (Hc1 : dryRunCaches d1 !! bh = Some (Add c (getCacheKey key) val))
    by apply lookup_insert_eq.
  split; [by rewrite (Has_staged_hit d1 key bh _ val He1 Hc1 (Peek_Add_eq _ _ _))|].
  by destruct (Get_staged_hit d1 h key container bh _ val He1 Hc1 (Peek_Add_eq _ _ _)).
Qed.

(** X6. A staged [Has] for a hash that has no overlay, or whose overlay has
    no entry for the key, is not an error: it returns what the store returns
    for the key and changes nothing. It does not look at the hot cache, so a
    key that only the hot cache holds is reported present by a direct [Has]
    and absent by a staged one. *)
Theorem X6_staged_has_falls_through d key bh :
  IsEmptyKey d key = false →
  (∀ c, dryRunCaches d !! bh = Some c → Peek c (getCacheKey key) = None) →
  Has d key true bh = (d, ldb_Has (db d) (slice_bytes key))
  ∧ (∀ hot, (Has (set_cacheItems d hot) key true bh).2 = (Has d key true bh).2)
  ∧ (ldb_closed (db d) = false → ldb_data (db d) !! slice_bytes key = None →
     is_Some (Peek (cacheItems d) (getCacheKey key)) →
     (Has d key true bh).2 = (false, None) ∧ (Has d key false bh).2 = (true, None)).
Proof.
  intros He Hmiss.
  assert (Hfall : ∀ d', emptyKey d' = emptyKey d → dryRunCaches d' = dryRunCaches d →
                        Has d' key true bh = (d', ldb_Has (db d') (slice_bytes key))).
  { intros d' Hek Hdc. unfold Has. rewrite (IsEmptyKey_frame d d' key Hek), He, Hdc.
    destruct (dryRunCaches d !! bh) as [c|] eqn:Hc; [|done].
    rewrite (lru_Get_miss c _ (Hmiss c eq_refl)). by destruct (0 <? Len c). }
  split; [by apply Hfall|]. split.
  - intros hot. by rewrite (Hfall (set_cacheItems d hot)), (Hfall d).
  - intros Hopen Hnone [v Hv]. rewrite (Hfall d) by done.
    rewrite (Has_direct_hit d key bh v He Hv). unfold ldb_Has. rewrite Hopen, Hnone.
    by rewrite bool_decide_eq_false_2 by (by intros [? ?]).
Qed.

(** X7. The cache key is the hex string of the key's bytes: two keys have the
    same cache key exactly when they have the same bytes (so a nil key and a
    key of length zero share the cache key, the empty string), and decoding
    the cache key, as [SaveDryRunResult] does, gives the key's bytes back. *)
Theorem X7_cache_key_faithful (k1 k2 : slice) :
  (getCacheKey k1 = getCacheKey k2 ↔ slice_bytes k1 = slice_bytes k2)
  ∧ hex.DecodeString (getCacheKey k1) = inl (slice_bytes k1)
  ∧ getCacheKey None = EmptyString ∧ getCacheKey (Some []) = EmptyString.
Proof.
  split; [split; [apply getCacheKey_inj|unfold getCacheKey; by intros ->]|].
  split; [apply hex_roundtrip|done].
Qed.

End DirectMode.

(** * Further properties of the overlay registry *)

Section RegistryMore.
Context `{Tomox}.
Implicit Types (d : BatchDatabase) (h : heap) (x p : Hash) (k ck : string)
  (pc ch : Cache value).

Lemma evict_oldest_fields d :
  db (evict_oldest d) = db d ∧ cacheItems (evict_oldest d) = cacheItems d
  ∧ emptyKey (evict_oldest d) = emptyKey d ∧ cacheLimit (evict_oldest d) = cacheLimit d.
Proof.
  unfold evict_oldest. destruct (dryrunCacheLimit <=? _); [|done].
  by destruct (recentCaches d).
Qed.

Lemma evict_oldest_recent d :
  (length (recentCaches d) ≤ 200)%nat →
  (length (recentCaches (evict_oldest d)) ≤ 199)%nat
  ∧ ∀ y, y ∈ recentCaches (evict_oldest d) → y ∈ recentCaches d.
Proof.
  intros Hlen. destruct (decide (length (recentCaches d) < 200)%nat) as [Hlt|Hge].
  - rewrite (evict_oldest_below d Hlt). split; [lia|done].
  - destruct (recentCaches d) as [|o later] eqn:Hr; [simpl in Hge; lia|].
    rewrite (evict_oldest_full d o later Hr) by (rewrite Hr; simpl in *; lia).
    simpl in *. split; [lia|]. intros y Hy. by right.
Qed.

Lemma evict_oldest_recent_sub d (y : Hash) :
  y ∈ recentCaches (evict_oldest d) → y ∈ recentCaches d.
Proof.
  unfold evict_oldest. destruct (dryrunCacheLimit <=? _); [|done].
  destruct (recentCaches d) as [|o later] eqn:Hr; [by rewrite Hr|].
  simpl. intros Hin. by right.
Qed.

Lemma evict_oldest_keeps d (y : Hash) :
  y ∉ recentCaches d → dryRunCaches (evict_oldest d) !! y = dryRunCaches d !! y.
Proof.
  intros Hy. unfold evict_oldest. destruct (dryrunCacheLimit <=? _); [|done].
  destruct (recentCaches d) as [|o later]; [done|]. simpl.
  apply lookup_delete_ne. intros ->. apply Hy. by left.
Qed.

(** The loop over the parent, however it ends: the parent keeps its bindings
    and the structs that existed are not written. *)
Lemma inherit_frame x p keys : ∀ pc ch h,
  (∀ k, Peek (inherit x p keys pc ch h).1.1.1 k = Peek pc k)
  ∧ (length h ≤ length (inherit x p keys pc ch h).1.2)%nat
  ∧ (∀ a, (a < length h)%nat → (inherit x p keys pc ch h).1.2 !! a = h !! a).
Proof.
  induction keys as [|k keys IH]; intros pc ch h; [done|].
  rewrite inherit_cons.
  pose proof (Peek_lru_Get pc k) as Hpk.
  destruct (lru_Get pc k) as [pc1 o]. simpl in Hpk.
  assert (Hnext : ∀ ch1,
    (∀ k0, Peek (inherit x p keys pc1 ch1 h).1.1.1 k0 = Peek pc k0)
    ∧ (length h ≤ length (inherit x p keys pc1 ch1 h).1.2)%nat
    ∧ (∀ a, (a < length h)%nat → (inherit x p keys pc1 ch1 h).1.2 !! a = h !! a)).
  { intros ch1. destruct (IH pc1 ch1 h) as (Hp & Hl & Hh).
    split; [intros k0; by rewrite Hp|done]. }
  destruct o as [val|]; [|apply Hnext].
  destruct (ptr_type val) as [t|]; [|apply Hnext].
  destruct (decide (t = TOtherPtr)); [apply Hnext|].
  destruct (decodeRecord (EncodeBytesItem val h).1 t) as [r|e].
  - destruct (IH pc1 (Add ch k (VPtr t (length h))) (h ++ [r])) as (Hp & Hl & Hh).
    rewrite length_app in Hl. simpl in Hl.
    split; [intros k0; by rewrite Hp|]. split; [lia|].
    intros a Ha. rewrite Hh by (rewrite length_app; simpl; lia). by rewrite lookup_app_l.
  - simpl. split; [done|]. rewrite length_app. split; [lia|].
    intros a Ha. by rewrite lookup_app_l.
Qed.

(** Which overlays the registry holds after a call, besides the one of the
    call's hash: those the eviction left, whether the call succeeds or not. *)
Lemma InitDryRunMode_dom d h x p (y : Hash) :
  y ≠ x →
  (is_Some (dryRunCaches (InitDryRunMode d h x p).1.1 !! y)
   ↔ is_Some (dryRunCaches (evict_oldest d) !! y)).
Proof.
  intros Hy. destruct (InitDryRunMode d h x p) as [s [e|]] eqn:Hinit.
  - destruct (decide (y = p)) as [->|Hp].
    + revert Hinit. unfold InitDryRunMode. cbv zeta. generalize (evict_oldest d). intros d1.
      assert (Hsub : dryRunCaches (DropDryrunCache d1 x) !! p = dryRunCaches d1 !! p).
      { simpl. by rewrite lookup_delete_ne. }
      revert Hsub. generalize (DropDryrunCache d1 x). intros d2 Hsub.
      destruct (lru_New (cacheLimit d2)) as [fresh|err];
        [|intros [= <- _]; simpl; by rewrite Hsub].
      destruct (decide (p ≠ zeroHash)) as [Hp0|Hp0]; [|done].
      destruct (dryRunCaches d2 !! p) as [pc|] eqn:Hpc;
        [|intros [= <- _]; simpl; by rewrite <- Hsub, Hpc].
      destruct (0 <? Len pc); [|intros [= <- _]; simpl; by rewrite <- Hsub, Hpc].
      destruct (inherit x p (Keys pc) pc fresh h) as [[[pc' ch] h'] [err|]]; [|done].
      intros [= <- _]. simpl. rewrite lookup_insert_eq, <- Hsub. split; by eexists.
    + pose proof (InitDryRunMode_frame d h x p y Hy Hp) as Hf. rewrite Hinit in Hf.
      simpl in *. by rewrite Hf.
  - destruct (InitDryRunMode_ok _ _ _ _ _ Hinit) as (_ & _ & Hsub). by apply Hsub.
Qed.

(** A call with a named parent that is missing or empty fails. *)
Lemma InitDryRunMode_no_parent d h x p :
  p ≠ zeroHash → 0 < cacheLimit d →
  (∀ c, dryRunCaches d !! p = Some c → Len c = 0) →
  (InitDryRunMode d h x p).2 = Some (ErrParentCacheNotFound x p).
Proof.
  intros Hp Hlimit Hparent. unfold InitDryRunMode. cbv zeta.
  assert (Hsub : ∀ c, dryRunCaches (DropDryrunCache (evict_oldest d) x) !! p = Some c →
                      Len c = 0).
  { intros c Hc. apply Hparent. apply evict_oldest_lookup_Some. simpl in Hc.
    destruct (decide (x = p)) as [->|Hne].
    - by rewrite lookup_delete_eq in Hc.
    - by rewrite lookup_delete_ne in Hc. }
  assert (Hl : cacheLimit (DropDryrunCache (evict_oldest d) x) = cacheLimit d)
    by apply evict_oldest_fields.
  revert Hsub Hl. generalize (DropDryrunCache (evict_oldest d) x). intros d2 Hsub Hl.
  rewrite Hl. destruct (cacheLimit d) as [|n|n] eqn:Hcl; try lia. simpl.
  rewrite decide_True by done.
  destruct (dryRunCaches d2 !! p) as [c|] eqn:Hc; [|done].
  by rewrite (Hsub c eq_refl).
Qed.

(** A call without a parent, on a database with a positive cache limit,
    registers an empty cache and does nothing else to the heap. *)
Lemma InitDryRunMode_root d h x :
  0 < cacheLimit d →
  ∃ d2 n, InitDryRunMode d h x zeroHash = ((register_cache d2 x (mkCache n []), h), None)
          ∧ cacheLimit d2 = cacheLimit d.
Proof.
  intros Hlimit. unfold InitDryRunMode. cbv zeta.
  assert (Hl : cacheLimit (DropDryrunCache (evict_oldest d) x) = cacheLimit d)
    by apply evict_oldest_fields.
  revert Hl. generalize (DropDryrunCache (evict_oldest d) x). intros d2 Hl.
  rewrite Hl. destruct (cacheLimit d) as [|n|n] eqn:Hcl; try lia. simpl.
  by exists d2, n.
Qed.

(** X8. The list of recent hashes never grows beyond [dryrunCacheLimit]: a
    call of [InitDryRunMode] on a database with at most 200 recent hashes
    leaves at most 200, whether it succeeds or fails, and no other operation
    changes the list ([DropDryrunCache] does not remove the hash it drops). *)
Theorem X8_recent_hashes_bounded d h x p (key : slice) (val : value) (dryrun : bool) :
  (length (recentCaches d) ≤ 200)%nat →
  (length (recentCaches (InitDryRunMode d h x p).1.1) ≤ 200)%nat
  ∧ recentCaches (DropDryrunCache d x) = recentCaches d
  ∧ recentCaches (SaveDryRunResult d h x).1 = recentCaches d
  ∧ recentCaches (Put d h key val dryrun x).1 = recentCaches d
  ∧ recentCaches (Delete d key dryrun x).1 = recentCaches d
  ∧ recentCaches (Has d key dryrun x).1 = recentCaches d
  ∧ recentCaches (Get d h key val dryrun x).1.1 = recentCaches d.
Proof.
  intros Hlen. destruct (evict_oldest_recent d Hlen) as [Hev _].
  split; [|split; [done|split; [|split; [|split; [|split]]]]].
  - destruct (InitDryRunMode d h x p) as [s [e|]] eqn:Hinit.
    + destruct (InitDryRunMode_error _ _ _ _ _ _ Hinit) as (_ & Hrec & _).
      simpl. rewrite Hrec. lia.
    + destruct (InitDryRunMode_ok _ _ _ _ _ Hinit) as (_ & Hrec & _).
      simpl. rewrite Hrec, length_app. destruct (decide (x ≠ M1DryrunCacheHash)); simpl; lia.
  - unfold SaveDryRunResult. destruct (dryRunCaches d !! x) as [c|]; [|done].
    destruct (Len c =? 0); [done|].
    destruct (save_entries (Keys c) c (db d) [] h) as [[[c' l] b] [e|]]; [done|].
    by destruct (batch_Write _ b).
  - unfold Put. destruct dryrun.
    + by destruct (dryRunCaches d !! x).
    + destruct (EncodeBytesItem val h) as [b [e|]]; [done|]. by destruct (ldb_Put _ _ b).
  - unfold Delete. destruct dryrun.
    + by destruct (dryRunCaches d !! x).
    + by destruct (ldb_Delete _ _).
  - unfold Has. destruct (IsEmptyKey d key); [done|]. destruct dryrun.
    + destruct (dryRunCaches d !! x) as [c|]; [|done]. destruct (0 <? Len c); [|done].
      destruct (lru_Get c (getCacheKey key)) as [c' [v|]]; [|done]. by destruct v.
    + by destruct (Contains _ _).
  - assert (Hrt : ∀ m, recentCaches (read_through d h key val m).1.1 = recentCaches d).
    { intros m. unfold read_through. destruct (lru_Get (cacheItems d) _) as [c' o].
      destruct o as [v|], m; simpl; try done;
        destruct (ldb_Get (db d) (slice_bytes key)); try done;
        by destruct (DecodeBytesItem _ val h) as [h' [e|]]. }
    unfold Get. destruct (IsEmptyKey d key); [done|]. destruct dryrun; [|apply Hrt].
    destruct (dryRunCaches d !! x) as [c|]; [|apply Hrt]. destruct (0 <? Len c); [|apply Hrt].
    destruct (lru_Get c (getCacheKey key)) as [c' [v|]]; [done|apply Hrt].
Qed.

(** X9. The miner's overlay is never evicted: as long as the miner's hash is
    not among the recent hashes, a call of [InitDryRunMode] does not add it to
    them, and a call for any other hash, successful or not, leaves the miner's
    overlay registered if it was and absent if it was not. *)
Theorem X9_miner_overlay_not_evicted d h x p :
  (M1DryrunCacheHash ∉ recentCaches d) →
  (M1DryrunCacheHash ∉ recentCaches (InitDryRunMode d h x p).1.1)
  ∧ (x ≠ M1DryrunCacheHash →
     (is_Some (dryRunCaches (InitDryRunMode d h x p).1.1 !! M1DryrunCacheHash)
      ↔ is_Some (dryRunCaches d !! M1DryrunCacheHash))).
Proof.
  intros Hm. split.
  - assert (Hev : M1DryrunCacheHash ∉ recentCaches (evict_oldest d)).
    { intros Hin. by apply Hm, evict_oldest_recent_sub. }
    destruct (InitDryRunMode d h x p) as [s [e|]] eqn:Hinit.
    + destruct (InitDryRunMode_error _ _ _ _ _ _ Hinit) as (_ & Hrec & _).
      simpl. by rewrite Hrec.
    + destruct (InitDryRunMode_ok _ _ _ _ _ Hinit) as (_ & Hrec & _).
      simpl. rewrite Hrec. intros Hin. apply elem_of_app in Hin as [?|Hin]; [done|].
      destruct (decide (x ≠ M1DryrunCacheHash)) as [Hx|Hx]; [|by apply elem_of_nil in Hin].
      apply list_elem_of_singleton in Hin. by apply Hx.
  - intros Hx. rewrite InitDryRunMode_dom by done. by rewrite evict_oldest_keeps.
Qed.

(** X10. A call of [InitDryRunMode] without a parent succeeds whenever the
    cache limit is positive, leaves the heap alone and registers an empty
    overlay. For such an overlay [HasDryrunCache] is false, and it cannot be
    the parent of another: a call that names it as parent fails with the
    "can't found parentCache" error. *)
Theorem X10_init_without_parent d h x :
  0 < cacheLimit d →
  let s := (InitDryRunMode d h x zeroHash).1 in
  (InitDryRunMode d h x zeroHash).2 = None
  ∧ s.2 = h
  ∧ (∃ c, dryRunCaches s.1 !! x = Some c ∧ items c = [])
  ∧ HasDryrunCache s.1 x = false
  ∧ (x ≠ zeroHash → ∀ y, (InitDryRunMode s.1 s.2 y x).2 = Some (ErrParentCacheNotFound y x)).
Proof.
  intros Hlimit s.
  destruct (InitDryRunMode_root d h x Hlimit) as (d2 & n & Hs & Hl).
  subst s. rewrite Hs. simpl.
  assert (Hreg : dryRunCaches (register_cache d2 x (mkCache n [])) !! x = Some (mkCache n [])).
  { unfold register_cache. destruct (decide (x ≠ M1DryrunCacheHash)); simpl;
      apply lookup_insert_eq. }
  assert (Hlim : cacheLimit (register_cache d2 x (mkCache n [])) = cacheLimit d).
  { unfold register_cache. by destruct (decide (x ≠ M1DryrunCacheHash)). }
  split; [done|]. split; [done|]. split; [by eexists|].
  split; [unfold HasDryrunCache; by rewrite Hreg|].
  intros Hx y. apply InitDryRunMode_no_parent; [done|by rewrite Hlim|].
  intros c Hc. rewrite Hreg in Hc. by injection Hc as <-.
Qed.

(** X11. [InitDryRunMode] never writes to the store or the hot cache and
    never writes a struct that existed: whether it succeeds or fails, the
    store, the hot cache, the empty key and the cache limit are as before, the
    heap has only grown, and every overlay other than the one of the call's
    hash that is still registered has the bindings it had. *)
Theorem X11_init_leaves_the_rest d h x p :
  let s := (InitDryRunMode d h x p).1 in
  db s.1 = db d ∧ cacheItems s.1 = cacheItems d
  ∧ emptyKey s.1 = emptyKey d ∧ cacheLimit s.1 = cacheLimit d
  ∧ (length h ≤ length s.2)%nat
  ∧ (∀ a, (a < length h)%nat → s.2 !! a = h !! a)
  ∧ (∀ (y : Hash) c', y ≠ x → dryRunCaches s.1 !! y = Some c' →
       ∃ c, dryRunCaches d !! y = Some c ∧ ∀ ck, Peek c' ck = Peek c ck).
Proof.
  intros s. subst s. unfold InitDryRunMode. cbv zeta.
  destruct (evict_oldest_fields d) as (Hdb & Hci & Hek & Hcl).
  assert (Hreg : ∀ d' c,
    db (register_cache d' x c) = db d' ∧ cacheItems (register_cache d' x c) = cacheItems d'
    ∧ emptyKey (register_cache d' x c) = emptyKey d'
    ∧ cacheLimit (register_cache d' x c) = cacheLimit d'
    ∧ ∀ y : Hash, y ≠ x →
        dryRunCaches (register_cache d' x c) !! y = dryRunCaches d' !! y).
  { intros d' c. unfold register_cache.
    destruct (decide (x ≠ M1DryrunCacheHash)); simpl; repeat split;
      intros y Hy; by rewrite lookup_insert_ne. }
  assert (Hd2 : db (DropDryrunCache (evict_oldest d) x) = db d
    ∧ cacheItems (DropDryrunCache (evict_oldest d) x) = cacheItems d
    ∧ emptyKey (DropDryrunCache (evict_oldest d) x) = emptyKey d
    ∧ cacheLimit (DropDryrunCache (evict_oldest d) x) = cacheLimit d
    ∧ ∀ (y : Hash) c', y ≠ x →
        dryRunCaches (DropDryrunCache (evict_oldest d) x) !! y = Some c' →
        dryRunCaches d !! y = Some c').
  { repeat split; try done. intros y c' Hy. simpl. rewrite lookup_delete_ne by done.
    apply evict_oldest_lookup_Some. }
  revert Hd2. generalize (DropDryrunCache (evict_oldest d) x).
  intros d2 (Hdb2 & Hci2 & Hek2 & Hcl2 & Hov2).
  assert (Hsame : ∀ (y : Hash) c', y ≠ x → dryRunCaches d2 !! y = Some c' →
                    ∃ c, dryRunCaches d !! y = Some c ∧ ∀ ck, Peek c' ck = Peek c ck).
  { intros y c' Hy Hc'. exists c'. split; [by apply Hov2|done]. }
  destruct (lru_New (cacheLimit d2)) as [fresh|err]; [|by repeat split].
  destruct (decide (p ≠ zeroHash)) as [Hp0|Hp0].
  - destruct (dryRunCaches d2 !! p) as [pc|] eqn:Hpc; [|by repeat split].
    destruct (0 <? Len pc); [|by repeat split].
    destruct (inherit_frame x p (Keys pc) pc fresh h) as (Hpeek & Hlen & Hpre).
    assert (Hwb : ∀ (pc' : Cache value), (∀ k, Peek pc' k = Peek pc k) →
      ∀ (y : Hash) c', y ≠ x →
        dryRunCaches (set_dryRunCaches d2 (<[p:=pc']> (dryRunCaches d2))) !! y = Some c' →
        ∃ c, dryRunCaches d !! y = Some c ∧ ∀ ck, Peek c' ck = Peek c ck).
    { intros pc' Hpc' y c' Hy. simpl. destruct (decide (p = y)) as [<-|Hpy].
      - rewrite lookup_insert_eq. intros [= <-]. exists pc. split; [by apply Hov2|done].
      - rewrite lookup_insert_ne by done. by apply Hsame. }
    destruct (inherit x p (Keys pc) pc fresh h) as [[[pc' ch] h'] [err|]];
      simpl in Hpeek, Hlen, Hpre; cbn [fst snd].
    + repeat split; try done. by apply Hwb.
    + destruct (Hreg (set_dryRunCaches d2 (<[p:=pc']> (dryRunCaches d2))) ch)
        as (H1 & H2 & H3 & H4 & H5).
      rewrite H1, H2, H3, H4. repeat split; try done.
      intros y c' Hy. rewrite (H5 y Hy). by apply Hwb.
  - cbn [fst snd]. destruct (Hreg d2 fresh) as (H1 & H2 & H3 & H4 & H5).
    rewrite H1, H2, H3, H4. repeat split; try done.
    intros y c' Hy. rewrite (H5 y Hy). by apply Hsame.
Qed.

(** X12. What a new overlay inherits, when the parent has no more entries
    than the cache limit: for every key of the parent, a tombstone or any
    other value that is not a pointer is inherited as it is (a key deleted in
    the parent is deleted in the child), a pointer (nil or not) to one of the
    five record types is inherited as a pointer of the same type, and a
    pointer to any other type is not inherited: the child has no entry for
    that key. *)
Theorem X12_inheritance_is_complete d h x p s parent :
  p ≠ zeroHash → InitDryRunMode d h x p = (s, None) →
  dryRunCaches d !! p = Some parent →
  Z.of_nat (length (items parent)) ≤ cacheLimit d →
  ∃ child, dryRunCaches s.1 !! x = Some child
    ∧ ∀ ck v, Peek parent ck = Some v →
        match v with
        | VPtr t _ | VNilPtr t =>
            if decide (t = TOtherPtr) then Peek child ck = None
            else ∃ a, Peek child ck = Some (VPtr t a)
        | _ => Peek child ck = Some v
        end.
Proof.
  intros Hp0 Hinit Hparent Hroom. revert Hinit. unfold InitDryRunMode. cbv zeta.
  assert (Hsub : ∀ c, dryRunCaches (DropDryrunCache (evict_oldest d) x) !! p = Some c →
                      c = parent).
  { intros c. simpl. destruct (decide (x = p)) as [->|Hne].
    - by rewrite lookup_delete_eq.
    - rewrite lookup_delete_ne by done. intros Hc. apply evict_oldest_lookup_Some in Hc.
      congruence. }
  assert (Hl : cacheLimit (DropDryrunCache (evict_oldest d) x) = cacheLimit d)
    by apply evict_oldest_fields.
  revert Hsub Hl. generalize (DropDryrunCache (evict_oldest d) x). intros d2 Hsub Hl.
  assert (Hreg : ∀ d' c, dryRunCaches (register_cache d' x c) !! x = Some c).
  { intros d' c. unfold register_cache.
    destruct (decide (x ≠ M1DryrunCacheHash)); simpl; by rewrite lookup_insert_eq. }
  rewrite Hl. destruct (cacheLimit d) as [|n|n] eqn:Hcl; try done. simpl.
  rewrite decide_True by done.
  destruct (dryRunCaches d2 !! p) as [pc|] eqn:Hpc; [|done].
  rewrite (Hsub pc eq_refl). clear Hsub Hpc pc.
  destruct (0 <? Len parent); [|done].
  destruct (inherit x p (Keys parent) parent (mkCache n []) h)
    as [[[pc' ch] h'] [err|]] eqn:Hrun; [done|].
  intros [= <-]. cbn [fst snd]. exists ch. split; [apply Hreg|].
  destruct (inherit_complete x p (Keys parent) parent (mkCache n []) h pc' ch h')
    as [_ HB]; [|done|].
  { simpl. unfold Keys. rewrite length_rev, length_map. lia. }
  intros ck v Hv. specialize (HB ck v (find_Some_Keys _ _ _ Hv) Hv).
  by destruct v.
Qed.

(** X13. A staged [Put] of a new key into an overlay that is full evicts the
    oldest entry of the overlay, whatever it is: the overlay then has no entry
    for that key, and a staged [Has] of it is answered by the store again (if
    the entry was a tombstone, the key is no longer masked). *)
Theorem X13_full_overlay_evicts_oldest d h key val bh c front k0 v0 (key0 : slice) :
  dryRunCaches d !! bh = Some c →
  items c = front ++ [(k0, v0)] → find k0 front = None →
  Z.pos (size c) ≤ Z.of_nat (length (items c)) →
  Peek c (getCacheKey key) = None →
  getCacheKey key0 = k0 → IsEmptyKey d key0 = false →
  let d1 := (Put d h key val true bh).1 in
  (Put d h key val true bh).2 = None
  ∧ (∃ c', dryRunCaches d1 !! bh = Some c' ∧ Peek c' k0 = None
           ∧ Peek c' (getCacheKey key) = Some val)
  ∧ Has d1 key0 true bh = (d1, ldb_Has (db d) (slice_bytes key0)).
Proof.
  intros Hc Hitems Hfront Hfull Hnew Hk0 He d1. subst d1. unfold Put. rewrite Hc. simpl.
  assert (Hne : getCacheKey key ≠ k0).
  { intros Heq. unfold Peek in Hnew. rewrite Hitems, Heq in Hnew.
    clear -Hnew. induction front as [|[k1 v1] front IH]; simpl in Hnew.
    - by rewrite decide_True in Hnew.
    - destruct (decide (k1 = k0)); [done|]. by apply IH. }
  assert (Hadd : items (Add c (getCacheKey key) val) = (getCacheKey key, val) :: front).
  { unfold Add. unfold Peek in Hnew. rewrite Hnew.
    destruct (Z.pos (size c) <? _) eqn:Hlt.
    - cbn [items]. rewrite Hitems.
      change ((getCacheKey key, val) :: front ++ [(k0, v0)])
        with (((getCacheKey key, val) :: front) ++ [(k0, v0)]).
      by rewrite removelast_last.
    - apply Z.ltb_ge in Hlt. simpl in Hlt. lia. }
  assert (Hgone : Peek (Add c (getCacheKey key) val) k0 = None).
  { unfold Peek. rewrite Hadd. simpl. by rewrite decide_False. }
  split; [done|]. split.
  - eexists. split; [apply lookup_insert_eq|]. split; [done|apply Peek_Add_eq].
  - match goal with |- Has ?d1 _ _ _ = _ =>
      assert (He1 : IsEmptyKey d1 key0 = false) by done;
      assert (Hc1 : dryRunCaches d1 !! bh = Some (Add c (getCacheKey key) val))
        by apply lookup_insert_eq
    end.
    unfold Has. rewrite He1, Hc1, Hk0, (lru_Get_miss _ _ Hgone). by destruct (0 <? Len _).
Qed.

(** X26. Initialising an overlay again does not renew its turn in the list
    of recent hashes: the hash is appended once more and its old position
    stays. With 199 recent hashes of which the hash is the first, the call
    makes the list full, and the next call for another hash evicts the overlay
    that was initialised last. *)
Theorem X26_reinit_keeps_the_old_turn d h x p (y q : Hash) later :
  x ≠ M1DryrunCacheHash → y ≠ x →
  recentCaches d = x :: later → length later = 198%nat →
  (InitDryRunMode d h x p).2 = None →
  let s := (InitDryRunMode d h x p).1 in
  recentCaches s.1 = x :: later ++ [x]
  ∧ is_Some (dryRunCaches s.1 !! x)
  ∧ dryRunCaches (InitDryRunMode s.1 s.2 y q).1.1 !! x = None.
Proof.
  intros Hx Hy Hr Hlen Hok s. subst s.
  destruct (InitDryRunMode d h x p) as [s o] eqn:Hinit. simpl in Hok. subst o.
  destruct (InitDryRunMode_ok _ _ _ _ _ Hinit) as (Hreg & Hrec & _).
  rewrite evict_oldest_below in Hrec by (rewrite Hr; simpl; lia).
  rewrite decide_True, Hr in Hrec by done. cbn [fst snd].
  split; [done|]. split; [done|].
  destruct (InitDryRunMode_evicts s.1 s.2 y q x (later ++ [x]) Hrec) as [Hgone _]; try done.
  rewrite Hrec. simpl. rewrite length_app. simpl. lia.
Qed.

(** X27. A hash cannot be its own parent, whatever its overlay holds: the
    overlay of the hash is dropped before the parent is looked up, so the call
    fails with the "can't found parentCache" error and the overlay is gone. *)
Theorem X27_own_parent d h x :
  x ≠ zeroHash → 0 < cacheLimit d →
  (InitDryRunMode d h x x).2 = Some (ErrParentCacheNotFound x x)
  ∧ dryRunCaches (InitDryRunMode d h x x).1.1 !! x = None
  ∧ HasDryrunCache (InitDryRunMode d h x x).1.1 x = false.
Proof.
  intros Hx Hlimit.
  assert (Herr : (InitDryRunMode d h x x).2 = Some (ErrParentCacheNotFound x x)).
  { unfold InitDryRunMode. cbv zeta.
    assert (Hdrop : dryRunCaches (DropDryrunCache (evict_oldest d) x) !! x = None)
      by apply lookup_delete_eq.
    assert (Hl : cacheLimit (DropDryrunCache (evict_oldest d) x) = cacheLimit d)
      by apply evict_oldest_fields.
    revert Hdrop Hl. generalize (DropDryrunCache (evict_oldest d) x). intros d2 Hdrop Hl.
    rewrite Hl. destruct (cacheLimit d) as [|n|n] eqn:Hcl; try lia. simpl.
    rewrite decide_True by done. by rewrite Hdrop. }
  destruct (InitDryRunMode d h x x) as [s o] eqn:Hinit. simpl in Herr. subst o.
  destruct (InitDryRunMode_error _ _ _ _ _ _ Hinit) as (Hnone & _).
  cbn [fst snd]. split; [done|]. split; [done|]. unfold HasDryrunCache. by rewrite Hnone.
Qed.

End RegistryMore.

(** * Further properties of the promotion and of the constructor *)

Section PromotionMore.
Context `{Tomox}.
Implicit Types (d : BatchDatabase) (h : heap) (x : Hash) (key : slice).

(** The loop of [SaveDryRunResult], however it ends: it neither opens nor
    closes the store, and the store differs from the one it started with only
    at keys whose overlay entry is a tombstone, which it lacks. *)
Lemma save_entries_store h keys : ∀ (c : Cache value) (l : LDBDatabase) (batch : Batch),
  ldb_closed (save_entries keys c l batch h).1.1.2 = ldb_closed l
  ∧ ldb_batch_err (save_entries keys c l batch h).1.1.2 = ldb_batch_err l
  ∧ ∀ kb, ldb_data (save_entries keys c l batch h).1.1.2 !! kb = ldb_data l !! kb
      ∨ (ldb_data (save_entries keys c l batch h).1.1.2 !! kb = None
         ∧ ∃ ck, hex.DecodeString ck = inl kb ∧ Peek c ck = Some VNil).
Proof.
  induction keys as [|ck keys IH]; intros c l batch; [split; [done|split; [done|by left]]|].
  cbn [save_entries]. destruct (hex.DecodeString ck) as [kb0|err] eqn:Hdec;
    [|split; [done|split; [done|by left]]].
  pose proof (Peek_lru_Get c ck) as Hpk. pose proof (lru_Get_result c ck) as Hres.
  destruct (lru_Get c ck) as [c1 o]. simpl in Hpk, Hres. subst o.
  assert (Hnext : ∀ b1,
    ldb_closed (save_entries keys c1 l b1 h).1.1.2 = ldb_closed l
    ∧ ldb_batch_err (save_entries keys c1 l b1 h).1.1.2 = ldb_batch_err l
    ∧ ∀ kb, ldb_data (save_entries keys c1 l b1 h).1.1.2 !! kb = ldb_data l !! kb
        ∨ (ldb_data (save_entries keys c1 l b1 h).1.1.2 !! kb = None
           ∧ ∃ ck, hex.DecodeString ck = inl kb ∧ Peek c ck = Some VNil)).
  { intros b1. destruct (IH c1 l b1) as (Hcl & Hbe & Hd). split; [done|]. split; [done|].
    intros kb. destruct (Hd kb) as [?|(? & ck' & ? & Hp')]; [by left|right].
    split; [done|]. exists ck'. by rewrite <- Hpk. }
  assert (Hlive : ∀ v, v ≠ VNil →
    match EncodeBytesItem v h with
    | (_, Some err) => ((c1, l, batch), Some err)
    | (value, None) =>
        match batch_Put batch kb0 value with
        | (batch, Some err) => ((c1, l, batch), Some err)
        | (batch, None) => save_entries keys c1 l batch h
        end
    end = match EncodeBytesItem v h with
          | (_, Some err) => ((c1, l, batch), Some err)
          | (value, None) => save_entries keys c1 l (batch ++ [(kb0, value)]) h
          end) by (intros v _; by destruct (EncodeBytesItem v h) as [b [e|]]).
  destruct (Peek c ck) as [v|] eqn:Hv; [|split; [done|split; [done|by left]]].
  assert (Hnil : v = VNil ∨ v ≠ VNil) by (destruct v; [by left|by right..]).
  destruct Hnil as [->|Hnn].
  - unfold ldb_Delete. destruct (ldb_closed l) eqn:Hclosed;
      [split; [done|split; [done|by left]]|].
    destruct (IH c1 (mkStore (delete kb0 (ldb_data l)) false (ldb_batch_err l)) batch)
      as (Hcl & Hbe & Hd).
    split; [done|]. split; [done|]. intros kb.
    destruct (Hd kb) as [Heq|(? & ck' & ? & Hp')].
    + simpl in Heq. destruct (decide (kb0 = kb)) as [<-|Hne].
      * right. rewrite lookup_delete_eq in Heq. split; [done|]. by exists ck.
      * left. by rewrite lookup_delete_ne in Heq.
    + right. split; [done|]. exists ck'. by rewrite <- Hpk.
  - assert (Hgoal :
      ldb_closed (match EncodeBytesItem v h with
                  | (_, Some err) => ((c1, l, batch), Some err)
                  | (value, None) => save_entries keys c1 l (batch ++ [(kb0, value)]) h
                  end).1.1.2 = ldb_closed l
      ∧ ldb_batch_err (match EncodeBytesItem v h with
                  | (_, Some err) => ((c1, l, batch), Some err)
                  | (value, None) => save_entries keys c1 l (batch ++ [(kb0, value)]) h
                  end).1.1.2 = ldb_batch_err l
      ∧ ∀ kb, ldb_data (match EncodeBytesItem v h with
                  | (_, Some err) => ((c1, l, batch), Some err)
                  | (value, None) => save_entries keys c1 l (batch ++ [(kb0, value)]) h
                  end).1.1.2 !! kb = ldb_data l !! kb
          ∨ (ldb_data (match EncodeBytesItem v h with
                  | (_, Some err) => ((c1, l, batch), Some err)
                  | (value, None) => save_entries keys c1 l (batch ++ [(kb0, value)]) h
                  end).1.1.2 !! kb = None
             ∧ ∃ ck, hex.DecodeString ck = inl kb ∧ Peek c ck = Some VNil)).
    { destruct (EncodeBytesItem v h) as [b [e|]]; [split; [done|split; [done|by left]]|].
      apply Hnext. }
    rewrite <- (Hlive v Hnn) in Hgoal. by destruct v.
Qed.

(** [SaveDryRunResult] neither opens nor closes the store and leaves the
    empty key alone. *)
Lemma SaveDryRunResult_fields d h x :
  ldb_closed (db (SaveDryRunResult d h x).1) = ldb_closed (db d)
  ∧ emptyKey (SaveDryRunResult d h x).1 = emptyKey d.
Proof.
  unfold SaveDryRunResult. destruct (dryRunCaches d !! x) as [c|]; [|done].
  destruct (Len c =? 0); [done|].
  destruct (save_entries_store h (Keys c) c (db d) []) as (Hcl & _ & _).
  destruct (save_entries (Keys c) c (db d) [] h) as [[[c' l] b] [e|]]; simpl in Hcl; [done|].
  unfold batch_Write. cbn. rewrite Hcl.
  destruct (ldb_closed (db d)); [done|]. by destruct (ldb_batch_err l).
Qed.

(** X14. After a promotion that succeeds (on an open store whose batch write
    does not fail), direct reads see what the overlay held: for a key the
    overlay had deleted, a direct [Has] is false and a direct [Get] returns
    the store's not-found error, even if the hot cache held a value for it
    before; for a key with a live entry, a direct [Has] is true and a direct
    [Get] decodes the encoding of that entry into the caller's container. *)
Theorem X14_promoted_then_direct_read d h x (c : Cache value) key bh :
  ldb_closed (db d) = false → ldb_batch_err (db d) = None →
  dryRunCaches d !! x = Some c → Len c ≠ 0 →
  (∀ ck, ck ∈ Keys c → ∃ kb, ck = hex.EncodeToString kb) →
  (∀ ck v, Peek c ck = Some v → v ≠ VNil → (EncodeBytesItem v h).2 = None) →
  IsEmptyKey d key = false →
  let d1 := (SaveDryRunResult d h x).1 in
  (SaveDryRunResult d h x).2 = None
  ∧ match Peek c (getCacheKey key) with
    | Some VNil =>
        (Has d1 key false bh).2 = (false, None)
        ∧ ∀ container, (Get d1 h key container false bh).2 = (VNil, Some ErrNotFound)
    | Some v =>
        (Has d1 key false bh).2 = (true, None)
        ∧ ∀ t a rec, is_Some (h !! a) → decodeRecord (EncodeBytesItem v h).1 t = inl rec →
            (Get d1 h key (VPtr t a) false bh).2 = (VPtr t a, None)
            ∧ (Get d1 h key (VPtr t a) false bh).1.2 = <[a:=rec]> h
    | None =>
        (Has d1 key false bh).2 = ldb_Has (db d) (slice_bytes key)
    end.
Proof.
  intros Hopen Hwrite Hc Hlen Hcanon Henc He d1.
  destruct (SaveDryRunResult_promotes d h x c Hopen Hwrite Hc Hlen Hcanon Henc)
    as (Hok & Htomb & Hlive & Hother & Hhot & _).
  destruct (SaveDryRunResult_fields d h x) as [Hcl Hek]. rewrite Hopen in Hcl.
  fold d1 in Htomb, Hlive, Hother, Hhot, Hcl, Hek. clearbody d1.
  assert (He1 : IsEmptyKey d1 key = false) by (by rewrite (IsEmptyKey_frame d d1 key Hek)).
  assert (Hp : Peek (cacheItems d1) (getCacheKey key) = None)
    by (unfold Peek; by rewrite Hhot).
  split; [done|]. unfold getCacheKey in *.
  destruct (Peek c (hex.EncodeToString (slice_bytes key))) as [v|] eqn:Hv.
  - assert (Hnil : v = VNil ∨ v ≠ VNil) by (destruct v; [by left|by right..]).
    destruct Hnil as [->|Hnn].
    + specialize (Htomb _ Hv). split.
      * rewrite (Has_direct_miss d1 key bh He1 Hp). unfold ldb_Has. simpl.
        rewrite Hcl, Htomb. by rewrite bool_decide_eq_false_2 by (by intros [? ?]).
      * intros container. unfold Get, read_through. rewrite He1.
        unfold getCacheKey. rewrite (lru_Get_miss _ _ Hp). simpl.
        unfold ldb_Get. by rewrite Hcl, Htomb.
    + specialize (Hlive _ _ Hv Hnn).
      assert (Hgoal : (Has d1 key false bh).2 = (true, None)
        ∧ ∀ t a rec, is_Some (h !! a) → decodeRecord (EncodeBytesItem v h).1 t = inl rec →
            (Get d1 h key (VPtr t a) false bh).2 = (VPtr t a, None)
            ∧ (Get d1 h key (VPtr t a) false bh).1.2 = <[a:=rec]> h).
      { split.
        - rewrite (Has_direct_miss d1 key bh He1 Hp). unfold ldb_Has. simpl.
          rewrite Hcl, Hlive. by rewrite bool_decide_eq_true_2 by (by eexists).
        - intros t a rec [r0 Ha] Hdec. unfold Get, read_through. rewrite He1.
          unfold getCacheKey. rewrite (lru_Get_miss _ _ Hp). simpl.
          unfold ldb_Get. rewrite Hcl, Hlive. simpl. by rewrite Ha, Hdec. }
      by destruct v.
  - rewrite (Has_direct_miss d1 key bh He1 Hp). unfold ldb_Has. simpl.
    by rewrite Hcl, Hopen, (Hother _ Hv).
Qed.

(** X15. A promotion that fails writes no value: the store then differs from
    the store before the call only at keys that the overlay had deleted, which
    are gone (the deletions made before the failure are not undone), and the
    overlay stays registered. When the failure is that of the loop over the
    overlay, the error is the loop's and the hot cache is as before; when the
    loop ends without error the failure is that of the batch write, and the
    hot cache has been purged all the same. *)
Theorem X15_failed_promotion_writes_no_value d h x e :
  (SaveDryRunResult d h x).2 = Some e →
  let d1 := (SaveDryRunResult d h x).1 in
  ∃ c, dryRunCaches d !! x = Some c
    ∧ (∀ kb, ldb_data (db d1) !! kb = ldb_data (db d) !! kb
         ∨ (ldb_data (db d1) !! kb = None
            ∧ ∃ ck, hex.DecodeString ck = inl kb ∧ Peek c ck = Some VNil))
    ∧ is_Some (dryRunCaches d1 !! x)
    ∧ (∀ e', (save_entries (Keys c) c (db d) [] h).2 = Some e' →
         e = e' ∧ cacheItems d1 = cacheItems d)
    ∧ ((save_entries (Keys c) c (db d) [] h).2 = None →
         (batch_Write (save_entries (Keys c) c (db d) [] h).1.1.2
            (save_entries (Keys c) c (db d) [] h).1.2).2 = Some e
         ∧ db d1 = (save_entries (Keys c) c (db d) [] h).1.1.2
         ∧ cacheItems d1 = Purge (cacheItems d)).
Proof.
  intros Herr d1. subst d1. revert Herr. unfold SaveDryRunResult.
  destruct (dryRunCaches d !! x) as [c|] eqn:Hc; [|done].
  destruct (Len c =? 0); [done|]. intros Herr. exists c. split; [done|]. revert Herr.
  destruct (save_entries_store h (Keys c) c (db d) []) as (Hcl & Hbe & Hd).
  destruct (save_entries (Keys c) c (db d) [] h) as [[[c' l] b] [e'|]];
    simpl in Hcl, Hbe, Hd; cbn [fst snd].
  - intros [= <-]. split; [done|]. split; [|split; [|done]].
    + simpl. rewrite lookup_insert_eq. by eexists.
    + by intros e0 [= <-].
  - unfold batch_Write. cbn. rewrite Hcl, Hbe.
    destruct (ldb_closed (db d)); [|destruct (ldb_batch_err (db d)); [|done]];
      intros [= <-]; cbn; (split; [done|]);
      (split; [rewrite lookup_insert_eq; by eexists|]); (split; [done|]);
      intros _; by rewrite ?Hcl, ?Hbe.
Qed.

(** X16. [SaveDryRunResult] for a hash that has no overlay, or whose overlay
    is empty, is not an error: it returns nil and changes nothing, the hot
    cache included. This is the case right after [InitDryRunMode] without a
    parent. *)
Theorem X16_promotion_of_nothing d h x :
  (∀ c, dryRunCaches d !! x = Some c → items c = []) →
  SaveDryRunResult d h x = (d, None)
  ∧ (0 < cacheLimit d →
     SaveDryRunResult (InitDryRunMode d h x zeroHash).1.1 h x
     = ((InitDryRunMode d h x zeroHash).1.1, None)).
Proof.
  intros Hempty.
  assert (Hgen : ∀ d', (∀ c, dryRunCaches d' !! x = Some c → items c = []) →
                       SaveDryRunResult d' h x = (d', None)).
  { intros d' He'. unfold SaveDryRunResult.
    destruct (dryRunCaches d' !! x) as [c|] eqn:Hc; [|done].
    unfold Len. by rewrite (He' c eq_refl). }
  split; [by apply Hgen|]. intros Hlimit. apply Hgen. intros c.
  destruct (InitDryRunMode_root d h x Hlimit) as (d2 & n & -> & _). simpl.
  unfold register_cache. destruct (decide (x ≠ M1DryrunCacheHash)); simpl;
    rewrite lookup_insert_eq; by intros [= <-].
Qed.

(** X17. A new database always has a positive cache limit: the limit asked
    for when it is positive, [defaultCacheLimit] otherwise. It has no overlay
    and an empty hot cache, so the first [InitDryRunMode] succeeds without a
    parent and fails with any parent. *)
Theorem X17_new_database (store : LDBDatabase) (empty : list byte) (limit : Z) h x p :
  p ≠ zeroHash →
  ∃ d, NewBatchDatabaseWithEncode store empty limit = Some d
    ∧ cacheLimit d = (if 0 <? limit then limit else 1024000)
    ∧ 0 < cacheLimit d
    ∧ Z.pos (size (cacheItems d)) = cacheLimit d
    ∧ items (cacheItems d) = [] ∧ dryRunCaches d = ∅ ∧ recentCaches d = []
    ∧ db d = store ∧ emptyKey d = empty
    ∧ (InitDryRunMode d h x zeroHash).2 = None
    ∧ (InitDryRunMode d h x p).2 = Some (ErrParentCacheNotFound x p).
Proof.
  intros Hp. unfold NewBatchDatabaseWithEncode.
  set (n := if 0 <? limit then limit else defaultCacheLimit).
  assert (Hpos : 0 < n).
  { subst n. destruct (0 <? limit) eqn:Hl; [by apply Z.ltb_lt in Hl|done]. }
  assert (Hn : n = if 0 <? limit then limit else 1024000) by done.
  clearbody n. destruct n as [|n|n]; try lia. cbn [lru_New].
  eexists. split; [done|]. cbn [cacheLimit cacheItems size items dryRunCaches recentCaches
                                db emptyKey].
  do 8 (split; [done|]). split.
  - by destruct (InitDryRunMode_root (mkBatchDatabase store empty (mkCache n []) ∅ [] (Z.pos n))
                   h x Hpos) as (d2 & m & -> & _).
  - apply InitDryRunMode_no_parent; [done|done|]. intros c Hc. simpl in Hc. by rewrite lookup_empty in Hc.
Qed.

End PromotionMore.

(** * Further properties of the block validator *)

Section ValidatorMore.
Context `{Collaborators}.
Implicit Types (s : TomoX) (st : StateDB) (tx : Transaction) (txs : list Transaction)
  (pd : list (list byte * slice)).

(** Without an order, [validateMatchedOrder] returns an error. *)
Lemma validateMatchedOrder_no_order s st tx :
  (validateMatchedOrder s st tx).2.1.1 = None → is_Some (validateMatchedOrder s st tx).2.2.
Proof.
  unfold validateMatchedOrder.
  destruct (json_Unmarshal (tx_Data tx)) as [txMatch|e]; [|by eexists].
  destruct (DecodeOrder txMatch) as [order|e]; [|by eexists].
  destruct (VerifyMatchedOrder order st) as [e|]; [by eexists|].
  destruct (GetOrderBook s (order_PairName order)) as [ob|e]; [|by eexists].
  destruct (VerifyOldTomoXState txMatch s ob) as [e|]; [by eexists|].
  cbv zeta. destruct (ProcessOrder s ob order true) as [s1 [e|]]; [by eexists|].
  destruct (MarkOrderAsProcessed s1 (order_Hash order)) as [s2 [e|]]; [done|].
  destruct (VerifyNewTomoXState txMatch s2 ob) as [e|]; [done|].
  by destruct (logTrades s2 (tx_Hash tx) order (GetTrades txMatch)) as [s3 [e|]].
Qed.

(** [ValidateBody] once the checks of the header have passed. *)
Lemma ValidateBody_checked (v : BlockValidator) (block : Block) s st :
  HasBlockAndState (bc v) (block_Hash block) (NumberU64 block) = false →
  HasBlockAndState (bc v) (block_ParentHash block) (u64 (NumberU64 block - 1)) = true →
  engine_VerifyUncles v (bc v) block = None →
  CalcUncleHash (Uncles block) = header_UncleHash block →
  DeriveSha (Transactions block) = header_TxHash block →
  engine_GetTomoXService v = Some s →
  State (bc v) = inl st →
  ∀ s1 pd1, validate_txs s st (Transactions block) [] = (s1, pd1, None) →
  ValidateBody v block = (Some s1, None).
Proof.
  intros Hknown Hparent Huncles Huh Hth Hsvc Hstate s1 pd1 Hloop. unfold ValidateBody.
  rewrite Hknown, Hparent, Huncles, Hsvc, Hstate, Hloop. simpl.
  rewrite decide_False by (intros Hne; by apply Hne).
  by rewrite decide_False by (intros Hne; by apply Hne).
Qed.

(** The loop of [ValidateBody] looks at matching transactions only. *)
Lemma validate_txs_filter st txs : ∀ s pd,
  validate_txs s st txs pd
  = validate_txs s st (filter (λ tx, IsMatchingTransaction tx = true) txs) pd.
Proof.
  induction txs as [|tx txs IH]; intros s pd; [done|].
  destruct (IsMatchingTransaction tx) eqn:Hm.
  - rewrite filter_cons_True by done. cbn [validate_txs]. rewrite Hm.
    destruct (validateMatchedOrder s st tx) as [s1 [[[order|] ol] err]].
    + destruct (EncodeOrderItem order) as [b [e|]]; [done|].
      destruct ol as [ol|].
      * destruct (EncodeOrderList ol) as [b' [e|]]; [done|]. apply IH.
      * destruct err; apply IH.
    + destruct err; [done|apply IH].
  - rewrite filter_cons_False by (by rewrite Hm). cbn [validate_txs]. rewrite Hm. apply IH.
Qed.

(** X18. [ValidateBody] leaves the matching service alone until every check
    of the header has passed: when the block is known, its parent is unknown
    or pruned, the uncles do not verify, the uncle or the transaction root
    does not match, there is no service or the chain has no state, the call
    returns an error and the service is as it was (no order has been
    processed, no rollback made). *)
Theorem X18_header_checks_guard_the_service (v : BlockValidator) (block : Block) :
  HasBlockAndState (bc v) (block_Hash block) (NumberU64 block) = true
  ∨ HasBlockAndState (bc v) (block_ParentHash block) (u64 (NumberU64 block - 1)) = false
  ∨ is_Some (engine_VerifyUncles v (bc v) block)
  ∨ CalcUncleHash (Uncles block) ≠ header_UncleHash block
  ∨ DeriveSha (Transactions block) ≠ header_TxHash block
  ∨ engine_GetTomoXService v = None
  ∨ (∃ e, State (bc v) = inr e) →
  (ValidateBody v block).1 = engine_GetTomoXService v
  ∧ is_Some (ValidateBody v block).2.
Proof.
  intros Hcase. unfold ValidateBody.
  destruct (HasBlockAndState (bc v) (block_Hash block) (NumberU64 block)) eqn:Hknown;
    [by (split; [|eexists])|].
  destruct (HasBlockAndState (bc v) (block_ParentHash block) (u64 (NumberU64 block - 1)))
    eqn:Hparent; simpl.
  2:{ by destruct (HasBlock _ _ _); simpl; (split; [|eexists]). }
  destruct (engine_VerifyUncles v (bc v) block) as [e|] eqn:Hu; [by (split; [|eexists])|].
  destruct (decide (CalcUncleHash (Uncles block) ≠ header_UncleHash block)) as [Huh|Huh];
    [by (split; [|eexists])|].
  destruct (decide (DeriveSha (Transactions block) ≠ header_TxHash block)) as [Hth|Hth];
    [by (split; [|eexists])|].
  destruct (engine_GetTomoXService v) as [s|] eqn:Hs; [|by (split; [|eexists])].
  destruct (State (bc v)) as [st|e] eqn:Hst; [|by (split; [|eexists])].
  exfalso. destruct Hcase as [?|[?|[[? ?]|[?|[?|[?|[? ?]]]]]]]; done.
Qed.

(** X19. Transactions that are not matching transactions play no part in the
    loop of [ValidateBody]: it returns what it returns on the matching
    transactions alone. A block without matching transactions that passes the
    checks of the header is valid, and the matching service is untouched. *)
Theorem X19_only_matching_transactions_count (v : BlockValidator) (block : Block) s st pd :
  HasBlockAndState (bc v) (block_Hash block) (NumberU64 block) = false →
  HasBlockAndState (bc v) (block_ParentHash block) (u64 (NumberU64 block - 1)) = true →
  engine_VerifyUncles v (bc v) block = None →
  CalcUncleHash (Uncles block) = header_UncleHash block →
  DeriveSha (Transactions block) = header_TxHash block →
  engine_GetTomoXService v = Some s →
  State (bc v) = inl st →
  validate_txs s st (Transactions block) pd
  = validate_txs s st (filter (λ tx, IsMatchingTransaction tx = true) (Transactions block)) pd
  ∧ (Forall (λ tx, IsMatchingTransaction tx = false) (Transactions block) →
     ValidateBody v block = (Some s, None)).
Proof.
  intros Hknown Hparent Huncles Huh Hth Hsvc Hstate. split; [apply validate_txs_filter|].
  intros Hnone. apply (ValidateBody_checked v block s st) with (pd1 := []); try done.
  rewrite validate_txs_filter.
  assert (Hf : ∀ txs, Forall (λ tx, IsMatchingTransaction tx = false) txs →
                 filter (λ tx, IsMatchingTransaction tx = true) txs = []).
  { intros txs Hall. induction Hall as [|tx txs Hm _ IH]; [done|].
    by rewrite filter_cons_False by (by rewrite Hm). }
  by rewrite (Hf _ Hnone).
Qed.

(** X20. [validateMatchedOrder] returns the order exactly when the matching
    engine has processed it: with an order, the payload was unmarshalled and
    decoded to that order, the order and the old state verified and
    [ProcessOrder] succeeded; without an order there is an error and no price
    level, and the service is as before or as the failed [ProcessOrder] left
    it. In particular the call never succeeds without returning the order. *)
Theorem X20_order_returned_iff_processed s st tx :
  match (validateMatchedOrder s st tx).2.1.1 with
  | Some order =>
      ∃ txMatch ob s1,
        json_Unmarshal (tx_Data tx) = inl txMatch ∧ DecodeOrder txMatch = inl order
        ∧ VerifyMatchedOrder order st = None
        ∧ GetOrderBook s (order_PairName order) = inl ob
        ∧ VerifyOldTomoXState txMatch s ob = None
        ∧ ProcessOrder s ob order true = (s1, None)
  | None =>
      is_Some (validateMatchedOrder s st tx).2.2
      ∧ (validateMatchedOrder s st tx).2.1.2 = None
      ∧ ((validateMatchedOrder s st tx).1 = s
         ∨ ∃ order ob, ProcessOrder s ob order true
                       = ((validateMatchedOrder s st tx).1, (validateMatchedOrder s st tx).2.2))
  end.
Proof.
  unfold validateMatchedOrder.
  destruct (json_Unmarshal (tx_Data tx)) as [txMatch|e] eqn:Hj; [|by (split; [eexists|auto])].
  destruct (DecodeOrder txMatch) as [order|e] eqn:Hd; [|by (split; [eexists|auto])].
  destruct (VerifyMatchedOrder order st) as [e|] eqn:Hv; [by (split; [eexists|auto])|].
  destruct (GetOrderBook s (order_PairName order)) as [ob|e] eqn:Hob;
    [|by (split; [eexists|auto])].
  destruct (VerifyOldTomoXState txMatch s ob) as [e|] eqn:Hold; [by (split; [eexists|auto])|].
  cbv zeta. destruct (ProcessOrder s ob order true) as [s1 [e|]] eqn:Hp.
  - cbn [fst snd]. split; [by eexists|]. split; [done|]. right. by exists order, ob.
  - destruct (MarkOrderAsProcessed s1 (order_Hash order)) as [s2 [e|]];
      [by exists txMatch, ob, s1|].
    destruct (VerifyNewTomoXState txMatch s2 ob) as [e|]; [by exists txMatch, ob, s1|].
    destruct (logTrades s2 (tx_Hash tx) order (GetTrades txMatch)) as [s3 [e|]];
      by exists txMatch, ob, s1.
Qed.

(** X21. The records gathered by the loop of [ValidateBody]: the loop only
    appends to the list it is given, at most one record for each matching
    transaction, and when it ends without error it has appended exactly one
    record for each matching transaction. *)
Theorem X21_one_record_per_matching_transaction st txs : ∀ s pd,
  ∃ new,
    (validate_txs s st txs pd).1.2 = pd ++ new
    ∧ (length new ≤ length (filter (λ tx, IsMatchingTransaction tx = true) txs))%nat
    ∧ ((validate_txs s st txs pd).2 = None →
       length new = length (filter (λ tx, IsMatchingTransaction tx = true) txs)).
Proof.
  induction txs as [|tx txs IH]; intros s pd.
  - exists []. by rewrite app_nil_r.
  - destruct (IsMatchingTransaction tx) eqn:Hm.
    + rewrite filter_cons_True by done. cbn [validate_txs]. rewrite Hm.
      pose proof (validateMatchedOrder_no_order s st tx) as Hcases.
      assert (Hstop : ∀ s1 (e : VError), ∃ new,
        (s1, pd, Some e).1.2 = pd ++ new
        ∧ (length new ≤ length (tx :: filter (λ tx, IsMatchingTransaction tx = true) txs))%nat
        ∧ ((s1, pd, Some e).2 = None →
           length new = length (tx :: filter (λ tx, IsMatchingTransaction tx = true) txs))).
      { intros s1 e. exists []. rewrite app_nil_r. simpl. split; [done|]. split; [lia|done]. }
      assert (Hgo : ∀ s1 rec, ∃ new,
        (validate_txs s1 st txs (pd ++ [rec])).1.2 = pd ++ new
        ∧ (length new ≤ length (tx :: filter (λ tx, IsMatchingTransaction tx = true) txs))%nat
        ∧ ((validate_txs s1 st txs (pd ++ [rec])).2 = None →
           length new = length (tx :: filter (λ tx, IsMatchingTransaction tx = true) txs))).
      { intros s1 rec. destruct (IH s1 (pd ++ [rec])) as (new & Heq & Hle & Hok).
        exists (rec :: new). rewrite Heq, <- app_assoc. simpl. split; [done|].
        split; [lia|]. intros Hn. by rewrite (Hok Hn). }
      destruct (validateMatchedOrder s st tx) as [s1 [[[order|] ol] err]];
        cbn [fst snd] in Hcases.
      * destruct (EncodeOrderItem order) as [b [e|]]; [apply Hstop|].
        destruct ol as [ol|].
        -- destruct (EncodeOrderList ol) as [b' [e|]]; [apply Hstop|apply Hgo].
        -- destruct err; apply Hgo.
      * destruct (Hcases eq_refl) as [e He]. simpl in He. subst err. apply Hstop.
    + rewrite filter_cons_False by (by rewrite Hm). cbn [validate_txs]. rewrite Hm. apply IH.
Qed.

(** X22. [logTrades] on a node that is not an SDK node stores nothing: the
    service is unchanged and there is no error, whatever the trades. On any
    node, the only error it returns is the "failed to store tradeSDK" error
    built from the error of the sink. *)
Theorem X22_log_trades s (txHash : Hash) (order : OrderItem) (trades : list Trade) :
  (IsSDKNode s = false → logTrades s txHash order trades = (s, None))
  ∧ match (logTrades s txHash order trades).2 with
    | Some e => ∃ e', e = ErrFailedStoreTrade e'
    | None => True
    end.
Proof.
  split.
  - intros Hsdk. induction trades as [|trade trades IH]; [done|].
    cbn [logTrades]. by rewrite Hsdk.
  - revert s. induction trades as [|trade trades IH]; intros s; [done|].
    cbn [logTrades]. destruct (IsSDKNode s); [|apply IH].
    destruct (sink_Put s (makeTrade txHash order trade)) as [s1 [e|]]; [by eexists|apply IH].
Qed.

(** [CalcGasLimit] in exact integers, when nothing wraps around. *)
Lemma CalcGasLimit_no_wrap (params : Params) (parent : Block) :
  let gl := GasLimit parent in
  let gu := GasUsed parent in
  let D := gl / 1024 - 1 in
  let C := (gu + gu / 2) / 1024 in
  1024 ≤ gl < two64 → 0 ≤ gu → gu + gu / 2 < two64 →
  gl - D + C < two64 → gl + D < two64 →
  CalcGasLimit params parent
  = if Z.max (gl - D + C) (MinGasLimit params) <? TargetGasLimit params
    then Z.min (gl + D) (TargetGasLimit params)
    else Z.max (gl - D + C) (MinGasLimit params).
Proof.
  intros gl gu D C Hgl Hgu Hc Hl Hd.
  unfold CalcGasLimit, GasLimitBoundDivisor, u64. fold gl gu. subst D C. clearbody gl gu.
  change two64 with 18446744073709551616 in *.
  rewrite (Z.mod_small (gu + gu / 2)) by zlia.
  rewrite (Z.mod_small (gl / 1024 - 1)) by zlia.
  rewrite (Z.mod_small (gl - (gl / 1024 - 1))) by zlia.
  rewrite (Z.mod_small (gl - (gl / 1024 - 1) + (gu + gu / 2) / 1024)) by zlia.
  rewrite (Z.mod_small (gl + (gl / 1024 - 1))) by zlia.
  generalize (gl - (gl / 1024 - 1) + (gu + gu / 2) / 1024). intros L.
  generalize (gl + (gl / 1024 - 1)). intros U.
  destruct (L <? MinGasLimit params) eqn:Hmin.
  - apply Z.ltb_lt in Hmin. rewrite Z.max_r by lia.
    destruct (MinGasLimit params <? TargetGasLimit params); [|done].
    destruct (TargetGasLimit params <? U) eqn:Hu.
    + apply Z.ltb_lt in Hu. by rewrite Z.min_r by lia.
    + apply Z.ltb_ge in Hu. by rewrite Z.min_l by lia.
  - apply Z.ltb_ge in Hmin. rewrite Z.max_l by lia.
    destruct (L <? TargetGasLimit params); [|done].
    destruct (TargetGasLimit params <? U) eqn:Hu.
    + apply Z.ltb_lt in Hu. by rewrite Z.min_r by lia.
    + apply Z.ltb_ge in Hu. by rewrite Z.min_l by lia.
Qed.

(** X23. The strategy of [CalcGasLimit], when nothing wraps around. At or
    above the target the result follows the gas used: it is above the
    parent's limit when the parent used two thirds of its limit or more, and
    below it when the parent used less than two thirds by a margin of 4096/3
    gas (the minimum permitting). Below the target the gas used plays no part:
    the result is the parent's limit raised by [gasLimit/1024 - 1] and capped
    by the target, hence above the parent's limit when that is 2048 or more
    and below the target. *)
Theorem X23_calc_gas_limit_strategy (params : Params) (parent : Block) :
  let gl := GasLimit parent in
  let gu := GasUsed parent in
  let D := gl / 1024 - 1 in
  let C := (gu + gu / 2) / 1024 in
  let L := Z.max (gl - D + C) (MinGasLimit params) in
  1024 ≤ gl < two64 → 0 ≤ gu → gu + gu / 2 < two64 →
  gl - D + C < two64 → gl + D < two64 →
  (TargetGasLimit params ≤ L →
     CalcGasLimit params parent = L
     ∧ (2 * gl ≤ 3 * gu → gl < CalcGasLimit params parent)
     ∧ (3 * gu + 4096 ≤ 2 * gl → MinGasLimit params < gl → CalcGasLimit params parent < gl))
  ∧ (L < TargetGasLimit params →
     CalcGasLimit params parent = Z.min (gl + D) (TargetGasLimit params)
     ∧ CalcGasLimit params parent ≤ TargetGasLimit params
     ∧ (gl ≤ TargetGasLimit params → gl ≤ CalcGasLimit params parent)
     ∧ (2048 ≤ gl → gl < TargetGasLimit params → gl < CalcGasLimit params parent)).
Proof.
  intros gl gu D C L Hgl Hgu Hc Hl Hd.
  rewrite (CalcGasLimit_no_wrap params parent Hgl Hgu Hc Hl Hd).
  fold gl gu D C L. subst L D C. clearbody gl gu.
  generalize (MinGasLimit params) (TargetGasLimit params). intros mn tg. split.
  - intros Hge. destruct (_ <? tg) eqn:Hlt; [apply Z.ltb_lt in Hlt; lia|].
    split; [done|]. split; intros; zlia.
  - intros Hlt. destruct (_ <? tg) eqn:Hlt'; [|apply Z.ltb_ge in Hlt'; lia].
    split; [done|]. repeat split; intros; zlia.
Qed.

(** X24. The result of [CalcGasLimit] and the minimum, when nothing wraps
    around and the minimum does not exceed the target. The result is a 64-bit
    value. It is at least the minimum whenever the parent's limit is. But the
    minimum is no floor: for a parent whose limit is so far below the minimum
    that the allowed rise does not reach it, the result is the parent's limit
    plus the rise, below the minimum. *)
Theorem X24_calc_gas_limit_minimum (params : Params) (parent : Block) :
  let gl := GasLimit parent in
  let gu := GasUsed parent in
  let D := gl / 1024 - 1 in
  let C := (gu + gu / 2) / 1024 in
  1024 ≤ gl < two64 → 0 ≤ gu → gu + gu / 2 < two64 →
  gl - D + C < two64 → gl + D < two64 →
  0 ≤ MinGasLimit params ≤ TargetGasLimit params → TargetGasLimit params < two64 →
  0 ≤ CalcGasLimit params parent < two64
  ∧ (MinGasLimit params ≤ gl → MinGasLimit params ≤ CalcGasLimit params parent)
  ∧ (gl + D < MinGasLimit params → gl - D + C < TargetGasLimit params →
     MinGasLimit params < TargetGasLimit params →
     CalcGasLimit params parent = gl + D ∧ CalcGasLimit params parent < MinGasLimit params).
Proof.
  intros gl gu D C Hgl Hgu Hc Hl Hd Hmin Htg.
  rewrite (CalcGasLimit_no_wrap params parent Hgl Hgu Hc Hl Hd).
  fold gl gu D C. subst D C. clearbody gl gu.
  revert Hmin Htg. generalize (MinGasLimit params) (TargetGasLimit params).
  intros mn tg Hmin Htg.
  destruct (_ <? tg) eqn:Hlt; [apply Z.ltb_lt in Hlt|apply Z.ltb_ge in Hlt];
    (split; [zlia|split; intros; zlia]).
Qed.

End ValidatorMore.

Section ValidateStateFacts.
Context `{StateCollaborators}.

(** X25. [ValidateState] returns nil exactly when the gas used, the bloom of
    the receipts, the root of the receipts and the state root are those of
    the block. The state root is computed, and the state database changed by
    it, only when the first three agree; then the state database is the
    finalised one even when the roots differ. The parent block plays no part. *)
Theorem X25_validate_state (block parent parent' : StateBlock) (statedb : StateDB)
    (receipts : Receipts) (usedGas : Z) :
  let early := GasUsed (sb_block block) = usedGas
               ∧ CreateBloom receipts = header_Bloom block
               ∧ DeriveShaReceipts receipts = header_ReceiptHash block in
  let final := IntermediateRoot statedb (IsEIP158 (NumberU64 (sb_block block))) in
  ((ValidateState block parent statedb receipts usedGas).2 = None
   ↔ early ∧ final.2 = header_Root block)
  ∧ (early → (ValidateState block parent statedb receipts usedGas).1 = final.1)
  ∧ (¬ early → (ValidateState block parent statedb receipts usedGas).1 = statedb)
  ∧ ValidateState block parent' statedb receipts usedGas
    = ValidateState block parent statedb receipts usedGas.
Proof.
  intros early final. subst early final. unfold ValidateState.
  destruct (decide (GasUsed (sb_block block) ≠ usedGas)) as [Hg|Hg];
    [by (repeat split; try tauto; intros; try tauto)|].
  apply dec_stable in Hg.
  destruct (decide (CreateBloom receipts ≠ header_Bloom block)) as [Hb|Hb];
    [by (repeat split; try tauto; intros; try tauto)|].
  apply dec_stable in Hb.
  destruct (decide (DeriveShaReceipts receipts ≠ header_ReceiptHash block)) as [Hr|Hr];
    [by (repeat split; try tauto; intros; try tauto)|].
  apply dec_stable in Hr.
  destruct (IntermediateRoot statedb (IsEIP158 (NumberU64 (sb_block block)))) as [st' root].
  destruct (decide (header_Root block ≠ root)) as [Hroot|Hroot]; simpl.
  - repeat split; try done; try tauto. intros (_ & Heq). by destruct Hroot.
  - apply dec_stable in Hroot. repeat split; try done; tauto.
Qed.

End ValidateStateFacts.

(** * The further properties on explicit inputs *)

Lemma X1_direct_put_then_read_witness :
  (Put fresh_db one_record key61 (VPtr TItem 0) false 0%N).2 = None
  ∧ ldb_data (db (Put fresh_db one_record key61 (VPtr TItem 0) false 0%N).1) !! [Byte.x61]
    = Some [Byte.x01; Byte.x2a]
  ∧ (Get (Put fresh_db one_record key61 (VPtr TItem 0) false 0%N).1 one_record key61
       (VPtr TItem 3) false 9%N).2 = (VPtr TItem 0, None).
Proof.
  destruct (X1_direct_put_then_read fresh_db one_record key61 (VPtr TItem 0) (VPtr TItem 3)
              0%N 9%N [Byte.x01; Byte.x2a]) as (Hok & Hstore & _ & _ & Hget & _);
    try (vm_compute; reflexivity).
  split; [exact Hok|]. split; [exact Hstore|exact Hget].
Defined.

Lemma X2_direct_delete_then_read_witness :
  (Has overlay_db key61 false 0%N).2 = (true, None)
  ∧ (Has (Delete overlay_db key61 false 0%N).1 key61 false 0%N).2 = (false, None)
  ∧ (Get (Delete overlay_db key61 false 0%N).1 one_record key61 (VPtr TItem 0) false 0%N).2
    = (VNil, Some ErrNotFound).
Proof.
  destruct (X2_direct_delete_then_read overlay_db one_record key61 (VPtr TItem 0) 0%N 0%N)
    as (_ & _ & Hhas & Hget & _); try (vm_compute; reflexivity).
  split; [vm_compute; reflexivity|]. split; [exact Hhas|exact Hget].
Defined.

Lemma X3_direct_get_populates_cache_witness :
  (Get cold_db one_record key61 (VPtr TItem 0) false 0%N).2 = (VPtr TItem 0, None)
  ∧ (Get (set_db (Get cold_db one_record key61 (VPtr TItem 0) false 0%N).1.1 (mkLDB ∅ true))
       (Get cold_db one_record key61 (VPtr TItem 0) false 0%N).1.2 key61 (VPtr TItem 5)
       false 0%N).2 = (VPtr TItem 0, None).
Proof.
  destruct (X3_direct_get_populates_cache cold_db one_record key61 0%N [Byte.x01; Byte.x2a]
              TItem 0%nat [Byte.x2a]) as (Hfirst & _ & _ & Hnext);
    try (vm_compute; reflexivity); [by eexists|].
  split; [exact Hfirst|]. exact (proj1 (Hnext (mkLDB ∅ true) (VPtr TItem 5) 0%N)).
Defined.

Lemma X4_failed_direct_put_stays_cached_witness :
  (Put closed_promotion_db one_record key63 (VPlain [Byte.x07]) false 0%N).2 = Some ErrClosed
  ∧ (Get (Put closed_promotion_db one_record key63 (VPlain [Byte.x07]) false 0%N).1
       one_record key63 (VPtr TItem 0) false 0%N).2 = (VPlain [Byte.x07], None).
Proof.
  pose proof (@X4_failed_direct_put_stays_cached tagged_tomox closed_promotion_db one_record
                key63 (VPlain [Byte.x07]) (VPtr TItem 0) 0%N 0%N ErrClosed) as Hx.
  destruct Hx as (_ & _ & _ & Hget); try (vm_compute; reflexivity).
  split; [vm_compute; reflexivity|exact Hget].
Defined.

Lemma X5_staged_put_then_read_witness :
  (Get (Put overlay_db one_record key62 (VPlain [Byte.x07]) true 5%N).1 one_record key62
     (VPtr TItem 0) true 5%N).2 = (VPlain [Byte.x07], None)
  ∧ (Has (Put overlay_db one_record key62 (VPlain [Byte.x07]) true 5%N).1 key62 true 5%N).2
    = (true, None).
Proof.
  pose proof (@X5_staged_put_then_read tagged_tomox overlay_db one_record key62 (VPlain [Byte.x07])
                (VPtr TItem 0) 5%N (mkCache 1024000 [])) as Hx.
  destruct (Hx ltac:(vm_compute; reflexivity) ltac:(vm_compute; reflexivity)
               (db overlay_db) (cacheItems overlay_db)) as (Hhas & Hget & _).
  split; [exact Hget|exact Hhas].
Defined.

Lemma X6_staged_has_falls_through_witness :
  Has two_key_db key61 true 9%N = (two_key_db, (true, None))
  ∧ Has two_key_db key63 true 5%N = (two_key_db, (false, None)).
Proof.
  assert (Hno : dryRunCaches two_key_db !! 9%N = None) by (vm_compute; reflexivity).
  assert (Hempty : dryRunCaches two_key_db !! 5%N = Some (mkCache 1024000 []))
    by (vm_compute; reflexivity).
  assert (He1 : IsEmptyKey two_key_db key61 = false) by (vm_compute; reflexivity).
  assert (He3 : IsEmptyKey two_key_db key63 = false) by (vm_compute; reflexivity).
  pose proof (X6_staged_has_falls_through two_key_db key61 9%N He1) as H1.
  pose proof (X6_staged_has_falls_through two_key_db key63 5%N He3) as H2.
  split.
  - rewrite (proj1 (H1 ltac:(intros c Hc; rewrite Hno in Hc; discriminate))).
    vm_compute. reflexivity.
  - rewrite (proj1 (H2 ltac:(intros c Hc; rewrite Hempty in Hc; injection Hc as <-;
                             reflexivity))).
    vm_compute. reflexivity.
Defined.

Lemma X8_recent_hashes_bounded_witness :
  (length (recentCaches (InitDryRunMode overlay_db one_record 5%N zeroHash).1.1) ≤ 200)%nat
  ∧ recentCaches (DropDryrunCache overlay_db 5%N) = [5%N].
Proof.
  destruct (X8_recent_hashes_bounded overlay_db one_record 5%N zeroHash key61 VNil true)
    as (Hinit & Hdrop & _); [vm_compute; lia|].
  split; [exact Hinit|]. rewrite Hdrop. vm_compute. reflexivity.
Defined.

Lemma X9_miner_overlay_not_evicted_witness :
  (M1DryrunCacheHash ∉ recentCaches (InitDryRunMode miner_db [] 6%N M1DryrunCacheHash).1.1)
  ∧ is_Some (dryRunCaches (InitDryRunMode miner_db [] 6%N M1DryrunCacheHash).1.1
               !! M1DryrunCacheHash).
Proof.
  destruct (X9_miner_overlay_not_evicted miner_db [] 6%N M1DryrunCacheHash) as [Hrec Hkeep].
  - apply (bool_decide_unpack _). vm_compute. exact I.
  - split; [exact Hrec|]. apply Hkeep; [vm_compute; discriminate|].
    apply (bool_decide_unpack _). vm_compute. exact I.
Defined.

Lemma X10_init_without_parent_witness :
  (InitDryRunMode fresh_db [] 5%N zeroHash).2 = None
  ∧ HasDryrunCache (InitDryRunMode fresh_db [] 5%N zeroHash).1.1 5%N = false
  ∧ (InitDryRunMode (InitDryRunMode fresh_db [] 5%N zeroHash).1.1 [] 6%N 5%N).2
    = Some (ErrParentCacheNotFound 6%N 5%N).
Proof.
  destruct (X10_init_without_parent fresh_db [] 5%N) as (Hok & _ & _ & Hhas & Hparent);
    [vm_compute; reflexivity|].
  split; [exact Hok|]. split; [exact Hhas|]. apply Hparent. vm_compute. discriminate.
Defined.

Lemma X12_inheritance_is_complete_witness :
  ∃ child,
    dryRunCaches (InitDryRunMode mixed_parent_db one_record 6%N 5%N).1.1 !! 6%N = Some child
    ∧ (∃ a, Peek child (getCacheKey key61) = Some (VPtr TItem a))
    ∧ Peek child (getCacheKey key62) = Some VNil
    ∧ Peek child (getCacheKey key63) = Some (VPlain [Byte.x09])
    ∧ Peek child (getCacheKey key64) = None
    ∧ (∃ a, Peek child (getCacheKey key65) = Some (VPtr TOrderItem a)).
Proof.
  destruct (@X12_inheritance_is_complete tagged_tomox mixed_parent_db one_record 6%N 5%N
              (InitDryRunMode mixed_parent_db one_record 6%N 5%N).1 mixed_parent)
    as (child & Hchild & Hall).
  - vm_compute. discriminate.
  - apply injective_projections; [done|]. vm_compute. reflexivity.
  - vm_compute. reflexivity.
  - vm_compute. discriminate.
  - exists child. split; [exact Hchild|].
    split; [exact (Hall (getCacheKey key61) (VPtr TItem 0) eq_refl)|].
    split; [exact (Hall (getCacheKey key62) VNil eq_refl)|].
    split; [exact (Hall (getCacheKey key63) (VPlain [Byte.x09]) eq_refl)|].
    split; [exact (Hall (getCacheKey key64) (VPtr TOtherPtr 0) eq_refl)|].
    exact (Hall (getCacheKey key65) (VNilPtr TOrderItem) eq_refl).
Defined.

Lemma X13_full_overlay_evicts_oldest_witness :
  (Has tiny_overlay_db key61 true 5%N).2 = (false, None)
  ∧ (Has (Put tiny_overlay_db one_record key62 (VPlain [Byte.x09]) true 5%N).1 key61 true 5%N).2
    = (true, None).
Proof.
  pose proof (@X13_full_overlay_evicts_oldest tagged_tomox tiny_overlay_db one_record key62
                (VPlain [Byte.x09]) 5%N (mkCache 1 [(getCacheKey key61, VNil)]) []
                (getCacheKey key61) VNil key61) as Hx.
  destruct Hx as (_ & _ & Hhas); try (vm_compute; reflexivity); [vm_compute; discriminate|].
  split; [vm_compute; reflexivity|]. rewrite Hhas. vm_compute. reflexivity.
Defined.

Lemma X14_promoted_then_direct_read_witness :
  (SaveDryRunResult promotion_db one_record 5%N).2 = None
  ∧ (Has (SaveDryRunResult promotion_db one_record 5%N).1 key61 false 0%N).2 = (true, None)
  ∧ (Get (SaveDryRunResult promotion_db one_record 5%N).1 one_record key61 (VPtr TItem 0)
       false 0%N).2 = (VPtr TItem 0, None).
Proof.
  pose proof (@X14_promoted_then_direct_read tagged_tomox promotion_db one_record 5%N
                (mkCache 1024000 [(getCacheKey key61, VPtr TItem 0)]) key61 0%N) as Hx.
  assert (Hkeys : ∀ ck, ck ∈ Keys (mkCache 1024000 [(getCacheKey key61, VPtr TItem 0)]) →
                    ∃ kb, ck = hex.EncodeToString kb).
  { intros ck Hin. apply list_elem_of_singleton in Hin. by exists [Byte.x61]. }
  assert (Henc : ∀ ck v,
            Peek (mkCache 1024000 [(getCacheKey key61, VPtr TItem 0)]) ck = Some v →
            v ≠ VNil → (EncodeBytesItem v one_record).2 = None).
  { intros ck v Hv _. unfold Peek in Hv. simpl in Hv.
    destruct (decide (getCacheKey key61 = ck)); [|discriminate].
    injection Hv as <-. reflexivity. }
  destruct (Hx ltac:(vm_compute; reflexivity) ltac:(vm_compute; reflexivity)
               ltac:(vm_compute; reflexivity) ltac:(vm_compute; discriminate) Hkeys Henc
               ltac:(vm_compute; reflexivity))
    as (Hok & Hhas & Hget).
  split; [exact Hok|]. split; [exact Hhas|].
  exact (proj1 (Hget TItem 0%nat [Byte.x2a] ltac:(by eexists) ltac:(vm_compute; reflexivity))).
Defined.

(** The overlay of hash 5 deletes the stored key [61] and puts key [62]; the
    batch write fails: key [61] is gone from the store all the same, key [62]
    has not reached it, and the hot cache, which held key [61], is empty. *)
Lemma X15_failed_promotion_writes_no_value_witness :
  (SaveDryRunResult failing_promotion_db one_record 5%N).2 = Some (ErrIO "disk full")
  ∧ is_Some (ldb_data (db failing_promotion_db) !! [Byte.x61])
  ∧ ldb_data (db (SaveDryRunResult failing_promotion_db one_record 5%N).1) !! [Byte.x61] = None
  ∧ ldb_data (db (SaveDryRunResult failing_promotion_db one_record 5%N).1) !! [Byte.x62] = None
  ∧ is_Some (Peek (cacheItems failing_promotion_db) (getCacheKey key61))
  ∧ cacheItems (SaveDryRunResult failing_promotion_db one_record 5%N).1
    = Purge (cacheItems failing_promotion_db).
Proof.
  assert (Herr : (SaveDryRunResult failing_promotion_db one_record 5%N).2
                 = Some (ErrIO "disk full")) by (vm_compute; reflexivity).
  assert (Hc : dryRunCaches failing_promotion_db !! 5%N
               = Some (mkCache 1024000 [(getCacheKey key62, VPlain [Byte.x09]);
                                        (getCacheKey key61, VNil)]))
    by (vm_compute; reflexivity).
  pose proof (X15_failed_promotion_writes_no_value failing_promotion_db one_record 5%N
                (ErrIO "disk full") Herr) as Hx.
  cbv zeta in Hx. destruct Hx as (c & Hc' & Hstore & _ & _ & Hwrite).
  rewrite Hc in Hc'. injection Hc' as <-.
  split; [exact Herr|]. split; [vm_compute; by eexists|].
  split; [vm_compute; reflexivity|]. split; [|split; [vm_compute; by eexists|]].
  - destruct (Hstore [Byte.x62]) as [Heq|[Hnone _]]; [|exact Hnone].
    etransitivity; [exact Heq|]. vm_compute. reflexivity.
  - apply Hwrite. vm_compute. reflexivity.
Defined.

Lemma X16_promotion_of_nothing_witness :
  SaveDryRunResult promotion_db one_record 9%N = (promotion_db, None)
  ∧ SaveDryRunResult overlay_db one_record 5%N = (overlay_db, None).
Proof.
  assert (Hno : dryRunCaches promotion_db !! 9%N = None) by (vm_compute; reflexivity).
  assert (Hempty : dryRunCaches overlay_db !! 5%N = Some (mkCache 1024000 []))
    by (vm_compute; reflexivity).
  split.
  - apply (X16_promotion_of_nothing promotion_db one_record 9%N).
    intros c Hc. rewrite Hno in Hc. discriminate.
  - apply (X16_promotion_of_nothing overlay_db one_record 5%N).
    intros c Hc. rewrite Hempty in Hc. injection Hc as <-. reflexivity.
Defined.

Lemma X17_new_database_witness :
  ∃ d, NewBatchDatabaseWithEncode (mkLDB ∅ false) zero32 (-3) = Some d
       ∧ cacheLimit d = 1024000
       ∧ (InitDryRunMode d [] 5%N 7%N).2 = Some (ErrParentCacheNotFound 5%N 7%N).
Proof.
  destruct (X17_new_database (mkLDB ∅ false) zero32 (-3) [] 5%N 7%N)
    as (d & Hnew & Hlimit & _ & _ & _ & _ & _ & _ & _ & _ & Hfail); [vm_compute; discriminate|].
  exists d. split; [exact Hnew|]. split; [exact Hlimit|exact Hfail].
Defined.

Lemma X18_header_checks_guard_the_service_witness :
  ValidateBody (logging_validator false) (parent_block 8000000 6000000)
  = (Some [], Some ErrKnownBlock)
  ∧ (ValidateBody (logging_validator false) (parent_block 8000000 6000000)).1 = Some [].
Proof.
  destruct (X18_header_checks_guard_the_service (logging_validator false)
              (parent_block 8000000 6000000)) as [Hsvc _]; [left; vm_compute; reflexivity|].
  split; [vm_compute; reflexivity|exact Hsvc].
Defined.

Lemma X19_only_matching_transactions_count_witness :
  ValidateBody (logging_validator false)
    (block_of false [(false, [Byte.xfe]); (false, [Byte.xff; Byte.x01])])
  = (Some [], None).
Proof.
  refine (proj2 (X19_only_matching_transactions_count (logging_validator false)
                   (block_of false [(false, [Byte.xfe]); (false, [Byte.xff; Byte.x01])])
                   [] tt [] _ _ _ _ _ _ _) _);
    try (vm_compute; reflexivity).
  repeat constructor.
Defined.

Lemma X22_log_trades_witness :
  @logTrades (logging_collaborators false) [] 0%N [Byte.x01] [tt; tt] = ([], None).
Proof.
  destruct (@X22_log_trades (logging_collaborators false) [] 0%N [Byte.x01] [tt; tt])
    as [Hquiet _].
  apply Hquiet. vm_compute. reflexivity.
Defined.

Lemma X23_calc_gas_limit_strategy_witness :
  8000000 < CalcGasLimit default_params (parent_block 8000000 6000000)
  ∧ CalcGasLimit default_params (parent_block 4000000 0) = 4003905.
Proof.
  destruct (X23_calc_gas_limit_strategy default_params (parent_block 8000000 6000000))
    as [Habove _]; try (vm_compute; split; [discriminate|reflexivity]);
    try (vm_compute; reflexivity); try (vm_compute; discriminate).
  destruct (X23_calc_gas_limit_strategy default_params (parent_block 4000000 0))
    as [_ Hbelow]; try (vm_compute; split; [discriminate|reflexivity]);
    try (vm_compute; reflexivity); try (vm_compute; discriminate).
  split.
  - destruct Habove as (_ & Hup & _); [vm_compute; discriminate|].
    apply Hup. vm_compute. discriminate.
  - destruct Hbelow as (Heq & _); [vm_compute; reflexivity|].
    rewrite Heq. vm_compute. reflexivity.
Defined.

Lemma X24_calc_gas_limit_minimum_witness :
  5000 ≤ CalcGasLimit default_params (parent_block 8000000 6000000)
  ∧ CalcGasLimit default_params (parent_block 2000 2000) = 2000
  ∧ CalcGasLimit default_params (parent_block 2000 2000) < MinGasLimit default_params.
Proof.
  destruct (X24_calc_gas_limit_minimum default_params (parent_block 8000000 6000000))
    as (_ & Hfloor & _); try (vm_compute; split; [discriminate|reflexivity]);
    try (vm_compute; reflexivity); try (vm_compute; discriminate);
    try (vm_compute; split; discriminate).
  destruct (X24_calc_gas_limit_minimum default_params (parent_block 2000 2000))
    as (_ & _ & Hlow); try (vm_compute; split; [discriminate|reflexivity]);
    try (vm_compute; reflexivity); try (vm_compute; discriminate);
    try (vm_compute; split; discriminate).
  split; [apply Hfloor; vm_compute; discriminate|].
  destruct Hlow as [Heq Hlt]; try (vm_compute; reflexivity).
  split; [rewrite Heq; vm_compute; reflexivity|exact Hlt].
Defined.

Lemma X26_reinit_keeps_the_old_turn_witness :
  HasDryrunCache (Put (InitDryRunMode nearly_full_db [] 5%N zeroHash).1.1 [] key61
                    (VPlain [Byte.x01]) true 5%N).1 5%N = true
  ∧ dryRunCaches
      (InitDryRunMode (InitDryRunMode nearly_full_db [] 5%N zeroHash).1.1
         (InitDryRunMode nearly_full_db [] 5%N zeroHash).1.2 300%N zeroHash).1.1 !! 5%N = None.
Proof.
  assert (H1 : 5%N ≠ M1DryrunCacheHash) by (vm_compute; discriminate).
  assert (H2 : 300%N ≠ 5%N) by (vm_compute; discriminate).
  assert (H3 : recentCaches nearly_full_db = 5%N :: (N.of_nat <$> seq 6 198))
    by (vm_compute; reflexivity).
  assert (H4 : length (N.of_nat <$> seq 6 198) = 198%nat) by (vm_compute; reflexivity).
  assert (H5 : (InitDryRunMode nearly_full_db [] 5%N zeroHash).2 = None)
    by (vm_compute; reflexivity).
  pose proof (X26_reinit_keeps_the_old_turn nearly_full_db [] 5%N zeroHash 300%N zeroHash
                (N.of_nat <$> seq 6 198) H1 H2 H3 H4 H5) as Hx.
  cbv zeta in Hx. destruct Hx as (_ & _ & Hgone).
  split; [vm_compute; reflexivity|exact Hgone].
Defined.

Lemma X27_own_parent_witness :
  HasDryrunCache promotion_db 5%N = true
  ∧ (InitDryRunMode promotion_db one_record 5%N 5%N).2 = Some (ErrParentCacheNotFound 5%N 5%N)
  ∧ HasDryrunCache (InitDryRunMode promotion_db one_record 5%N 5%N).1.1 5%N = false.
Proof.
  destruct (X27_own_parent promotion_db one_record 5%N) as (Herr & _ & Hhas);
    [vm_compute; discriminate|vm_compute; reflexivity|].
  split; [vm_compute; reflexivity|]. split; [exact Herr|exact Hhas].
Defined.
